(** * SilverVille: session / progression engine

    A shallow embedding of the game-logic core of the SilverVille client
    (React Native + Zustand) and the properties its specification states
    about it.

    Conventions of the embedding
    - JavaScript integers the game counts with (steps, experience, resource
      counters, levels, scores of the mini game) are [Z].
    - JavaScript fractional numbers are rationals [Q].  Where the code
      divides, multiplies or adds them (the composite health score and the
      walk progress), the operations are those of IEEE 754 binary64, module
      [JS]: every result is rounded to the nearest double, ties to even.
      Comparisons against integer thresholds are exact on every finite
      double; the MIND score sums multiples of 0.1 and rounds to tenths, which
      the exact sum gives as well.
    - A Zustand [set(partial)] is a record update of the named fields.
    - React state and callbacks are explicit state passing: a record for the
      component state and one function per callback or effect. *)

From Stdlib Require Import ZArith QArith Qround Qminmax Qabs Qpower.
From Stdlib Require Import Lia Lqa List Sorted.
From stdpp Require Import gmap strings list.

Local Open Scope Z_scope.

(* ===================================================================== *)
(** * JavaScript built-ins the sources call                               *)
(* ===================================================================== *)

(** [Math.round]: the nearest integer, halves towards plus infinity. *)
Definition Math_round (x : Q) : Z := Qfloor (x + (1 # 2))%Q.

(** [Math.floor(Math.random() * n)], the draw [rnd] of [Math.random()]
    passed in: an index below [n] whenever [0 <= rnd < 1]. *)
Definition random_index (rnd : Q) (n : nat) : nat :=
  Z.to_nat (Qfloor (rnd * inject_Z (Z.of_nat n))).

(** A draw of [Math.random()]: a number in the half-open unit interval. *)
Definition unit_draw (rnd : Q) : Prop := (0 <= rnd)%Q /\ (rnd < 1)%Q.

(** ** Numbers

    A JS number is an IEEE 754 binary64 value: a rational with a 53-bit
    significand and an exponent of at least -1074, an infinity, or [NaN].
    Negative zero is not told apart from zero. *)
Module JS.

(** The nearest integer, ties to the even one. *)
Definition rne (x : Q) : Z :=
  let f := Qfloor x in
  match Qcompare (x - inject_Z f) (1 # 2) with
  | Lt => f
  | Gt => f + 1
  | Eq => if Z.even f then f else f + 1
  end.

(** The integer part of the binary logarithm of a positive rational. *)
Definition ilog2 (x : Q) : Z :=
  let l := Z.log2 (Qnum x) - Z.log2 (Z.pos (Qden x)) in
  if Qle_bool (2 ^ l) x then l else l - 1.

(** The exponent of the last place of the significand of [x]: 53 bits,
    and the fixed exponent -1074 in the subnormal range. *)
Definition expo (x : Q) : Z := Z.max (ilog2 (Qabs x) - 52) (-1074).

(** Rounding to the nearest double with an unbounded exponent: the
    significand is rounded at the last place, ties to even.  The result is
    given as a reduced fraction. *)
Definition fl (x : Q) : Q :=
  if Qeq_bool x 0 then 0%Q
  else Qred (inject_Z (rne (x / 2 ^ expo x)) * 2 ^ expo x)%Q.

Inductive num := Num (q : Q) | PosInf | NegInf | NaN.

(** The double an arithmetic operation returns for the exact result [x]: a
    rounded result of magnitude 2^1024 or more overflows to an infinity. *)
Definition round (x : Q) : num :=
  let y := fl x in
  if Qle_bool (2 ^ 1024) y then PosInf
  else if Qle_bool y (- 2 ^ 1024) then NegInf
  else Num y.

(** The double a field holding the rational [q] stands for: the nearest
    one.  (A value beyond the binary64 range, which no JS number holds, is
    kept finite.) *)
Definition of_Q (q : Q) : num := Num (fl q).
Definition of_Z (z : Z) : num := of_Q (inject_Z z).

(** [a / b] *)
Definition div (a b : num) : num :=
  match a, b with
  | NaN, _ | _, NaN => NaN
  | Num x, Num y =>
      if Qeq_bool y 0 then
        match Qcompare x 0 with
        | Gt => PosInf
        | Lt => NegInf
        | Eq => NaN
        end
      else round (x / y)
  | Num _, (PosInf | NegInf) => Num 0
  | PosInf, Num y => if Qle_bool 0 y then PosInf else NegInf
  | NegInf, Num y => if Qle_bool 0 y then NegInf else PosInf
  | (PosInf | NegInf), (PosInf | NegInf) => NaN
  end.

(** The product of an infinity ([neg]: the negative one) and [y]. *)
Definition mul_inf (neg : bool) (y : Q) : num :=
  match Qcompare y 0 with
  | Gt => if neg then NegInf else PosInf
  | Lt => if neg then PosInf else NegInf
  | Eq => NaN
  end.

(** [a * b] *)
Definition mul (a b : num) : num :=
  match a, b with
  | NaN, _ | _, NaN => NaN
  | Num x, Num y => round (x * y)
  | PosInf, Num y | Num y, PosInf => mul_inf false y
  | NegInf, Num y | Num y, NegInf => mul_inf true y
  | PosInf, PosInf | NegInf, NegInf => PosInf
  | PosInf, NegInf | NegInf, PosInf => NegInf
  end.

(** [a + b] *)
Definition add (a b : num) : num :=
  match a, b with
  | NaN, _ | _, NaN => NaN
  | Num x, Num y => round (x + y)
  | PosInf, NegInf | NegInf, PosInf => NaN
  | PosInf, _ | _, PosInf => PosInf
  | NegInf, _ | _, NegInf => NegInf
  end.

(** [Math.min(a, b)] *)
Definition min (a b : num) : num :=
  match a, b with
  | NaN, _ | _, NaN => NaN
  | NegInf, _ | _, NegInf => NegInf
  | PosInf, c | c, PosInf => c
  | Num x, Num y => if Qle_bool x y then Num x else Num y
  end.

(** [Math.round(a)]: exact on every double; an infinity and [NaN] are
    returned as they are. *)
Definition Math_round (a : num) : num :=
  match a with
  | Num x => Num (inject_Z (Qfloor (x + (1 # 2))))
  | _ => a
  end.

(** The integer a number is, [None] for an infinity and [NaN]. *)
Definition to_Z (a : num) : option Z :=
  match a with
  | Num x => Some (Qfloor x)
  | _ => None
  end.

(** Half a unit in the last place of the numbers below 128: [2 ^ -47]. *)
Definition half_ulp : Q := 1 # 140737488355328.

(** The order of the numbers that are not negative, [Infinity] on top. *)
Definition nle (a b : num) : Prop :=
  match a, b with
  | Num x, Num y => (x <= y)%Q
  | Num _, PosInf | PosInf, PosInf => True
  | _, _ => False
  end.

End JS.

(* ===================================================================== *)
(** * src/store/gameStore.ts                                              *)
(* ===================================================================== *)

Module GameStore.

(** Animal resident of the village. *)
Record Resident := mkResident {
  resident_id : string;
  resident_name : string;
  resident_emoji : string;
  arrivalDate : string
}.

Inductive BuildingType := house | cafe | farm | garden | fountain.

Record Building := mkBuilding {
  building_id : string;
  building_type : BuildingType;
  building_name : string;
  building_emoji : string;
  unlockLevel : Z
}.

(** One answered walking quiz of today. *)
Record QuizRecord := mkQuizRecord {
  question : string;
  answer : string;
  correct : bool;
  timestamp : Z
}.

(** The data fields of [GameState] (the actions are the functions below). *)
Record GameState := mkGameState {
  steps : Z;
  walkGoal : Z;
  quizHistory : list QuizRecord;
  dietScore : Q;
  lastAnalyzedFoods : list string;
  villageLevel : Z;
  villageExp : Z;
  residents : list Resident;
  buildings : list Building;
  fertilizer : Z;
  landscapeItems : Z;
  cafeScore : Z;
  cafeStreak : Z;
  streakDays : Z
}.

(** A threshold of the level table: a finite number or [Infinity]. *)
Inductive threshold := Fin (z : Z) | Infinity.

(** [LEVEL_EXP_THRESHOLDS]: a JS object used as a map from level to the
    experience its successor needs. *)
Definition LEVEL_EXP_THRESHOLDS : gmap Z threshold :=
  list_to_map
    [ (1, Fin 100); (2, Fin 250); (3, Fin 500); (4, Fin 900);
      (5, Fin 1500); (6, Fin 2400); (7, Fin 3700); (8, Fin 5500);
      (9, Fin 8000); (10, Infinity) ].

(** [exp >= t] on JS numbers, [exp] finite. *)
Definition reaches (exp : Z) (t : threshold) : bool :=
  match t with
  | Fin z => z <=? exp
  | Infinity => false
  end.

(** The body of [for (let lv = 1; lv <= 10; lv++) { if .. else break }],
    over the levels still to visit; [level] is the loop-carried variable.
    [LEVEL_EXP_THRESHOLDS[lv - 1] ?? 0] is the lookup with default. *)
Fixpoint level_loop (lvs : list Z) (exp level : Z) : Z :=
  match lvs with
  | [] => level
  | lv :: rest =>
      if reaches exp (default (Fin 0) (LEVEL_EXP_THRESHOLDS !! (lv - 1)))
      then level_loop rest exp lv
      else level
  end.

Definition calcVillageLevel (exp : Z) : Z :=
  Z.min (level_loop [1; 2; 3; 4; 5; 6; 7; 8; 9; 10] exp 1) 10.

(** Initial state of the store. *)
Definition initialState : GameState :=
  {| steps := 0; walkGoal := 5000; quizHistory := [];
     dietScore := 0%Q; lastAnalyzedFoods := [];
     villageLevel := 1; villageExp := 0; residents := []; buildings := [];
     fertilizer := 0; landscapeItems := 0;
     cafeScore := 0; cafeStreak := 0;
     streakDays := 0 |}.

(** ** Actions *)

Definition setSteps (n : Z) (s : GameState) : GameState :=
  mkGameState n (walkGoal s) (quizHistory s) (dietScore s)
    (lastAnalyzedFoods s) (villageLevel s) (villageExp s) (residents s)
    (buildings s) (fertilizer s) (landscapeItems s) (cafeScore s)
    (cafeStreak s) (streakDays s).

Definition addQuizRecord (r : QuizRecord) (s : GameState) : GameState :=
  mkGameState (steps s) (walkGoal s) (quizHistory s ++ [r]) (dietScore s)
    (lastAnalyzedFoods s) (villageLevel s) (villageExp s) (residents s)
    (buildings s) (fertilizer s) (landscapeItems s) (cafeScore s)
    (cafeStreak s) (streakDays s).

Definition setDietScore (score : Q) (foods : list string) (s : GameState)
  : GameState :=
  mkGameState (steps s) (walkGoal s) (quizHistory s) score
    foods (villageLevel s) (villageExp s) (residents s)
    (buildings s) (fertilizer s) (landscapeItems s) (cafeScore s)
    (cafeStreak s) (streakDays s).

Definition addFertilizer (amount : Z) (s : GameState) : GameState :=
  mkGameState (steps s) (walkGoal s) (quizHistory s) (dietScore s)
    (lastAnalyzedFoods s) (villageLevel s) (villageExp s) (residents s)
    (buildings s) (fertilizer s + amount) (landscapeItems s) (cafeScore s)
    (cafeStreak s) (streakDays s).

Definition useFertilizer (amount : Z) (s : GameState) : GameState :=
  mkGameState (steps s) (walkGoal s) (quizHistory s) (dietScore s)
    (lastAnalyzedFoods s) (villageLevel s) (villageExp s) (residents s)
    (buildings s) (Z.max 0 (fertilizer s - amount)) (landscapeItems s)
    (cafeScore s) (cafeStreak s) (streakDays s).

Definition addLandscapeItems (amount : Z) (s : GameState) : GameState :=
  mkGameState (steps s) (walkGoal s) (quizHistory s) (dietScore s)
    (lastAnalyzedFoods s) (villageLevel s) (villageExp s) (residents s)
    (buildings s) (fertilizer s) (landscapeItems s + amount) (cafeScore s)
    (cafeStreak s) (streakDays s).

Definition addResident (r : Resident) (s : GameState) : GameState :=
  mkGameState (steps s) (walkGoal s) (quizHistory s) (dietScore s)
    (lastAnalyzedFoods s) (villageLevel s) (villageExp s)
    (residents s ++ [r])
    (buildings s) (fertilizer s) (landscapeItems s) (cafeScore s)
    (cafeStreak s) (streakDays s).

(** [state.buildings.find((b) => b.id === building.id)] *)
Definition hasBuilding (b : Building) (s : GameState) : bool :=
  existsb (fun b' => String.eqb (building_id b') (building_id b))
          (buildings s).

Definition unlockBuilding (b : Building) (s : GameState) : GameState :=
  if hasBuilding b s then s
  else
    mkGameState (steps s) (walkGoal s) (quizHistory s) (dietScore s)
      (lastAnalyzedFoods s) (villageLevel s) (villageExp s) (residents s)
      (buildings s ++ [b]) (fertilizer s) (landscapeItems s) (cafeScore s)
      (cafeStreak s) (streakDays s).

Definition addVillageExp (exp : Z) (s : GameState) : GameState :=
  let newExp := villageExp s + exp in
  let newLevel := calcVillageLevel newExp in
  mkGameState (steps s) (walkGoal s) (quizHistory s) (dietScore s)
    (lastAnalyzedFoods s) newLevel newExp (residents s)
    (buildings s) (fertilizer s) (landscapeItems s) (cafeScore s)
    (cafeStreak s) (streakDays s).

Definition addCafeScore (points : Z) (s : GameState) : GameState :=
  mkGameState (steps s) (walkGoal s) (quizHistory s) (dietScore s)
    (lastAnalyzedFoods s) (villageLevel s) (villageExp s) (residents s)
    (buildings s) (fertilizer s) (landscapeItems s) (cafeScore s + points)
    (cafeStreak s + 1) (streakDays s).

Definition resetCafeSession (s : GameState) : GameState :=
  mkGameState (steps s) (walkGoal s) (quizHistory s) (dietScore s)
    (lastAnalyzedFoods s) (villageLevel s) (villageExp s) (residents s)
    (buildings s) (fertilizer s) (landscapeItems s) (cafeScore s)
    0 (streakDays s).

Definition incrementStreak (s : GameState) : GameState :=
  mkGameState (steps s) (walkGoal s) (quizHistory s) (dietScore s)
    (lastAnalyzedFoods s) (villageLevel s) (villageExp s) (residents s)
    (buildings s) (fertilizer s) (landscapeItems s) (cafeScore s)
    (cafeStreak s) (streakDays s + 1).

Definition resetDailyStats (s : GameState) : GameState :=
  mkGameState 0 (walkGoal s) [] 0%Q
    [] (villageLevel s) (villageExp s) (residents s)
    (buildings s) (fertilizer s) (landscapeItems s) 0
    0 (streakDays s).

(** The mutation surface as data, to quantify over call sequences. *)
Inductive Action :=
| SetSteps (n : Z)
| AddQuizRecord (r : QuizRecord)
| SetDietScore (score : Q) (foods : list string)
| AddFertilizer (amount : Z)
| UseFertilizer (amount : Z)
| AddLandscapeItems (amount : Z)
| AddResident (r : Resident)
| UnlockBuilding (b : Building)
| AddVillageExp (exp : Z)
| AddCafeScore (points : Z)
| ResetCafeSession
| IncrementStreak
| ResetDailyStats.

Definition dispatch (s : GameState) (a : Action) : GameState :=
  match a with
  | SetSteps n => setSteps n s
  | AddQuizRecord r => addQuizRecord r s
  | SetDietScore score foods => setDietScore score foods s
  | AddFertilizer amount => addFertilizer amount s
  | UseFertilizer amount => useFertilizer amount s
  | AddLandscapeItems amount => addLandscapeItems amount s
  | AddResident r => addResident r s
  | UnlockBuilding b => unlockBuilding b s
  | AddVillageExp exp => addVillageExp exp s
  | AddCafeScore points => addCafeScore points s
  | ResetCafeSession => resetCafeSession s
  | IncrementStreak => incrementStreak s
  | ResetDailyStats => resetDailyStats s
  end.

(** The store after a sequence of calls, oldest first. *)
Definition run (s : GameState) (acts : list Action) : GameState :=
  fold_left dispatch acts s.

(** Amounts handed to the resource actions are not negative. *)
Definition amount_ok (a : Action) : Prop :=
  match a with
  | AddFertilizer amount | UseFertilizer amount
  | AddLandscapeItems amount => 0 <= amount
  | _ => True
  end.

(** [selectHealthScore], in the binary64 arithmetic of the code.  The
    result is [None] where the JS result is [NaN] or an infinity (a walk
    goal of 0 with no steps, or with negative steps). *)
Definition selectHealthScore (s : GameState) : option Z :=
  let walkRatio :=
    JS.min (JS.div (JS.of_Z (steps s)) (JS.of_Z (walkGoal s))) (JS.of_Z 1) in
  let dietRatio := JS.div (JS.of_Q (dietScore s)) (JS.of_Z 10) in
  let cafeRatio :=
    JS.min (JS.div (JS.of_Z (cafeScore s)) (JS.of_Z 30)) (JS.of_Z 1) in
  JS.to_Z
    (JS.Math_round
       (JS.add (JS.add (JS.mul walkRatio (JS.of_Z 40))
                       (JS.mul dietRatio (JS.of_Z 40)))
               (JS.mul cafeRatio (JS.of_Z 20)))).

(** The stored level is the level of the stored experience. *)
Definition level_fresh (s : GameState) : Prop :=
  villageLevel s = calcVillageLevel (villageExp s).

(** Both resource counters are not negative. *)
Definition resources_ok (s : GameState) : Prop :=
  0 <= fertilizer s /\ 0 <= landscapeItems s.

(** The weighted blend of the composite score before rounding, as the
    specification writes it, in exact arithmetic. *)
Definition compositeFormula (walkSteps walkGoal : Z) (dietScore : Q)
    (cafeScore : Z) : Q :=
  (Qmin (inject_Z walkSteps / inject_Z walkGoal) 1 * 40
   + dietScore / 10 * 40
   + Qmin (inject_Z cafeScore / 30) 1 * 20)%Q.

(** The composite scorer as the specification words it: the rounded
    blend, clamped to the interval from 0 to 100. *)
Definition compositeScore_spec (walkSteps walkGoal : Z) (dietScore : Q)
    (cafeScore : Z) : Z :=
  Z.max 0 (Z.min 100
    (Math_round (compositeFormula walkSteps walkGoal dietScore cafeScore))).

(** [selectWalkGoalReached] *)
Definition selectWalkGoalReached (s : GameState) : bool :=
  walkGoal s <=? steps s.

(** [selectWalkProgress], in the binary64 arithmetic of the code.  With
    [walkGoal = 0] the quotient is an infinity or [NaN]: positive steps give
    [Math.min(Infinity, 100) = 100]; the result is [None] where it is [NaN]
    or minus infinity. *)
Definition selectWalkProgress (s : GameState) : option Z :=
  JS.to_Z
    (JS.min
       (JS.Math_round
          (JS.mul (JS.div (JS.of_Z (steps s)) (JS.of_Z (walkGoal s)))
                  (JS.of_Z 100)))
       (JS.of_Z 100)).

(** No two unlocked buildings share an id. *)
Definition buildings_distinct (s : GameState) : Prop :=
  NoDup (building_id <$> buildings s).

(** Experience handed to [addVillageExp] is not negative. *)
Definition exp_ok (a : Action) : Prop :=
  match a with
  | AddVillageExp exp => 0 <= exp
  | _ => True
  end.

(** The action is not the daily reset. *)
Definition keeps_day (a : Action) : Prop :=
  match a with
  | ResetDailyStats => False
  | _ => True
  end.

End GameStore.

(* ===================================================================== *)
(** * src/services/healthService.ts                                       *)
(* ===================================================================== *)

Module HealthService.

(** MIND score to fertilizer reward. *)
Definition calcFertilizer (mindScore : Q) : Z :=
  if Qle_bool 8 mindScore then 5
  else if Qle_bool 6 mindScore then 3
  else if Qle_bool 4 mindScore then 2
  else if Qle_bool 2 mindScore then 1
  else 0.

(** Steps of the day to landscape items. *)
Definition calcLandscapeItems (steps : Z) : Z :=
  if 10000 <=? steps then 3
  else if 7000 <=? steps then 2
  else if 5000 <=? steps then 1
  else 0.

(** [MIND_FOOD_SCORES]: points of the foods of the MIND diet. *)
Definition MIND_FOOD_SCORES : gmap string Q :=
  list_to_map
    [ ("시금치", 1); ("케일", 1); ("브로콜리", 1); ("상추", 8 # 10);
      ("배추", 7 # 10); ("미나리", 8 # 10); ("쑥갓", 8 # 10);
      ("블루베리", 9 # 10); ("딸기", 8 # 10); ("라즈베리", 8 # 10);
      ("호두", 9 # 10); ("아몬드", 8 # 10); ("견과류", 7 # 10);
      ("연어", 1); ("고등어", 1); ("참치", 9 # 10); ("생선", 9 # 10);
      ("두부", 9 # 10); ("콩", 8 # 10); ("청국장", 9 # 10);
      ("현미", 8 # 10); ("통밀", 7 # 10);
      ("올리브오일", 1);
      ("닭가슴살", 5 # 10); ("닭", 5 # 10) ]%Q.

(** [MIND_PENALTY_FOODS]: deductions of the foods to avoid. *)
Definition MIND_PENALTY_FOODS : gmap string Q :=
  list_to_map
    [ ("버터", -5 # 10); ("치즈", -3 # 10); ("패스트푸드", -1);
      ("튀김", -8 # 10); ("소시지", -7 # 10); ("라면", -6 # 10);
      ("과자", -5 # 10) ]%Q.

(** [table[food] ?? 0] on an object literal.  An own key gives its number, a
    name the object does not have gives [undefined] and so 0.  A name that
    the object inherits from [Object.prototype] ([inherited food]; for
    example "constructor") gives a function or an object, which is not
    nullish: adding it turns the score into a string and the final result
    into [NaN]; that case is [None]. *)
Definition foodPoints (inherited : string -> bool) (table : gmap string Q)
    (food : string) : option Q :=
  match table !! food with
  | Some p => Some p
  | None => if inherited food then None else Some 0%Q
  end.

(** The loop of [calcMindScore]: both tables are read for every food.  The
    sum is taken in exact arithmetic; every entry is a multiple of 0.1, so
    the rounding below gives the integer the double sum gives. *)
Fixpoint addFoods (inherited : string -> bool) (detectedFoods : list string)
    (score : Q) : option Q :=
  match detectedFoods with
  | [] => Some score
  | food :: rest =>
      a ← foodPoints inherited MIND_FOOD_SCORES food;
      b ← foodPoints inherited MIND_PENALTY_FOODS food;
      addFoods inherited rest (score + a + b)%Q
  end.

(** [Math.max(0, Math.min(10, tenths / 10))] for
    [tenths = Math.round(score * 10)]. *)
Definition clampTenths (tenths : Z) : Q :=
  Qmax 0 (Qmin 10 (inject_Z tenths / 10)).

(** [calcMindScore]; [None] is [NaN]. *)
Definition calcMindScore (inherited : string -> bool)
    (detectedFoods : list string) : option Q :=
  score ← addFoods inherited detectedFoods 0%Q;
  Some (clampTenths (Math_round (score * 10))).

(** [calcFertilizer] and [getMindFeedback] on a score that may be [NaN]:
    every comparison with [NaN] is false. *)
Definition calcFertilizer_of (mindScore : option Q) : Z :=
  match mindScore with
  | Some score => calcFertilizer score
  | None => 0
  end.

Definition getMindFeedback (mindScore : Q) : string :=
  if Qle_bool 8 mindScore then "🌟 훌륭해요! 오늘 식단은 뇌 건강 최우수예요!"
  else if Qle_bool 6 mindScore
       then "👍 좋아요! 채소나 생선을 조금 더 드시면 더욱 좋아요."
  else if Qle_bool 4 mindScore
       then "😊 괜찮아요! 견과류나 블루베리를 추가해보세요."
  else "💚 오늘은 녹황색 채소, 생선, 견과류를 더 드셔보세요.".

(** The points one food adds to the sum, when it is not an inherited name. *)
Definition foodWeight (food : string) : Q :=
  (default 0 (MIND_FOOD_SCORES !! food)
   + default 0 (MIND_PENALTY_FOODS !! food))%Q.

Fixpoint mealTotal (foods : list string) : Q :=
  match foods with
  | [] => 0%Q
  | food :: rest => (foodWeight food + mealTotal rest)%Q
  end.

(** The food makes the score [NaN]: an inherited name missing from one of
    the two tables. *)
Definition nanFood (inherited : string -> bool) (food : string) : bool :=
  inherited food
  && (negb (bool_decide (is_Some (MIND_FOOD_SCORES !! food)))
      || negb (bool_decide (is_Some (MIND_PENALTY_FOODS !! food)))).

(** The food is in neither table. *)
Definition unknownFood (food : string) : Prop :=
  MIND_FOOD_SCORES !! food = None /\ MIND_PENALTY_FOODS !! food = None.

(** The property names of [Object.prototype] in ECMAScript (with Annex B). *)
Definition Object_prototype_names : list string :=
  [ "constructor"; "hasOwnProperty"; "isPrototypeOf"; "propertyIsEnumerable";
    "toLocaleString"; "toString"; "valueOf"; "__proto__";
    "__defineGetter__"; "__defineSetter__"; "__lookupGetter__";
    "__lookupSetter__" ].

Definition inheritedName (food : string) : bool :=
  bool_decide (food ∈ Object_prototype_names).

End HealthService.

(* ===================================================================== *)
(** * src/services/pedometerService.ts                                    *)
(* ===================================================================== *)

Module PedometerService.

Record StepUpdatePayload := mkPayload {
  payload_steps : Z;
  progress : option Z;
  goalReached : bool;
  quizTrigger : bool
}.

Definition WALK_GOAL : Z := 5000.
Definition QUIZ_INTERVAL : Z := 1000.
Definition REWARD_MILESTONE : Z := 5000.

Record WalkQuiz := mkWalkQuiz {
  id : string;
  question : string;
  choices : list string;
  answer : string;
  hint : option string
}.

Definition FALLBACK_QUIZZES : list WalkQuiz :=
  [ mkWalkQuiz "q1" "대한민국의 수도는 어디일까요?"
      ["부산"; "서울"; "대구"; "인천"] "서울"
      (Some "서울은 조선 시대부터 600년 넘게 수도였어요.");
    mkWalkQuiz "q2" "사과가 영어로 무엇인가요?"
      ["Banana"; "Orange"; "Apple"; "Grape"] "Apple"
      (Some "A for Apple! 사과는 Apple이에요.");
    mkWalkQuiz "q3" "봄, 여름, 가을 다음은 무슨 계절인가요?"
      ["봄"; "여름"; "가을"; "겨울"] "겨울"
      (Some "한 해는 봄, 여름, 가을, 겨울 순서로 이어져요.");
    mkWalkQuiz "q4" "5 곱하기 7은 얼마인가요?"
      ["30"; "35"; "40"; "45"] "35"
      (Some "5 × 7 = 35예요. 구구단 5단이에요!");
    mkWalkQuiz "q5" "하늘은 무슨 색인가요?"
      ["빨간색"; "노란색"; "파란색"; "초록색"] "파란색"
      (Some "맑은 날 하늘은 파란색이에요.");
    mkWalkQuiz "q6" "1년은 몇 개월인가요?"
      ["10개월"; "11개월"; "12개월"; "13개월"] "12개월"
      (Some "1월부터 12월까지 1년은 12개월이에요.");
    mkWalkQuiz "q7" "강아지 소리는 무엇인가요?"
      ["야옹"; "멍멍"; "음메"; "꼬끼오"] "멍멍"
      (Some "강아지는 멍멍, 고양이는 야옹이에요.");
    mkWalkQuiz "q8" "무지개의 색은 몇 가지인가요?"
      ["5가지"; "6가지"; "7가지"; "8가지"] "7가지"
      (Some "빨주노초파남보! 무지개는 7가지 색이에요.") ].

(** The private fields of the service the game logic reads or writes
    (the sensor subscription and the two callbacks are the arguments and
    results of the functions below). *)
Record Service := mkService {
  currentSteps : Z;
  lastQuizMilestone : Z;
  usedQuizIds : gset string
}.

Definition initialService : Service := mkService 0 0 ∅.

Definition resetDaily (sv : Service) : Service := mkService 0 0 ∅.

(** [catalog.filter((q) => !usedQuizIds.has(q.id))] *)
Definition unusedQuizzes (catalog : list WalkQuiz) (used : gset string)
  : list WalkQuiz :=
  filter (fun q => id q ∉ used) catalog.

(** [getRandomQuiz] over a catalog, [rnd] the draw of [Math.random()].
    The result is the quiz handed out and the new [usedQuizIds]; [None]
    where the JS has no quiz to hand out ([undefined], whose [.id] access
    throws). *)
Definition getRandomQuiz_from (catalog : list WalkQuiz) (rnd : Q)
    (used : gset string) : option (WalkQuiz * gset string) :=
  let available := unusedQuizzes catalog used in
  if Nat.eqb (length available) 0 then
    q ← catalog !! 0%nat; Some (q, ∅)
  else
    quiz ← available !! random_index rnd (length available);
    Some (quiz, used ∪ {[ id quiz ]}).

Definition getRandomQuiz (rnd : Q) (sv : Service)
  : option (WalkQuiz * Service) :=
  '(quiz, used) ← getRandomQuiz_from FALLBACK_QUIZZES rnd (usedQuizIds sv);
  Some (quiz, mkService (currentSteps sv) (lastQuizMilestone sv) used).

(** [_handleStepUpdate]: the new service state, the argument of the quiz
    callback when it is called, and the payload of the step callback.
    [progress] is computed in the binary64 arithmetic of the code ([None]
    where it is not a finite number). *)
Definition _handleStepUpdate (steps : Z) (sv : Service)
  : Service * option Z * StepUpdatePayload :=
  let progress :=
    JS.to_Z
      (JS.min
         (JS.Math_round
            (JS.mul (JS.div (JS.of_Z steps) (JS.of_Z WALK_GOAL))
                    (JS.of_Z 100)))
         (JS.of_Z 100)) in
  let goalReached := REWARD_MILESTONE <=? steps in
  let currentMilestone := steps / QUIZ_INTERVAL * QUIZ_INTERVAL in
  let quizTrigger :=
    (lastQuizMilestone sv <? currentMilestone) && (0 <? currentMilestone) in
  let sv' :=
    if quizTrigger
    then mkService (currentSteps sv) currentMilestone (usedQuizIds sv)
    else sv in
  (sv', if quizTrigger then Some currentMilestone else None,
   mkPayload steps progress goalReached quizTrigger).

(** The sensor callback of [startTracking]: records the reading, then
    handles it. *)
Definition onSensor (steps : Z) (sv : Service)
  : Service * option Z * StepUpdatePayload :=
  _handleStepUpdate steps
    (mkService steps (lastQuizMilestone sv) (usedQuizIds sv)).

(** The milestone scheduler on its own: [observe] is the
    [lastQuizMilestone] part of [_handleStepUpdate]. *)
Definition observe (steps : Z) (lastFired : Z) : Z * option Z :=
  let '(sv, fired, _) := _handleStepUpdate steps (mkService 0 lastFired ∅) in
  (lastQuizMilestone sv, fired).

(** The milestones fired along a sequence of observations. *)
Fixpoint observeAll (obs : list Z) (lastFired : Z) : list Z * Z :=
  match obs with
  | [] => ([], lastFired)
  | s :: rest =>
      let '(last', fired) := observe s lastFired in
      let '(ms, final) := observeAll rest last' in
      (match fired with Some m => m :: ms | None => ms end, final)
  end.

(** Consecutive draws from the quiz bank, one [Math.random()] each. *)
Fixpoint draws (catalog : list WalkQuiz) (rnds : list Q) (used : gset string)
  : option (list WalkQuiz * gset string) :=
  match rnds with
  | [] => Some ([], used)
  | r :: rest =>
      '(q, used') ← getRandomQuiz_from catalog r used;
      '(qs, final) ← draws catalog rest used';
      Some (q :: qs, final)
  end.

(** The quiz bank as the specification words it: pick at random among the
    items not in [usedIds] and add the id picked; when none is left, clear
    [usedIds] first, then pick at random from the full catalog. *)
Definition QuizBank_next_spec (catalog : list WalkQuiz) (rnd : Q)
    (used : gset string) : option (WalkQuiz * gset string) :=
  let available := unusedQuizzes catalog used in
  if Nat.eqb (length available) 0 then
    quiz ← catalog !! random_index rnd (length catalog);
    Some (quiz, {[ id quiz ]})
  else
    quiz ← available !! random_index rnd (length available);
    Some (quiz, used ∪ {[ id quiz ]}).

End PedometerService.

(* ===================================================================== *)
(** * app/(tabs)/walk.tsx: the walk tab on the pedometer service          *)
(* ===================================================================== *)

Module WalkTab.

Inductive QuizState :=
| QuizIdle
| Playing (quiz : PedometerService.WalkQuiz)
| Answered (quiz : PedometerService.WalkQuiz) (selected : string)
           (correct : bool).

(** The component state, the store and the service singleton it drives.
    [subscribed] is [subscription !== null] of the service; [goalAlerts]
    counts the goal dialogs shown by [Alert.alert]. *)
Record Screen := mkScreen {
  store : GameStore.GameState;
  service : PedometerService.Service;
  pedometerAvailable : bool;
  subscribed : bool;
  isTracking : bool;
  quizState : QuizState;
  rewardGivenRef : bool;
  goalAlerts : nat
}.

Definition initialScreen (available : bool) : Screen :=
  mkScreen GameStore.initialState PedometerService.initialService
           available false false QuizIdle false 0.

Definition startTracking (w : Screen) : Screen :=
  if negb (pedometerAvailable w) then w
  else mkScreen (store w) (service w) (pedometerAvailable w)
                true true (quizState w) false (goalAlerts w).

Definition stopTracking (w : Screen) : Screen :=
  mkScreen (store w) (service w) (pedometerAvailable w)
           false false QuizIdle (rewardGivenRef w) (goalAlerts w).

(** The step callback handed to [pedometerService.startTracking]. *)
Definition onStep (p : PedometerService.StepUpdatePayload) (w : Screen)
  : Screen :=
  let store1 := GameStore.setSteps (PedometerService.payload_steps p)
                                   (store w) in
  if PedometerService.goalReached p && negb (rewardGivenRef w) then
    mkScreen (GameStore.addLandscapeItems 1 store1) (service w)
             (pedometerAvailable w) (subscribed w) (isTracking w)
             (quizState w) true (S (goalAlerts w))
  else
    mkScreen store1 (service w) (pedometerAvailable w) (subscribed w)
             (isTracking w) (quizState w) (rewardGivenRef w) (goalAlerts w).

(** The quiz callback; [None] when [getRandomQuiz] throws. *)
Definition triggerQuiz (milestone : Z) (rnd : Q) (w : Screen)
  : option Screen :=
  '(quiz, sv) ← PedometerService.getRandomQuiz rnd (service w);
  Some (mkScreen (store w) sv (pedometerAvailable w) (subscribed w)
                 (isTracking w) (Playing quiz) (rewardGivenRef w)
                 (goalAlerts w)).

(** One reading of the sensor, [rnd] the draw a triggered quiz uses.  The
    service calls the quiz callback before the step callback; without a
    subscription no reading is delivered. *)
Definition sensorTick (tick : Z * Q) (w : Screen) : option Screen :=
  if negb (subscribed w) then Some w
  else
    let '(sv, fired, payload) :=
      PedometerService.onSensor (fst tick) (service w) in
    let w1 := mkScreen (store w) sv (pedometerAvailable w) (subscribed w)
                       (isTracking w) (quizState w) (rewardGivenRef w)
                       (goalAlerts w) in
    w2 ← match fired with
         | Some m => triggerQuiz m (snd tick) w1
         | None => Some w1
         end;
    Some (onStep payload w2).

Fixpoint sensorTicks (ticks : list (Z * Q)) (w : Screen) : option Screen :=
  match ticks with
  | [] => Some w
  | t :: rest => w' ← sensorTick t w; sensorTicks rest w'
  end.

(** Whether a reading reaches the goal of the session. *)
Definition reachesGoal (tick : Z * Q) : bool :=
  PedometerService.REWARD_MILESTONE <=? fst tick.

(** [selectAnswer], [now] the reading of [Date.now()]. *)
Definition selectAnswer (choice : string) (now : Z) (w : Screen) : Screen :=
  match quizState w with
  | Playing quiz =>
      let correct := String.eqb choice (PedometerService.answer quiz) in
      mkScreen
        (GameStore.addQuizRecord
           (GameStore.mkQuizRecord (PedometerService.question quiz) choice
                                   correct now)
           (store w))
        (service w) (pedometerAvailable w) (subscribed w) (isTracking w)
        (Answered quiz choice correct) (rewardGivenRef w) (goalAlerts w)
  | _ => w
  end.

(** The timer [selectAnswer] sets fires, and the fade-out it starts ends:
    [setQuizState({ phase: 'idle' })]. *)
Definition answerTimeout (w : Screen) : Screen :=
  mkScreen (store w) (service w) (pedometerAvailable w) (subscribed w)
           (isTracking w) QuizIdle (rewardGivenRef w) (goalAlerts w).

(** Tracking sessions one after the other: each is started, receives its
    readings and is stopped. *)
Fixpoint trackingSessions (sessions : list (list (Z * Q))) (w : Screen)
  : option Screen :=
  match sessions with
  | [] => Some w
  | ticks :: rest =>
      w' ← sensorTicks ticks (startTracking w);
      trackingSessions rest (stopTracking w')
  end.

End WalkTab.

(* ===================================================================== *)
(** * src/screens/WalkScreen.tsx: the walk screen on the app store        *)
(* ===================================================================== *)

Module WalkScreen.

(** [WalkQuiz] of healthService.ts. *)
Record WalkQuiz := mkWalkQuiz {
  id : string;
  question : string;
  choices : list string;
  answer : string
}.

Definition MOCK_QUIZZES : list WalkQuiz :=
  [ mkWalkQuiz "q1" "대한민국의 수도는 어디인가요?"
      ["서울"; "부산"; "대구"; "인천"] "서울";
    mkWalkQuiz "q2" "사과는 무슨 색인가요?"
      ["파란색"; "빨간색"; "노란색"; "보라색"] "빨간색";
    mkWalkQuiz "q3" "1 더하기 1은 무엇인가요?"
      ["1"; "2"; "3"; "4"] "2";
    mkWalkQuiz "q4" "봄에 피는 꽃은 무엇인가요?"
      ["국화"; "코스모스"; "벚꽃"; "해바라기"] "벚꽃" ].

Inductive WalkPhase := idle | walking | quiz | result | complete.

Definition phase_eqb (a b : WalkPhase) : bool :=
  match a, b with
  | idle, idle | walking, walking | quiz, quiz
  | result, result | complete, complete => true
  | _, _ => false
  end.

(** The React state of the screen, the slices of the app store it writes
    and what it has scheduled.
    - [steps] is the reading of the [usePedometer] hook;
    - [walkGoal], [walkSteps] are [mission.walkGoal], [mission.walkSteps]
      and [landscapeItems] is [player.landscapeItems] of the app store;
    - [resultTimers] counts the pending [setTimeout] callbacks of
      [handleSelectChoice];
    - [completions] counts the runs of [handleWalkComplete], each of which
      reports the walk to the server, adds the reward and speaks the
      completion message. *)
Record Screen := mkScreen {
  phase : WalkPhase;
  steps : Z;
  sessionSteps : Z;
  startSteps : Z;
  quizList : list WalkQuiz;
  currentQuizIdx : nat;
  selectedChoice : option string;
  lastQuizCorrect : option bool;
  correctCount : Z;
  walkGoal : Z;
  walkSteps : Z;
  landscapeItems : Z;
  resultTimers : nat;
  completions : nat
}.

Definition initialScreen : Screen :=
  mkScreen idle 0 0 0 [] 0 None None 0 5000 0 0 0 0.

(** What the outside hands to the screen: whether the server answers
    [completeWalk], and the quiz it serves on [getWalkQuiz] (if any). *)
Record Remote := mkRemote {
  completeWalkOk : bool;
  remoteQuiz : option WalkQuiz
}.

(** [handleWalkComplete(finalSteps)].  [snap] is the render whose closure
    runs ([player.landscapeItems] is read from it), [st] the state the
    setters write.  The awaited [completeWalk] is taken to settle before
    the next event: it yields [calcLandscapeItems(finalSteps)] items, and
    one item when the call is rejected. *)
Definition handleWalkComplete (rm : Remote) (finalSteps : Z)
    (snap st : Screen) : Screen :=
  let reward :=
    if completeWalkOk rm then HealthService.calcLandscapeItems finalSteps
    else 1 in
  mkScreen complete (steps st) (sessionSteps st) (startSteps st)
           (quizList st) (currentQuizIdx st) (selectedChoice st)
           (lastQuizCorrect st) (correctCount st) (walkGoal st)
           finalSteps (landscapeItems snap + reward)
           (resultTimers st) (S (completions st)).

(** The effect on [[steps, phase]]: session steps and goal check. *)
Definition stepsEffect (rm : Remote) (snap st : Screen) : Screen :=
  match phase snap with
  | walking | quiz | result =>
      let current := Z.max 0 (steps snap - startSteps snap) in
      let st1 :=
        mkScreen (phase st) (steps st) current (startSteps st)
                 (quizList st) (currentQuizIdx st) (selectedChoice st)
                 (lastQuizCorrect st) (correctCount st) (walkGoal st)
                 current (landscapeItems st)
                 (resultTimers st) (completions st) in
      if (walkGoal snap <=? current) && negb (phase_eqb (phase snap) complete)
      then handleWalkComplete rm current snap st1
      else st1
  | _ => st
  end.

(** The effect on [[sessionSteps, phase, quizList]]: a quiz each 500
    session steps. *)
Definition quizEffect (snap st : Screen) : Screen :=
  if phase_eqb (phase snap) walking
     && (0 <? Z.of_nat (length (quizList snap)))
     && (0 <? sessionSteps snap)
     && (sessionSteps snap mod 500 =? 0)
  then
    let quizIdx := sessionSteps snap / 500 - 1 in
    let idx := Z.to_nat (quizIdx mod Z.of_nat (length (quizList snap))) in
    mkScreen quiz (steps st) (sessionSteps st) (startSteps st)
             (quizList st) idx None None (correctCount st) (walkGoal st)
             (walkSteps st) (landscapeItems st)
             (resultTimers st) (completions st)
  else st.

(** The effects of one commit on the render [cur]: [runSteps] and [runQuiz]
    tell which dependency lists changed.  Each effect reads the values of
    [cur]; the state updates of both are applied in call order, for the
    next render. *)
Definition runEffects (rm : Remote) (runSteps runQuiz : bool) (cur : Screen)
  : Screen :=
  let st1 := if runSteps then stepsEffect rm cur cur else cur in
  if runQuiz then quizEffect cur st1 else st1.

(** One commit: [prev] is the previous render, [cur] the one committed.
    An effect runs when one of its dependencies differs between the two.
    ([quizList] is replaced only by [handleStartWalk], together with
    [phase].) *)
Definition commit (rm : Remote) (prev cur : Screen) : Screen :=
  let phaseChanged := negb (phase_eqb (phase prev) (phase cur)) in
  runEffects rm
    (negb (steps prev =? steps cur) || phaseChanged)
    (negb (sessionSteps prev =? sessionSteps cur) || phaseChanged)
    cur.

(** Renders and commits, [n] times: a commit that changes no dependency
    runs no effect, and two commits settle every render. *)
Fixpoint settle (n : nat) (rm : Remote) (prev cur : Screen) : Screen :=
  match n with
  | O => cur
  | S n' => settle n' rm cur (commit rm prev cur)
  end.

(** The events of the screen. *)
Inductive Event :=
| SensorReading (reading : Z)       (* the pedometer hook updates [steps] *)
| StartWalk                         (* the start button, shown when idle *)
| SelectChoice (choice : string)    (* a choice button of the quiz card *)
| ResultTimeout                     (* a timer of [handleSelectChoice] *)
| EndWalk                           (* the end button, shown when walking *)
| BackToVillage.                    (* the button of the completion view *)

(** The state updates of the handler of an event, before the effects. *)
Definition handler (rm : Remote) (ev : Event) (s : Screen) : Screen :=
  match ev with
  | SensorReading reading =>
      mkScreen (phase s) reading (sessionSteps s) (startSteps s)
               (quizList s) (currentQuizIdx s) (selectedChoice s)
               (lastQuizCorrect s) (correctCount s) (walkGoal s)
               (walkSteps s) (landscapeItems s)
               (resultTimers s) (completions s)
  | StartWalk =>
      if phase_eqb (phase s) idle then
        mkScreen walking (steps s) 0 (steps s)
                 (match remoteQuiz rm with
                  | Some q => q :: MOCK_QUIZZES
                  | None => MOCK_QUIZZES
                  end)
                 (currentQuizIdx s) (selectedChoice s)
                 (lastQuizCorrect s) (correctCount s) (walkGoal s)
                 (walkSteps s) (landscapeItems s)
                 (resultTimers s) (completions s)
      else s
  | SelectChoice choice =>
      match phase s, selectedChoice s, quizList s !! currentQuizIdx s with
      | (quiz | result), None, Some q =>
          let correct := String.eqb choice (answer q) in
          mkScreen result (steps s) (sessionSteps s) (startSteps s)
                   (quizList s) (currentQuizIdx s) (Some choice)
                   (Some correct)
                   (if correct then correctCount s + 1 else correctCount s)
                   (walkGoal s) (walkSteps s) (landscapeItems s)
                   (S (resultTimers s)) (completions s)
      | _, _, _ => s
      end
  | ResultTimeout =>
      match resultTimers s with
      | O => s
      | S k =>
          mkScreen walking (steps s) (sessionSteps s) (startSteps s)
                   (quizList s) (currentQuizIdx s) None None
                   (correctCount s) (walkGoal s) (walkSteps s)
                   (landscapeItems s) k (completions s)
      end
  | EndWalk =>
      if phase_eqb (phase s) walking
      then handleWalkComplete rm (sessionSteps s) s s
      else s
  | BackToVillage =>
      if phase_eqb (phase s) complete then
        mkScreen idle (steps s) 0 (startSteps s)
                 (quizList s) (currentQuizIdx s) (selectedChoice s)
                 (lastQuizCorrect s) 0 (walkGoal s)
                 (walkSteps s) (landscapeItems s)
                 (resultTimers s) (completions s)
      else s
  end.

(** An event: its handler, then the commits it causes. *)
Definition step (rm : Remote) (s : Screen) (ev : Event) : Screen :=
  settle 6 rm s (handler rm ev s).

Definition run (rm : Remote) (s : Screen) (evs : list Event) : Screen :=
  fold_left (step rm) evs s.

End WalkScreen.

(* ===================================================================== *)
(** * app/(tabs)/cafe.tsx: the barista mini game on the game store        *)
(* ===================================================================== *)

Module CafeTab.

Record MenuItem := mkMenuItem {
  id : string;
  name : string;
  emoji : string
}.

Record Customer := mkCustomer {
  customer_name : string;
  customer_emoji : string;
  personality : string
}.

Record Round := mkRound {
  customer : Customer;
  correctItem : MenuItem;
  distractorText : string;
  allChoices : list MenuItem
}.

Inductive GamePhase :=
  ready | ordering | distracted | choosing | feedback | result.

Definition TOTAL_ROUNDS : nat := 3.

(** The [onDone] callback [speak] registers with an utterance.  [speak]
    passes no [onError] to [Speech.speak]. *)
Inductive OnDone :=
| AfterOrder (distractor : string)   (* of [startRound] *)
| AfterDistractor                    (* of [showDistractorOverlay] *)
| NoCallback.                        (* the feedback lines of [selectMenu] *)

(** What the [setTimeout] callback of [selectMenu] closes over. *)
Record FeedbackTimer := mkFeedbackTimer {
  timer_currentRound : nat;
  timer_rounds : list Round;
  timer_sessionCorrect : Z;
  timer_correct : bool
}.

(** The React state of the screen, the game store, the utterance the
    speech engine is playing and the pending feedback timer. *)
Record Screen := mkScreen {
  phase : GamePhase;
  currentRound : nat;
  rounds : list Round;
  selectedId : option string;
  sessionCorrect : Z;
  showDistractor : bool;
  isSpeakingRef : bool;
  utterance : option OnDone;
  feedbackTimer : option FeedbackTimer;
  store : GameStore.GameState
}.

Definition initialScreen : Screen :=
  mkScreen ready 0 [] None 0 false false None None GameStore.initialState.

(** [speak(text, onDone)]: stops what is playing and starts the utterance. *)
Definition speak (k : OnDone) (s : Screen) : Screen :=
  mkScreen (phase s) (currentRound s) (rounds s) (selectedId s)
           (sessionCorrect s) (showDistractor s) true (Some k)
           (feedbackTimer s) (store s).

Definition startRound (r : Round) (s : Screen) : Screen :=
  speak (AfterOrder (distractorText r))
    (mkScreen (phase s) (currentRound s) (rounds s) None
              (sessionCorrect s) false (isSpeakingRef s) (utterance s)
              (feedbackTimer s) (store s)).

Definition showDistractorOverlay (s : Screen) : Screen :=
  speak AfterDistractor
    (mkScreen (phase s) (currentRound s) (rounds s) (selectedId s)
              (sessionCorrect s) true (isSpeakingRef s) (utterance s)
              (feedbackTimer s) (store s)).

(** [startGame], the three generated rounds passed in. *)
Definition startGame (r0 r1 r2 : Round) (s : Screen) : Screen :=
  startRound r0
    (mkScreen ordering 0 [r0; r1; r2] None 0 (showDistractor s)
              (isSpeakingRef s) (utterance s) (feedbackTimer s)
              (GameStore.resetCafeSession (store s))).

(** The body of a registered [onDone] (after [isSpeakingRef] is cleared).
    The fade-out animation of the overlay is taken to finish at once. *)
Definition runOnDone (k : OnDone) (s : Screen) : Screen :=
  match k with
  | AfterOrder _ =>
      showDistractorOverlay
        (mkScreen distracted (currentRound s) (rounds s) (selectedId s)
                  (sessionCorrect s) (showDistractor s) (isSpeakingRef s)
                  (utterance s) (feedbackTimer s) (store s))
  | AfterDistractor =>
      mkScreen choosing (currentRound s) (rounds s) (selectedId s)
               (sessionCorrect s) false (isSpeakingRef s)
               (utterance s) (feedbackTimer s) (store s)
  | NoCallback => s
  end.

(** The speech engine reports the end of the utterance. *)
Definition ttsDone (s : Screen) : Screen :=
  match utterance s with
  | Some k =>
      runOnDone k
        (mkScreen (phase s) (currentRound s) (rounds s) (selectedId s)
                  (sessionCorrect s) (showDistractor s) false None
                  (feedbackTimer s) (store s))
  | None => s
  end.

(** The speech engine reports a failure: the utterance is over and no
    callback of the screen is registered for it. *)
Definition ttsError (s : Screen) : Screen :=
  mkScreen (phase s) (currentRound s) (rounds s) (selectedId s)
           (sessionCorrect s) (showDistractor s) (isSpeakingRef s) None
           (feedbackTimer s) (store s).

Definition phase_is_choosing (p : GamePhase) : bool :=
  match p with choosing => true | _ => false end.

Definition selectMenu (itemId : string) (s : Screen) : Screen :=
  match phase_is_choosing (phase s), selectedId s,
        rounds s !! currentRound s with
  | true, None, Some r =>
      let correct := String.eqb itemId (id (correctItem r)) in
      speak NoCallback
        (mkScreen feedback (currentRound s) (rounds s) (Some itemId)
                  (if correct then sessionCorrect s + 1
                   else sessionCorrect s)
                  (showDistractor s) (isSpeakingRef s) (utterance s)
                  (Some (mkFeedbackTimer (currentRound s) (rounds s)
                                         (sessionCorrect s) correct))
                  (if correct then GameStore.addCafeScore 10 (store s)
                   else store s))
  | _, _, _ => s
  end.

(** The timer of [selectMenu] fires. *)
Definition feedbackTimeout (s : Screen) : Screen :=
  match feedbackTimer s with
  | None => s
  | Some t =>
      let nextRound := S (timer_currentRound t) in
      if (nextRound <? TOTAL_ROUNDS)%nat then
        let s1 := mkScreen ordering nextRound (rounds s) (selectedId s)
                           (sessionCorrect s) (showDistractor s)
                           (isSpeakingRef s) (utterance s) None (store s) in
        match timer_rounds t !! nextRound with
        | Some r => startRound r s1
        | None => s1
        end
      else
        let exp := (timer_sessionCorrect t
                    + (if timer_correct t then 1 else 0)) * 10 in
        mkScreen result (currentRound s) (rounds s) (selectedId s)
                 (sessionCorrect s) (showDistractor s) (isSpeakingRef s)
                 None None (GameStore.addVillageExp exp (store s))
  end.

Inductive Event :=
| StartGame (r0 r1 r2 : Round)   (* the start button: ready and result *)
| TtsDone
| TtsError
| SelectMenu (itemId : string)
| FeedbackTimeout.

Definition step (s : Screen) (ev : Event) : Screen :=
  match ev with
  | StartGame r0 r1 r2 =>
      match phase s with
      | ready | result => startGame r0 r1 r2 s
      | _ => s
      end
  | TtsDone => ttsDone s
  | TtsError => ttsError s
  | SelectMenu itemId => selectMenu itemId s
  | FeedbackTimeout => feedbackTimeout s
  end.

Definition run (s : Screen) (evs : list Event) : Screen :=
  fold_left step evs s.

(** ** Round generation *)

Definition MENU_ITEMS : list MenuItem :=
  [ mkMenuItem "ice_americano" "아이스 아메리카노" "🧊☕";
    mkMenuItem "hot_americano" "따뜻한 아메리카노" "☕";
    mkMenuItem "cafe_latte" "카페라떼" "🥛☕";
    mkMenuItem "green_tea_latte" "녹차라떼" "🍵";
    mkMenuItem "strawberry_ade" "딸기에이드" "🍓🥤";
    mkMenuItem "lemon_ade" "레몬에이드" "🍋🥤";
    mkMenuItem "cappuccino" "카푸치노" "☕🫧";
    mkMenuItem "hot_chocolate" "핫초코" "🍫☕" ].

Definition CUSTOMERS : list Customer :=
  [ mkCustomer "솜이" "🐰" "수다스러운";
    mkCustomer "두부" "🐻" "느긋한";
    mkCustomer "당근이" "🐿️" "활발한";
    mkCustomer "복실이" "🐶" "친근한";
    mkCustomer "초코" "🐱" "도도한" ].

Definition DISTRACTOR_LINES : list string :=
  [ "오늘 날씨가 참 좋지 않나요?";
    "어제 텔레비전에서 재미있는 드라마 봤어요!";
    "요즘 꽃이 예쁘게 피었더라고요.";
    "이 카페 음악이 참 좋네요!";
    "손자가 이번 주에 놀러 온대요.";
    "요즘 건강하게 잘 지내고 계세요?";
    "아, 저도 뭔가 먹고 싶은데 고민이에요." ].

(** Code that calls [Math.random()]: the draws still to come are threaded
    through, oldest first.  The result is [None] where the draws run out,
    or where the JS reads an array past its end ([undefined]). *)
Definition Rand (A : Type) : Type := list Q -> option (A * list Q).

Definition Rand_ret {A : Type} (x : A) : Rand A := fun rs => Some (x, rs).

Definition Rand_bind {A B : Type} (m : Rand A) (f : A -> Rand B) : Rand B :=
  fun rs =>
    match m rs with
    | Some (x, rs') => f x rs'
    | None => None
    end.

Definition Math_random : Rand Q :=
  fun rs =>
    match rs with
    | [] => None
    | r :: rest => Some (r, rest)
    end.

Definition Rand_read {A : Type} (o : option A) : Rand A :=
  fun rs =>
    match o with
    | Some x => Some (x, rs)
    | None => None
    end.

(** The loop of [shuffle] from index [i] down to 1:
    [j = Math.floor(Math.random() * (i + 1)); [a[i], a[j]] = [a[j], a[i]]]. *)
Fixpoint shuffle_loop {A : Type} (i : nat) (a : list A) : Rand (list A) :=
  match i with
  | O => Rand_ret a
  | S i' =>
      Rand_bind Math_random (fun rnd =>
        let j := random_index rnd (S i) in
        Rand_bind (Rand_read (a !! i)) (fun ai =>
          Rand_bind (Rand_read (a !! j)) (fun aj =>
            shuffle_loop i' (<[j := ai]> (<[i := aj]> a)))))
  end.

Definition shuffle {A : Type} (arr : list A) : Rand (list A) :=
  shuffle_loop (length arr - 1) arr.

Definition pick {A : Type} (arr : list A) : Rand A :=
  Rand_bind Math_random (fun rnd =>
    Rand_read (arr !! random_index rnd (length arr))).

Definition generateRound : Rand Round :=
  Rand_bind (pick CUSTOMERS) (fun customer =>
    Rand_bind (pick MENU_ITEMS) (fun correctItem =>
      Rand_bind (pick DISTRACTOR_LINES) (fun distractorText =>
        Rand_bind
          (shuffle (filter (fun m => id m <> id correctItem) MENU_ITEMS))
          (fun shuffled =>
             let others := take 3 shuffled in
             Rand_bind (shuffle (correctItem :: others)) (fun allChoices =>
               Rand_ret (mkRound customer correctItem distractorText
                                 allChoices)))))).

End CafeTab.

(* ===================================================================== *)
(** * src/screens/CafeScreen.tsx: the playback part of the barista screen *)
(* ===================================================================== *)

Module CafeScreen.

Record MockSession := mkMockSession {
  sessionId : string;
  order : string;
  correctMenuId : string;
  distractor : string
}.

Inductive CafePhase :=
  idle | customer | ordering | distractor_phase | selecting
| feedback | complete.

(** The callbacks registered with an utterance: [handleListen] and
    [showDistractorDialog] pass both [onDone] and [onError]. *)
Inductive Callbacks := OfListen | OfDistractor.

(** Pending [setTimeout] callbacks. *)
Inductive Timer :=
| ShowDistractor     (* 800 ms after the order was read *)
| ToSelecting.       (* 500 ms after the distractor was read *)

Record Screen := mkScreen {
  phase : CafePhase;
  currentSession : option MockSession;
  showDistractor : bool;
  isSpeaking : bool;
  utterance : option Callbacks;
  timers : list Timer
}.

Definition handleListen (s : Screen) : Screen :=
  match currentSession s with
  | None => s
  | Some _ =>
      mkScreen ordering (currentSession s) (showDistractor s) true
               (Some OfListen) (timers s)
  end.

Definition showDistractorDialog (s : Screen) : Screen :=
  match currentSession s with
  | None => s
  | Some _ =>
      mkScreen distractor_phase (currentSession s) true (isSpeaking s)
               (Some OfDistractor) (timers s)
  end.

Definition setPhase (p : CafePhase) (s : Screen) : Screen :=
  mkScreen p (currentSession s) (showDistractor s) (isSpeaking s)
           (utterance s) (timers s).

Definition addTimer (t : Timer) (s : Screen) : Screen :=
  mkScreen (phase s) (currentSession s) (showDistractor s) (isSpeaking s)
           (utterance s) (timers s ++ [t]).

Definition endUtterance (s : Screen) : Screen :=
  mkScreen (phase s) (currentSession s) (showDistractor s) (isSpeaking s)
           None (timers s).

Definition setIsSpeaking (b : bool) (s : Screen) : Screen :=
  mkScreen (phase s) (currentSession s) (showDistractor s) b
           (utterance s) (timers s).

Definition onDone (s : Screen) : Screen :=
  match utterance s with
  | Some OfListen =>
      addTimer ShowDistractor (setIsSpeaking false (endUtterance s))
  | Some OfDistractor => addTimer ToSelecting (endUtterance s)
  | None => s
  end.

Definition onError (s : Screen) : Screen :=
  match utterance s with
  | Some OfListen =>
      showDistractorDialog (setIsSpeaking false (endUtterance s))
  | Some OfDistractor => setPhase selecting (endUtterance s)
  | None => s
  end.

(** The oldest pending timer fires. *)
Definition timerFired (s : Screen) : Screen :=
  match timers s with
  | [] => s
  | t :: rest =>
      let s1 := mkScreen (phase s) (currentSession s) (showDistractor s)
                         (isSpeaking s) (utterance s) rest in
      match t with
      | ShowDistractor => showDistractorDialog s1
      | ToSelecting => setPhase selecting s1
      end
  end.

End CafeScreen.

(* ===================================================================== *)
(** * app/(tabs)/village.tsx: values the village tab derives              *)
(* ===================================================================== *)

Module VillageTab.

Record BuildingInfo := mkBuildingInfo {
  id : string;
  emoji : string;
  name : string;
  unlockLevel : Z
}.

Definition DEFAULT_BUILDINGS : list BuildingInfo :=
  [ mkBuildingInfo "town_hall" "🏛️" "마을회관" 1;
    mkBuildingInfo "cafe" "☕" "카페" 2;
    mkBuildingInfo "farm" "🌾" "농장" 3;
    mkBuildingInfo "garden" "🌸" "정원" 4;
    mkBuildingInfo "fountain" "⛲" "분수" 5 ].

(** The [thresholds] table of the [levelExpMax] memo. *)
Definition thresholds : gmap Z Z :=
  list_to_map
    [ (1, 100); (2, 250); (3, 500); (4, 900); (5, 1500);
      (6, 2400); (7, 3700); (8, 5500); (9, 8000); (10, 9999) ].

(** [thresholds[villageLevel] ?? 100] *)
Definition levelExpMax (villageLevel : Z) : Z :=
  default 100 (thresholds !! villageLevel).

(** [DEFAULT_BUILDINGS.filter((b) => b.unlockLevel <= villageLevel)] *)
Definition unlockedBuildings (villageLevel : Z) : list BuildingInfo :=
  filter (fun b => unlockLevel b <= villageLevel) DEFAULT_BUILDINGS.

(** The fill ratio of [ExpBar]: [Math.min(current / max, 1)]. *)
Definition expBarRatio (current max : Z) : Q :=
  Qmin (inject_Z current / inject_Z max) 1.

End VillageTab.

(* ===================================================================== *)
(** * app/(tabs)/diet.tsx: the diet camera tab                            *)
(* ===================================================================== *)

Module DietTab.

Record AnalysisResult := mkAnalysisResult {
  mindScore : Q;
  detectedFoods : list string;
  fertilizer : Z;
  feedback : string
}.

Inductive ScreenPhase := camera | capturing | analyzing | result.

(** The meals [mockAnalyzeImage] chooses from. *)
Definition allFoods : list (list string) :=
  [ ["시금치"; "연어"; "두부"; "현미"];
    ["브로콜리"; "고등어"; "호두"; "두부"];
    ["케일"; "닭가슴살"; "블루베리"; "아몬드"];
    ["상추"; "참치"; "청국장"; "현미"];
    ["시금치"; "호두"; "딸기"; "올리브오일"];
    ["배추"; "연어"; "견과류"];
    ["라면"; "과자"] ].

(** [mockAnalyzeImage], [rnd] the draw of [Math.random()]. *)
Definition mockAnalyzeImage (rnd : Q) : option (list string) :=
  allFoods !! random_index rnd (length allFoods).

(** The React state of the screen ([analysis] is the state [result]), the
    game store, and the number of error dialogs shown. *)
Record Screen := mkScreen {
  phase : ScreenPhase;
  analysis : option AnalysisResult;
  capturedUri : option string;
  store : GameStore.GameState;
  alerts : nat
}.

Definition phase_is_camera (p : ScreenPhase) : bool :=
  match p with camera => true | _ => false end.

(** [takePicture].  [cameraReady] is [cameraRef.current] being set, [photo]
    what [takePictureAsync] resolves to ([None]: no photo, which throws).
    Whatever throws inside is caught: the phase goes back to camera and the
    error dialog is shown.  The result is [None] where the score is [NaN],
    which the store record of this development does not hold. *)
Definition takePicture (inherited : string -> bool) (cameraReady : bool)
    (photo : option string) (rnd : Q) (s : Screen) : option Screen :=
  if negb cameraReady || negb (phase_is_camera (phase s)) then Some s
  else
    match photo with
    | None =>
        Some (mkScreen camera (analysis s) (capturedUri s) (store s)
                       (S (alerts s)))
    | Some uri =>
        match mockAnalyzeImage rnd with
        | None =>
            Some (mkScreen camera (analysis s) (Some uri) (store s)
                           (S (alerts s)))
        | Some foods =>
            score ← HealthService.calcMindScore inherited foods;
            let fertilizerGain := HealthService.calcFertilizer score in
            Some (mkScreen result
                    (Some (mkAnalysisResult score foods fertilizerGain
                             (HealthService.getMindFeedback score)))
                    (Some uri)
                    (GameStore.addFertilizer fertilizerGain
                       (GameStore.setDietScore score foods (store s)))
                    (alerts s))
        end
    end.

Definition retake (s : Screen) : Screen :=
  mkScreen camera None None (store s) (alerts s).

End DietTab.

(* ===================================================================== *)
(** * The level engine                                                    *)
(* ===================================================================== *)

(** Case analysis on the comparisons [_ <? x] of a goal, outermost first;
    branches with contradictory bounds are closed on the way. *)
Ltac split_ltb x :=
  repeat match goal with
         | |- context [x <? ?a] =>
             destruct (Z.ltb_spec x a); cbv iota; try lia
         end;
  try lia.

Section LevelEngine.
Import GameStore.

(** The entries the loop reads: keys 0 to 9 (key 0 is absent, key 10 is
    never read). *)
Lemma thresholds_read :
  LEVEL_EXP_THRESHOLDS !! 0 = None
  /\ LEVEL_EXP_THRESHOLDS !! 1 = Some (Fin 100)
  /\ LEVEL_EXP_THRESHOLDS !! 2 = Some (Fin 250)
  /\ LEVEL_EXP_THRESHOLDS !! 3 = Some (Fin 500)
  /\ LEVEL_EXP_THRESHOLDS !! 4 = Some (Fin 900)
  /\ LEVEL_EXP_THRESHOLDS !! 5 = Some (Fin 1500)
  /\ LEVEL_EXP_THRESHOLDS !! 6 = Some (Fin 2400)
  /\ LEVEL_EXP_THRESHOLDS !! 7 = Some (Fin 3700)
  /\ LEVEL_EXP_THRESHOLDS !! 8 = Some (Fin 5500)
  /\ LEVEL_EXP_THRESHOLDS !! 9 = Some (Fin 8000).
Proof. vm_compute. repeat split. Qed.

(** The loop with its table lookups resolved: the level is the number of
    finite thresholds at or below [exp], counted from level 1. *)
Lemma calcVillageLevel_unfold exp :
  calcVillageLevel exp =
    if exp <? 0 then 1 else if exp <? 100 then 1
    else if exp <? 250 then 2 else if exp <? 500 then 3
    else if exp <? 900 then 4 else if exp <? 1500 then 5
    else if exp <? 2400 then 6 else if exp <? 3700 then 7
    else if exp <? 5500 then 8 else if exp <? 8000 then 9 else 10.
Proof.
  destruct thresholds_read as (E0 & E1 & E2 & E3 & E4 & E5 & E6 & E7 & E8 & E9).
  unfold calcVillageLevel, level_loop.
  change (1 - 1) with 0; change (2 - 1) with 1; change (3 - 1) with 2;
    change (4 - 1) with 3; change (5 - 1) with 4; change (6 - 1) with 5;
    change (7 - 1) with 6; change (8 - 1) with 7; change (9 - 1) with 8;
    change (10 - 1) with 9.
  rewrite E0, E1, E2, E3, E4, E5, E6, E7, E8, E9.
  cbn [from_option id reaches].
  repeat match goal with
         | |- context [?a <=? exp] =>
             destruct (Z.leb_spec a exp); cbv iota
         end;
    split_ltb exp.
Qed.

Lemma calcVillageLevel_range exp : 1 <= calcVillageLevel exp <= 10.
Proof. rewrite calcVillageLevel_unfold. split_ltb exp. Qed.

Lemma calcVillageLevel_mono e1 e2 :
  e1 <= e2 -> calcVillageLevel e1 <= calcVillageLevel e2.
Proof.
  intros Hle. rewrite !calcVillageLevel_unfold.
  split_ltb e1; split_ltb e2.
Qed.

Lemma dispatch_level_fresh s a : level_fresh s -> level_fresh (dispatch s a).
Proof.
  unfold level_fresh. intros H.
  destruct a; simpl; try exact H; try reflexivity.
  unfold unlockBuilding. destruct (hasBuilding b s); simpl; exact H.
Qed.

Lemma run_level_fresh acts : forall s, level_fresh s -> level_fresh (run s acts).
Proof.
  unfold run. induction acts as [| a acts IH]; intros s H; simpl.
  - exact H.
  - apply IH, dispatch_level_fresh, H.
Qed.

Lemma dispatch_resources_ok s a :
  amount_ok a -> resources_ok s -> resources_ok (dispatch s a).
Proof.
  unfold resources_ok. intros Ha [Hf Hl].
  destruct a; simpl in *; try (split; assumption); try (split; lia).
  unfold unlockBuilding. destruct (hasBuilding b s); simpl; split; assumption.
Qed.

Lemma run_resources_ok acts :
  forall s, Forall amount_ok acts -> resources_ok s -> resources_ok (run s acts).
Proof.
  unfold run. induction acts as [| a acts IH]; intros s Hall Hs; simpl.
  - exact Hs.
  - inversion Hall; subst. apply IH; [assumption |].
    apply dispatch_resources_ok; assumption.
Qed.

End LevelEngine.

(** C3.  The level engine is monotone and bounded: for all experience values
    [e1 <= e2] the level of [e1] is at most the level of [e2]; experience 0
    is level 1; and no experience gives a level above 10. *)
Theorem level_monotone_bounded :
  (forall e1 e2, e1 <= e2 ->
     GameStore.calcVillageLevel e1 <= GameStore.calcVillageLevel e2)
  /\ GameStore.calcVillageLevel 0 = 1
  /\ (forall x, GameStore.calcVillageLevel x <= 10).
Proof.
  split; [| split].
  - apply calcVillageLevel_mono.
  - vm_compute. reflexivity.
  - intros x. apply calcVillageLevel_range.
Qed.

Lemma level_monotone_bounded_witness :
  GameStore.calcVillageLevel 99 <= GameStore.calcVillageLevel 8000.
Proof.
  apply (proj1 level_monotone_bounded 99 8000). lia.
Defined.

(** C4.  After every sequence of ledger operations applied to the initial
    state, the stored village level is the level engine's value at the
    stored experience. *)
Theorem villageLevel_never_stale :
  forall acts : list GameStore.Action,
    GameStore.villageLevel (GameStore.run GameStore.initialState acts)
    = GameStore.calcVillageLevel
        (GameStore.villageExp (GameStore.run GameStore.initialState acts)).
Proof.
  intros acts. apply run_level_fresh. reflexivity.
Qed.

(** C8.  Resource counters never go negative: after every sequence of ledger
    operations with non-negative amounts from the initial state, fertilizer
    and landscape items are at least 0; spending is total and clamps at 0,
    and from 2 units of fertilizer spending 5 leaves 0. *)
Theorem resources_never_negative :
  (forall acts : list GameStore.Action,
     Forall GameStore.amount_ok acts ->
     0 <= GameStore.fertilizer (GameStore.run GameStore.initialState acts)
     /\ 0 <= GameStore.landscapeItems
               (GameStore.run GameStore.initialState acts))
  /\ (forall s amount,
        GameStore.fertilizer (GameStore.useFertilizer amount s)
        = Z.max 0 (GameStore.fertilizer s - amount))
  /\ (forall s, GameStore.fertilizer s = 2 ->
        GameStore.fertilizer (GameStore.useFertilizer 5 s) = 0).
Proof.
  split; [| split].
  - intros acts Hall. apply run_resources_ok; [exact Hall |].
    split; simpl; lia.
  - reflexivity.
  - intros s H. simpl. rewrite H. reflexivity.
Qed.

Lemma resources_never_negative_witness :
  0 <= GameStore.fertilizer
         (GameStore.run GameStore.initialState
            [GameStore.AddFertilizer 2; GameStore.UseFertilizer 5;
             GameStore.AddLandscapeItems 1; GameStore.ResetDailyStats])
  /\ 0 <= GameStore.landscapeItems
            (GameStore.run GameStore.initialState
               [GameStore.AddFertilizer 2; GameStore.UseFertilizer 5;
                GameStore.AddLandscapeItems 1; GameStore.ResetDailyStats]).
Proof.
  apply (proj1 resources_never_negative).
  repeat constructor; simpl; lia.
Defined.

(** C10.  The daily reset is scoped to the daily statistics: it puts steps,
    quiz history, diet score, analysed foods, cafe score and cafe streak back
    to their initial values and leaves village experience and level,
    fertilizer, landscape items, residents, buildings, streak days and the
    walk goal as they were. *)
Theorem resetDailyStats_frame :
  forall s : GameStore.GameState,
    let s' := GameStore.resetDailyStats s in
    (GameStore.steps s' = 0
     /\ GameStore.quizHistory s' = []
     /\ GameStore.dietScore s' = 0%Q
     /\ GameStore.lastAnalyzedFoods s' = []
     /\ GameStore.cafeScore s' = 0
     /\ GameStore.cafeStreak s' = 0)
    /\ (GameStore.villageExp s' = GameStore.villageExp s
        /\ GameStore.villageLevel s' = GameStore.villageLevel s
        /\ GameStore.fertilizer s' = GameStore.fertilizer s
        /\ GameStore.landscapeItems s' = GameStore.landscapeItems s
        /\ GameStore.residents s' = GameStore.residents s
        /\ GameStore.buildings s' = GameStore.buildings s
        /\ GameStore.streakDays s' = GameStore.streakDays s
        /\ GameStore.walkGoal s' = GameStore.walkGoal s).
Proof.
  intros s. simpl. repeat split.
Qed.

(* ===================================================================== *)
(** * Binary64 arithmetic                                                 *)
(* ===================================================================== *)

Section Rounding.
Import JS.

Lemma rne_bounds x : Qfloor x <= rne x <= Qfloor x + 1.
Proof.
  unfold rne. destruct (Qcompare _ _); [destruct (Z.even _) | |]; lia.
Qed.

Lemma rne_mono x y : (x <= y)%Q -> rne x <= rne y.
Proof.
  intros Hxy. pose proof (Qfloor_resp_le x y Hxy) as Hf.
  destruct (Z.eq_dec (Qfloor x) (Qfloor y)) as [E | N].
  - unfold rne. rewrite <- E.
    destruct (Qcompare_spec (x - inject_Z (Qfloor x)) (1 # 2));
      destruct (Qcompare_spec (y - inject_Z (Qfloor x)) (1 # 2));
      try (exfalso; lra); destruct (Z.even (Qfloor x)); lia.
  - pose proof (rne_bounds x). pose proof (rne_bounds y). lia.
Qed.

Lemma rne_Z z : rne (inject_Z z) = z.
Proof.
  unfold rne. rewrite Qfloor_Z.
  destruct (Qcompare_spec (inject_Z z - inject_Z z) (1 # 2));
    [exfalso; lra | reflexivity | exfalso; lra].
Qed.

Lemma rne_near x :
  (x - (1 # 2) <= inject_Z (rne x))%Q /\ (inject_Z (rne x) <= x + (1 # 2))%Q.
Proof.
  pose proof (Qfloor_le x) as Hlo. pose proof (Qlt_floor x) as Hhi.
  rewrite inject_Z_plus in Hhi. change (inject_Z 1) with 1%Q in Hhi.
  unfold rne.
  destruct (Qcompare_spec (x - inject_Z (Qfloor x)) (1 # 2));
    [destruct (Z.even (Qfloor x)) | |];
    rewrite ?inject_Z_plus; change (inject_Z 1) with 1%Q; split; lra.
Qed.

Lemma pow2_pos e : (0 < 2 ^ e)%Q.
Proof. apply Qpower_0_lt. reflexivity. Qed.

Lemma pow2_plus a b : (2 ^ (a + b) == 2 ^ a * 2 ^ b)%Q.
Proof. apply Qpower_plus. discriminate. Qed.

Lemma pow2_le a b : a <= b -> (2 ^ a <= 2 ^ b)%Q.
Proof. intros H. apply Qpower_le_compat_l; [exact H | discriminate]. Qed.

Lemma pow2_Z k : 0 <= k -> (inject_Z (2 ^ k) == 2 ^ k)%Q.
Proof. intros H. rewrite (Zpower_Qpower 2 k H). reflexivity. Qed.

(** [ilog2 x] is the integer part of the binary logarithm of a positive x. *)
Lemma ilog2_spec x :
  (0 < x)%Q -> (2 ^ ilog2 x <= x)%Q /\ (x < 2 ^ (ilog2 x + 1))%Q.
Proof.
  intros Hx. destruct x as [n d].
  assert (Hn : 0 < n) by (unfold Qlt in Hx; cbn in Hx; lia).
  unfold ilog2. cbn [Qnum Qden].
  set (a := Z.log2 n). set (b := Z.log2 (Z.pos d)).
  destruct (Z.log2_spec n Hn) as [Ha1 Ha2]. fold a in Ha1, Ha2.
  destruct (Z.log2_spec (Z.pos d) ltac:(lia)) as [Hb1 Hb2]. fold b in Hb1, Hb2.
  assert (Ha0 : 0 <= a) by apply Z.log2_nonneg.
  assert (Hb0 : 0 <= b) by apply Z.log2_nonneg.
  assert (Hlow : (2 ^ (a - b - 1) <= n # d)%Q).
  { replace (a - b - 1) with (a - (b + 1)) by lia.
    rewrite Qpower_minus by discriminate.
    rewrite <- (pow2_Z a), <- (pow2_Z (b + 1)) by lia.
    rewrite (Qmake_Qdiv n d).
    apply Qle_shift_div_l.
    { change 0%Q with (inject_Z 0). rewrite <- Zlt_Qlt. lia. }
    unfold Qdiv. rewrite <- Qmult_assoc, (Qmult_comm (/ _)), Qmult_assoc.
    apply Qle_shift_div_r.
    { change 0%Q with (inject_Z 0). rewrite <- Zlt_Qlt. lia. }
    rewrite <- !inject_Z_mult. rewrite <- Zle_Qle. nia. }
  assert (Hhigh : (n # d < 2 ^ (a - b + 1))%Q).
  { replace (a - b + 1) with ((a + 1) - b) by lia.
    rewrite Qpower_minus by discriminate.
    rewrite <- (pow2_Z (a + 1)), <- (pow2_Z b) by lia.
    rewrite (Qmake_Qdiv n d).
    apply Qlt_shift_div_l.
    { change 0%Q with (inject_Z 0). rewrite <- Zlt_Qlt. lia. }
    unfold Qdiv. rewrite <- Qmult_assoc, (Qmult_comm (/ _)), Qmult_assoc.
    apply Qlt_shift_div_r.
    { change 0%Q with (inject_Z 0). rewrite <- Zlt_Qlt. lia. }
    rewrite <- !inject_Z_mult. rewrite <- Zlt_Qlt. nia. }
  destruct (Qle_bool (2 ^ (a - b)) (n # d)) eqn:E.
  - apply Qle_bool_iff in E. split; [exact E | exact Hhigh].
  - split.
    + exact Hlow.
    + replace (a - b - 1 + 1) with (a - b) by lia.
      apply Qnot_le_lt. intros H. apply Qle_bool_iff in H. congruence.
Qed.

Lemma expo_spec x :
  (0 < x)%Q ->
  -1074 <= expo x
  /\ (x < 2 ^ (expo x + 53))%Q
  /\ (expo x = -1074 \/ (2 ^ (expo x + 52) <= x)%Q).
Proof.
  intros Hx.
  assert (Ha : (Qabs x == x)%Q) by (apply Qabs_pos; lra).
  assert (Hpos : (0 < Qabs x)%Q) by (rewrite Ha; exact Hx).
  destruct (ilog2_spec (Qabs x) Hpos) as [H1 H2].
  unfold expo. set (l := ilog2 (Qabs x)) in *.
  split; [lia |]. split.
  - rewrite <- Ha. eapply Qlt_le_trans; [exact H2 |]. apply pow2_le. lia.
  - destruct (Z.max_spec (l - 52) (-1074)) as [[_ E] | [_ E]]; rewrite E.
    + left. reflexivity.
    + right. replace (l - 52 + 52) with l by lia. rewrite <- Ha. exact H1.
Qed.

Lemma fl_pos_unfold x :
  (0 < x)%Q -> (fl x == inject_Z (rne (x / 2 ^ expo x)) * 2 ^ expo x)%Q.
Proof.
  intros Hx. unfold fl.
  destruct (Qeq_bool x 0) eqn:E; [| apply Qred_correct].
  apply Qeq_bool_iff in E. exfalso. lra.
Qed.

Lemma fl_zero x : (x == 0)%Q -> fl x = 0%Q.
Proof.
  intros Hx. unfold fl. apply Qeq_bool_iff in Hx. rewrite Hx. reflexivity.
Qed.

Lemma scaled_le x y e : (x <= y)%Q -> (x / 2 ^ e <= y / 2 ^ e)%Q.
Proof.
  intros H. unfold Qdiv. apply Qmult_le_compat_r; [exact H |].
  apply Qlt_le_weak. apply Qinv_lt_0_compat. apply pow2_pos.
Qed.

Lemma fl_pos_nonneg x : (0 < x)%Q -> (0 <= fl x)%Q.
Proof.
  intros Hx. rewrite (fl_pos_unfold x Hx).
  apply Qmult_le_0_compat; [| apply Qlt_le_weak, pow2_pos].
  change 0%Q with (inject_Z 0). rewrite <- Zle_Qle.
  rewrite <- (rne_Z 0). apply rne_mono.
  apply Qle_shift_div_l; [apply pow2_pos |]. change (inject_Z 0) with 0%Q. lra.
Qed.

Lemma fl_nonneg x : (0 <= x)%Q -> (0 <= fl x)%Q.
Proof.
  intros Hx. destruct (Qle_lt_or_eq _ _ Hx) as [H | H].
  - apply fl_pos_nonneg. exact H.
  - rewrite (fl_zero x); [lra | symmetry; exact H].
Qed.

Lemma fl_mono_pos x y : (0 < x)%Q -> (x <= y)%Q -> (fl x <= fl y)%Q.
Proof.
  intros Hx Hxy. assert (Hy : (0 < y)%Q) by lra.
  rewrite (fl_pos_unfold x Hx), (fl_pos_unfold y Hy).
  destruct (expo_spec x Hx) as (Hx0 & Hx1 & Hx2).
  destruct (expo_spec y Hy) as (Hy0 & Hy1 & Hy2).
  set (ex := expo x) in *. set (ey := expo y) in *.
  destruct (Z.lt_trichotomy ex ey) as [Hlt | [Heq | Hgt]].
  - (* the exponent of y is larger *)
    assert (H53 : rne (x / 2 ^ ex) <= 2 ^ 53).
    { rewrite <- (rne_Z (2 ^ 53)). apply rne_mono.
      apply Qle_shift_div_r; [apply pow2_pos |].
      rewrite (pow2_Z 53) by lia. rewrite <- pow2_plus.
      rewrite Z.add_comm. apply Qlt_le_weak. exact Hx1. }
    assert (H52 : 2 ^ 52 <= rne (y / 2 ^ ey)).
    { rewrite <- (rne_Z (2 ^ 52)). apply rne_mono.
      apply Qle_shift_div_l; [apply pow2_pos |].
      rewrite (pow2_Z 52) by lia. rewrite <- pow2_plus.
      rewrite Z.add_comm. destruct Hy2 as [E | H]; [lia | exact H]. }
    apply Qle_trans with (inject_Z (2 ^ 53) * 2 ^ ex)%Q.
    { apply Qmult_le_compat_r; [| apply Qlt_le_weak, pow2_pos].
      rewrite <- Zle_Qle. exact H53. }
    apply Qle_trans with (inject_Z (2 ^ 52) * 2 ^ ey)%Q.
    { rewrite (pow2_Z 53), (pow2_Z 52) by lia. rewrite <- !pow2_plus.
      apply pow2_le. lia. }
    apply Qmult_le_compat_r; [| apply Qlt_le_weak, pow2_pos].
    rewrite <- Zle_Qle. exact H52.
  - rewrite <- Heq.
    apply Qmult_le_compat_r; [| apply Qlt_le_weak, pow2_pos].
    rewrite <- Zle_Qle. apply rne_mono. apply scaled_le. exact Hxy.
  - exfalso. destruct Hx2 as [E | H]; [lia |].
    assert (Hc : (2 ^ (ey + 53) <= 2 ^ (ex + 52))%Q) by (apply pow2_le; lia).
    lra.
Qed.

Lemma fl_mono x y : (0 <= x)%Q -> (x <= y)%Q -> (fl x <= fl y)%Q.
Proof.
  intros Hx Hxy. destruct (Qle_lt_or_eq _ _ Hx) as [H | H].
  - apply fl_mono_pos; assumption.
  - rewrite (fl_zero x) by (symmetry; exact H). apply fl_nonneg. lra.
Qed.

(** The rounding error is at most half a unit in the last place. *)
Lemma fl_near x :
  (0 < x)%Q ->
  (x - 2 ^ expo x * (1 # 2) <= fl x)%Q /\ (fl x <= x + 2 ^ expo x * (1 # 2))%Q.
Proof.
  intros Hx. rewrite (fl_pos_unfold x Hx).
  pose proof (pow2_pos (expo x)) as Hp.
  destruct (rne_near (x / 2 ^ expo x)) as [H1 H2].
  assert (E : (x == x / 2 ^ expo x * 2 ^ expo x)%Q).
  { field. intros H. rewrite H in Hp. discriminate. }
  set (p := (2 ^ expo x)%Q) in *. set (q := (x / p)%Q) in *.
  set (r := inject_Z (rne q)) in *.
  assert (A1 : ((q - (1 # 2)) * p <= r * p)%Q)
    by (apply Qmult_le_compat_r; lra).
  assert (A2 : (r * p <= (q + (1 # 2)) * p)%Q)
    by (apply Qmult_le_compat_r; lra).
  split; lra.
Qed.

End Rounding.

Section Numbers.
Import JS.

Lemma huge_pos : (0 < 2 ^ 1024)%Q.
Proof. apply pow2_pos. Qed.

Lemma round_cases x :
  (0 <= x)%Q ->
  (round x = Num (fl x) /\ (fl x < 2 ^ 1024)%Q)
  \/ (round x = PosInf /\ (2 ^ 1024 <= fl x)%Q).
Proof.
  intros Hx. pose proof (fl_nonneg x Hx) as H0. pose proof huge_pos as Hh.
  unfold round.
  destruct (Qle_bool (2 ^ 1024) (fl x)) eqn:E1.
  - right. apply Qle_bool_iff in E1. split; [reflexivity | exact E1].
  - left.
    assert (Hlt : (fl x < 2 ^ 1024)%Q).
    { apply Qnot_le_lt. intros H. apply Qle_bool_iff in H. congruence. }
    destruct (Qle_bool (fl x) (- 2 ^ 1024)) eqn:E2.
    + apply Qle_bool_iff in E2. exfalso. lra.
    + split; [reflexivity | exact Hlt].
Qed.

Lemma round_mono x y :
  (0 <= x)%Q -> (x <= y)%Q -> nle (round x) (round y).
Proof.
  intros Hx Hxy. pose proof (fl_mono x y Hx Hxy) as Hm.
  destruct (round_cases x Hx) as [[-> Hx1] | [-> Hx1]];
    destruct (round_cases y ltac:(lra)) as [[-> Hy1] | [-> Hy1]];
    cbn [nle]; try exact I; try exact Hm.
  lra.
Qed.

Lemma round_nonneg x : (0 <= x)%Q -> nle (Num 0) (round x).
Proof.
  intros Hx. pose proof (fl_nonneg x Hx) as H0.
  destruct (round_cases x Hx) as [[-> _] | [-> _]]; cbn [nle];
    [exact H0 | exact I].
Qed.

(** A value bounded by a small integer that is a binary64 number. *)
Lemma round_bounded x (k : Z) :
  (0 <= x)%Q -> (x <= inject_Z k)%Q ->
  (fl (inject_Z k) <= inject_Z k)%Q -> (inject_Z k < 2 ^ 1024)%Q ->
  round x = Num (fl x) /\ (0 <= fl x)%Q /\ (fl x <= inject_Z k)%Q.
Proof.
  intros Hx Hk Hfl Hsmall.
  pose proof (fl_mono x (inject_Z k) Hx Hk) as Hm.
  pose proof (fl_nonneg x Hx) as H0.
  destruct (round_cases x Hx) as [[E _] | [_ Hbig]].
  - split; [exact E |]. split; [exact H0 | lra].
  - exfalso. lra.
Qed.

Lemma nle_refl a : nle (Num 0) a -> nle a a.
Proof. destruct a; cbn [nle]; intros H; try exact H; try exact I. lra. Qed.

Lemma nle_trans a b c : nle a b -> nle b c -> nle a c.
Proof.
  destruct a, b, c; cbn [nle]; intros H1 H2;
    try exact I; try contradiction. lra.
Qed.

Lemma div_mono x x' y :
  (0 <= x)%Q -> (x <= x')%Q -> (0 < y)%Q ->
  nle (Num 0) (div (Num x) (Num y))
  /\ nle (div (Num x) (Num y)) (div (Num x') (Num y)).
Proof.
  intros Hx Hxx Hy. unfold div.
  assert (E : Qeq_bool y 0 = false).
  { destruct (Qeq_bool y 0) eqn:E; [| reflexivity].
    apply Qeq_bool_iff in E. exfalso. lra. }
  rewrite E.
  assert (H0 : (0 <= x / y)%Q).
  { apply Qle_shift_div_l; [exact Hy | lra]. }
  assert (H1 : (x / y <= x' / y)%Q).
  { unfold Qdiv. apply Qmult_le_compat_r; [exact Hxx |].
    apply Qlt_le_weak, Qinv_lt_0_compat, Hy. }
  split; [apply round_nonneg; exact H0 | apply round_mono; assumption].
Qed.

Lemma mul_mono a a' c :
  nle (Num 0) a -> nle a a' -> (0 < c)%Q ->
  nle (Num 0) (mul a (Num c)) /\ nle (mul a (Num c)) (mul a' (Num c)).
Proof.
  intros H0 Haa Hc.
  assert (Hinf : mul_inf false c = PosInf).
  { unfold mul_inf. destruct (Qcompare_spec c 0); [exfalso; lra | exfalso; lra | reflexivity]. }
  destruct a as [x | | |]; cbn [nle] in H0; try contradiction;
    destruct a' as [x' | | |]; cbn [nle] in Haa; try contradiction;
    cbn [mul]; rewrite ?Hinf.
  - assert (A0 : (0 <= x * c)%Q) by (apply Qmult_le_0_compat; lra).
    assert (A1 : (x * c <= x' * c)%Q) by (apply Qmult_le_compat_r; lra).
    split; [apply round_nonneg; exact A0 | apply round_mono; assumption].
  - assert (A0 : (0 <= x * c)%Q) by (apply Qmult_le_0_compat; lra).
    split; [apply round_nonneg; exact A0 |].
    destruct (round_cases (x * c) A0) as [[-> _] | [-> _]]; exact I.
  - split; exact I.
Qed.

Lemma num_round_mono a a' :
  nle (Num 0) a -> nle a a' ->
  nle (Num 0) (JS.Math_round a) /\ nle (JS.Math_round a) (JS.Math_round a').
Proof.
  intros H0 Haa.
  destruct a as [x | | |]; cbn [nle] in H0; try contradiction;
    destruct a' as [x' | | |]; cbn [nle] in Haa; try contradiction;
    cbn [JS.Math_round nle]; try (split; exact I).
  - split.
    + change 0%Q with (inject_Z 0). rewrite <- Zle_Qle.
      rewrite <- (Qfloor_Z 0). apply Qfloor_resp_le.
      change (inject_Z 0) with 0%Q. lra.
    + rewrite <- Zle_Qle. apply Qfloor_resp_le. lra.
  - split; [| exact I].
    change 0%Q with (inject_Z 0). rewrite <- Zle_Qle.
    rewrite <- (Qfloor_Z 0). apply Qfloor_resp_le.
    change (inject_Z 0) with 0%Q. lra.
Qed.

(** [Math.min] with a number that is not negative caps at it. *)
Lemma min_cap a a' k :
  nle (Num 0) a -> nle a a' -> (0 <= k)%Q ->
  exists q q',
    min a (Num k) = Num q /\ min a' (Num k) = Num q'
    /\ (0 <= q)%Q /\ (q <= q')%Q /\ (q' <= k)%Q
    /\ (nle (Num k) a -> (k <= q)%Q).
Proof.
  intros H0 Haa Hk.
  destruct a as [x | | |]; cbn [nle] in H0; try contradiction;
    destruct a' as [x' | | |]; cbn [nle] in Haa; try contradiction;
    cbn [min nle].
  - destruct (Qle_bool x k) eqn:E; destruct (Qle_bool x' k) eqn:E';
      try (apply Qle_bool_iff in E); try (apply Qle_bool_iff in E');
      try (assert (F : ~ (x <= k)%Q)
             by (intros H; apply Qle_bool_iff in H; congruence));
      try (assert (F' : ~ (x' <= k)%Q)
             by (intros H; apply Qle_bool_iff in H; congruence));
      eexists; eexists; (split; [reflexivity |]); (split; [reflexivity |]);
      repeat split; try lra; intros Hlow; lra.
  - destruct (Qle_bool x k) eqn:E;
      try (apply Qle_bool_iff in E);
      try (assert (F : ~ (x <= k)%Q)
             by (intros H; apply Qle_bool_iff in H; congruence));
      eexists; eexists; (split; [reflexivity |]); (split; [reflexivity |]);
      repeat split; try lra; intros Hlow; lra.
  - eexists; eexists; (split; [reflexivity |]); (split; [reflexivity |]).
    repeat split; try lra; intros Hlow; lra.
Qed.

End Numbers.

Section Constants.
Import JS.

Lemma of_Z_1 : of_Z 1 = Num 1.
Proof. vm_compute. reflexivity. Qed.

Lemma of_Z_100 : of_Z 100 = Num 100.
Proof. vm_compute. reflexivity. Qed.

Lemma round_1 : round 1 = Num 1.
Proof. vm_compute. reflexivity. Qed.

Lemma of_Z_nonneg z : 0 <= z -> (0 <= fl (inject_Z z))%Q.
Proof.
  intros H. apply fl_nonneg. change 0%Q with (inject_Z 0).
  rewrite <- Zle_Qle. exact H.
Qed.

Lemma of_Z_mono n m : 0 <= n -> n <= m -> (fl (inject_Z n) <= fl (inject_Z m))%Q.
Proof.
  intros H0 H. apply fl_mono.
  - change 0%Q with (inject_Z 0). rewrite <- Zle_Qle. exact H0.
  - rewrite <- Zle_Qle. exact H.
Qed.

Lemma of_Z_pos z : 0 < z -> (0 < fl (inject_Z z))%Q.
Proof.
  intros H. pose proof (of_Z_mono 1 z ltac:(lia) ltac:(lia)) as Hm.
  assert (E : (fl (inject_Z 1) == 1)%Q) by (vm_compute; reflexivity).
  lra.
Qed.

Lemma of_Z_10 : of_Z 10 = Num 10.
Proof. vm_compute. reflexivity. Qed.
Lemma of_Z_20 : of_Z 20 = Num 20.
Proof. vm_compute. reflexivity. Qed.
Lemma of_Z_30 : of_Z 30 = Num 30.
Proof. vm_compute. reflexivity. Qed.
Lemma of_Z_40 : of_Z 40 = Num 40.
Proof. vm_compute. reflexivity. Qed.

Lemma fl_const (k : Z) :
  (fl (inject_Z k) == inject_Z k)%Q ->
  (fl (inject_Z k) <= inject_Z k)%Q.
Proof. intros H. rewrite H. apply Qle_refl. Qed.

(** A product with a constant, its factor between 0 and 1. *)
Lemma mul_unit q (k : Z) :
  (0 <= q)%Q -> (q <= 1)%Q -> 0 <= k ->
  (fl (inject_Z k) == inject_Z k)%Q -> (inject_Z k < 2 ^ 1024)%Q ->
  mul (Num q) (Num (inject_Z k)) = Num (fl (q * inject_Z k))
  /\ (0 <= fl (q * inject_Z k))%Q /\ (fl (q * inject_Z k) <= inject_Z k)%Q.
Proof.
  intros H0 H1 Hk Hfl Hsmall. cbn [mul].
  assert (Hk' : (0 <= inject_Z k)%Q)
    by (change 0%Q with (inject_Z 0); rewrite <- Zle_Qle; exact Hk).
  apply round_bounded.
  - apply Qmult_le_0_compat; assumption.
  - rewrite <- (Qmult_1_l (inject_Z k)) at 2.
    apply Qmult_le_compat_r; assumption.
  - apply fl_const. exact Hfl.
  - exact Hsmall.
Qed.

(** The percentage [Math.min(Math.round((n / g) * 100), 100)] of a step
    count [n] and a goal [g]: between 0 and 100, monotone in [n], and 100
    from the goal on. *)
Lemma percent_chain n m g :
  0 <= n -> n <= m -> 0 < g ->
  exists p q,
    to_Z (min (JS.Math_round (mul (div (of_Z n) (of_Z g)) (of_Z 100)))
              (of_Z 100)) = Some p
    /\ to_Z (min (JS.Math_round (mul (div (of_Z m) (of_Z g)) (of_Z 100)))
                 (of_Z 100)) = Some q
    /\ 0 <= p /\ p <= q /\ q <= 100
    /\ (g <= n -> p = 100).
Proof.
  intros Hn Hnm Hg. rewrite of_Z_100. unfold of_Z, of_Q.
  pose proof (of_Z_nonneg n Hn) as Hfn.
  pose proof (of_Z_mono n m Hn Hnm) as Hfnm.
  pose proof (of_Z_pos g Hg) as Hfg.
  set (fn := fl (inject_Z n)) in *. set (fm := fl (inject_Z m)) in *.
  set (fg := fl (inject_Z g)) in *.
  destruct (div_mono fn fm fg Hfn Hfnm Hfg) as [Hd0 Hd].
  destruct (mul_mono _ _ 100 Hd0 Hd ltac:(reflexivity)) as [Hm0 Hm].
  destruct (num_round_mono _ _ Hm0 Hm) as [Hr0 Hr].
  destruct (min_cap _ _ 100 Hr0 Hr ltac:(discriminate))
    as (q & q' & E & E' & H0 & Hqq & H100 & Hlow).
  rewrite E, E'. cbn [to_Z].
  exists (Qfloor q), (Qfloor q').
  split; [reflexivity |]. split; [reflexivity |].
  split. { rewrite <- (Qfloor_Z 0). apply Qfloor_resp_le. exact H0. }
  split. { apply Qfloor_resp_le. exact Hqq. }
  split. { rewrite <- (Qfloor_Z 100). apply Qfloor_resp_le. exact H100. }
  intros Hgoal.
  assert (Hq : (100 <= q)%Q).
  { apply Hlow.
    assert (Hfgn : (fg <= fn)%Q) by (apply of_Z_mono; lia).
    assert (H1 : nle (Num 1) (div (Num fn) (Num fg))).
    { destruct (div_mono fg fn fg ltac:(lra) Hfgn Hfg) as [_ Hdd].
      eapply nle_trans; [| exact Hdd].
      unfold div.
      assert (E0 : Qeq_bool fg 0 = false).
      { destruct (Qeq_bool fg 0) eqn:E0; [| reflexivity].
        apply Qeq_bool_iff in E0. exfalso. lra. }
      rewrite E0. rewrite <- round_1. apply round_mono; [lra |].
      apply Qle_shift_div_l; [exact Hfg | lra]. }
    destruct (mul_mono (Num 1) _ 100 ltac:(cbn; lra) H1 ltac:(reflexivity))
      as [Hx0 Hx].
    destruct (num_round_mono _ _ Hx0 Hx) as [_ Hy].
    eapply nle_trans; [| exact Hy].
    vm_compute. discriminate. }
  assert (Hq1 : 100 <= Qfloor q).
  { rewrite <- (Qfloor_Z 100). apply Qfloor_resp_le. exact Hq. }
  assert (Hq2 : Qfloor q <= 100).
  { assert (Hle : (q <= 100)%Q) by lra.
    rewrite <- (Qfloor_Z 100). apply Qfloor_resp_le. exact Hle. }
  lia.
Qed.

End Constants.

(* ===================================================================== *)
(** * Reward mappings and the composite score                             *)
(* ===================================================================== *)

Section Rewards.
Import GameStore HealthService.

Lemma Qle_bool_false x y : Qle_bool x y = false <-> (y < x)%Q.
Proof.
  split; intros H.
  - apply Qnot_le_lt. intros Hle. apply Qle_bool_iff in Hle. congruence.
  - destruct (Qle_bool x y) eqn:E; [| reflexivity].
    apply Qle_bool_iff in E. exfalso. exact (Qlt_not_le _ _ H E).
Qed.

Lemma calcFertilizer_steps (score : Q) :
  ((8 <= score)%Q -> calcFertilizer score = 5)
  /\ ((6 <= score)%Q /\ (score < 8)%Q -> calcFertilizer score = 3)
  /\ ((4 <= score)%Q /\ (score < 6)%Q -> calcFertilizer score = 2)
  /\ ((2 <= score)%Q /\ (score < 4)%Q -> calcFertilizer score = 1)
  /\ ((score < 2)%Q -> calcFertilizer score = 0).
Proof.
  unfold calcFertilizer.
  repeat split; intros H;
    repeat match goal with
           | H : _ /\ _ |- _ => destruct H
           | H : (?a <= score)%Q |- _ => apply Qle_bool_iff in H; rewrite H
           | H : (score < ?a)%Q |- context [Qle_bool ?b score] =>
               let E := fresh "E" in
               assert (E : Qle_bool b score = false)
                 by (apply Qle_bool_false;
                     apply (Qlt_le_trans _ _ _ H); discriminate);
               rewrite E; clear E
           end; reflexivity.
Qed.

Lemma calcLandscapeItems_steps (steps : Z) :
  (10000 <= steps -> calcLandscapeItems steps = 3)
  /\ (7000 <= steps < 10000 -> calcLandscapeItems steps = 2)
  /\ (5000 <= steps < 7000 -> calcLandscapeItems steps = 1)
  /\ (steps < 5000 -> calcLandscapeItems steps = 0).
Proof.
  unfold calcLandscapeItems.
  repeat split; intros H; repeat case Z.leb_spec; intros; lia.
Qed.

Lemma Math_round_bounds (x : Q) (lo hi : Z) :
  (inject_Z lo <= x)%Q -> (x <= inject_Z hi)%Q ->
  lo <= Math_round x <= hi.
Proof.
  intros Hlo Hhi. unfold Math_round. split.
  - rewrite <- (Qfloor_Z lo). apply Qfloor_resp_le.
    apply Qle_trans with x; [exact Hlo |].
    rewrite <- (Qplus_0_r x) at 1. apply Qplus_le_r. discriminate.
  - assert (H : (x + (1 # 2) < inject_Z (hi + 1))%Q).
    { rewrite inject_Z_plus.
      apply Qle_lt_trans with (inject_Z hi + (1 # 2))%Q.
      - apply Qplus_le_l. exact Hhi.
      - apply Qplus_lt_r. reflexivity. }
    pose proof (Qfloor_le (x + (1 # 2))) as Hf.
    assert (Hlt : (inject_Z (Qfloor (x + (1 # 2))) < inject_Z (hi + 1))%Q)
      by (eapply Qle_lt_trans; eassumption).
    rewrite <- Zlt_Qlt in Hlt. lia.
Qed.

Lemma ratio_unit (a b : Q) :
  (0 <= a)%Q -> (0 < b)%Q -> (0 <= Qmin (a / b) 1)%Q /\ (Qmin (a / b) 1 <= 1)%Q.
Proof.
  intros Ha Hb. split.
  - apply Q.min_glb; [| discriminate].
    apply Qle_shift_div_l; [exact Hb |]. rewrite Qmult_0_l. exact Ha.
  - apply Q.le_min_r.
Qed.

Lemma compositeFormula_bounds ws wg ds cs :
  0 < wg -> 0 <= ws -> (0 <= ds)%Q -> (ds <= 10)%Q -> 0 <= cs ->
  (inject_Z 0 <= compositeFormula ws wg ds cs)%Q
  /\ (compositeFormula ws wg ds cs <= inject_Z 100)%Q.
Proof.
  intros Hwg Hws Hd0 Hd10 Hcs. unfold compositeFormula.
  destruct (ratio_unit (inject_Z ws) (inject_Z wg)) as [Hw0 Hw1].
  { change 0%Q with (inject_Z 0). rewrite <- Zle_Qle. exact Hws. }
  { change 0%Q with (inject_Z 0). rewrite <- Zlt_Qlt. exact Hwg. }
  destruct (ratio_unit (inject_Z cs) 30) as [Hc0 Hc1].
  { change 0%Q with (inject_Z 0). rewrite <- Zle_Qle. exact Hcs. }
  { reflexivity. }
  set (wr := Qmin (inject_Z ws / inject_Z wg) 1) in *.
  set (cr := Qmin (inject_Z cs / 30) 1) in *.
  assert (Hd : (0 <= ds / 10)%Q /\ (ds / 10 <= 1)%Q).
  { split.
    - apply Qle_shift_div_l; [reflexivity |]. rewrite Qmult_0_l. exact Hd0.
    - apply Qle_shift_div_r; [reflexivity |]. rewrite Qmult_1_l. exact Hd10. }
  destruct Hd as [Hr0 Hr1].
  set (dr := (ds / 10)%Q) in *.
  change (inject_Z 0) with 0%Q. change (inject_Z 100) with 100%Q.
  split; lra.
Qed.

End Rewards.

(** C6.  The reward mappings are step functions with boundaries inclusive at
    the lower end: the diet reward is 5 from score 8, 3 from 6, 2 from 4,
    1 from 2 and 0 below; the walk reward is 3 from 10000 steps, 2 from 7000,
    1 from 5000 and 0 below; in particular the rewards of 7.9, 8.0, 4999,
    5000 and 10000 are 3, 5, 0, 1 and 3. *)
Theorem reward_step_functions :
  (forall score : Q,
     ((8 <= score)%Q -> HealthService.calcFertilizer score = 5)
     /\ ((6 <= score)%Q /\ (score < 8)%Q -> HealthService.calcFertilizer score = 3)
     /\ ((4 <= score)%Q /\ (score < 6)%Q -> HealthService.calcFertilizer score = 2)
     /\ ((2 <= score)%Q /\ (score < 4)%Q -> HealthService.calcFertilizer score = 1)
     /\ ((score < 2)%Q -> HealthService.calcFertilizer score = 0))
  /\ (forall steps : Z,
        (10000 <= steps -> HealthService.calcLandscapeItems steps = 3)
        /\ (7000 <= steps < 10000 -> HealthService.calcLandscapeItems steps = 2)
        /\ (5000 <= steps < 7000 -> HealthService.calcLandscapeItems steps = 1)
        /\ (steps < 5000 -> HealthService.calcLandscapeItems steps = 0))
  /\ HealthService.calcFertilizer (79 # 10) = 3
  /\ HealthService.calcFertilizer 8 = 5
  /\ HealthService.calcLandscapeItems 4999 = 0
  /\ HealthService.calcLandscapeItems 5000 = 1
  /\ HealthService.calcLandscapeItems 10000 = 3.
Proof.
  split; [exact calcFertilizer_steps |].
  split; [exact calcLandscapeItems_steps |].
  repeat split.
Qed.

Lemma reward_step_functions_witness :
  HealthService.calcFertilizer (79 # 10) = 3
  /\ HealthService.calcLandscapeItems 7000 = 2.
Proof.
  split.
  - apply (proj1 (proj2 (proj1 reward_step_functions (79 # 10)))).
    split; [discriminate | reflexivity].
  - apply (proj1 (proj2 (proj1 (proj2 reward_step_functions) 7000))). lia.
Defined.

Section Errors.
Import JS.

Lemma rne_exact x k : (x == inject_Z k)%Q -> rne x = k.
Proof.
  intros H.
  assert (H1 : rne x <= rne (inject_Z k)) by (apply rne_mono; rewrite H; apply Qle_refl).
  assert (H2 : rne (inject_Z k) <= rne x) by (apply rne_mono; rewrite H; apply Qle_refl).
  rewrite rne_Z in H1, H2. lia.
Qed.

(** The last place of a positive number below [2 ^ k]. *)
Lemma expo_below x k :
  (0 < x)%Q -> (x < 2 ^ k)%Q -> -1074 <= k - 53 -> expo x <= k - 53.
Proof.
  intros Hx Hk Hmin. destruct (expo_spec x Hx) as (_ & _ & [E | H]).
  - lia.
  - assert (Hlt : (2 ^ (expo x + 52) < 2 ^ k)%Q) by lra.
    apply Qpower_lt_compat_l_inv in Hlt; [lia | reflexivity].
Qed.

(** Integers up to [2 ^ 53] are doubles. *)
Lemma fl_int z : 0 <= z <= 2 ^ 53 -> (fl (inject_Z z) == inject_Z z)%Q.
Proof.
  intros [H0 H53].
  destruct (Z.eq_dec z 0) as [-> | Hz]; [vm_compute; reflexivity |].
  destruct (Z.eq_dec z (2 ^ 53)) as [-> | Hz']; [vm_compute; reflexivity |].
  assert (Hpos : (0 < inject_Z z)%Q).
  { change 0%Q with (inject_Z 0). rewrite <- Zlt_Qlt. lia. }
  rewrite (fl_pos_unfold _ Hpos).
  assert (He : expo (inject_Z z) <= 0).
  { apply (expo_below _ 53 Hpos); [| lia].
    rewrite <- (pow2_Z 53) by lia. rewrite <- Zlt_Qlt. lia. }
  set (e := expo (inject_Z z)) in *.
  assert (Hs : (inject_Z z / 2 ^ e == inject_Z (z * 2 ^ (- e)))%Q).
  { rewrite inject_Z_mult. rewrite (pow2_Z (- e)) by lia.
    rewrite Qpower_opp. unfold Qdiv. reflexivity. }
  rewrite (rne_exact _ _ Hs). rewrite inject_Z_mult.
  rewrite (pow2_Z (- e)) by lia. rewrite <- Qmult_assoc, <- pow2_plus.
  replace (- e + e) with 0 by lia. change (2 ^ 0)%Q with 1%Q. ring.
Qed.

Lemma fl_close x :
  (0 <= x)%Q -> (x < 128)%Q ->
  (x - JS.half_ulp <= fl x)%Q /\ (fl x <= x + JS.half_ulp)%Q.
Proof.
  intros H0 H128. unfold JS.half_ulp.
  destruct (Qle_lt_or_eq _ _ H0) as [Hpos | Hz].
  - destruct (fl_near x Hpos) as [H1 H2].
    assert (He : expo x <= -46).
    { apply (expo_below x 7 Hpos); [| lia].
      assert (E : (2 ^ 7 == 128)%Q) by reflexivity. lra. }
    pose proof (pow2_le _ _ He) as Hp.
    assert (E : (2 ^ (-46) == 1 # 70368744177664)%Q) by reflexivity.
    split; lra.
  - rewrite (fl_zero x) by (symmetry; exact Hz). split; lra.
Qed.

End Errors.

Section Health.
Import GameStore.

Lemma Math_round_mono x y : (x <= y)%Q -> Math_round x <= Math_round y.
Proof.
  intros H. unfold Math_round. apply Qfloor_resp_le. lra.
Qed.

(** [Math.round] moves with whole numbers. *)
Lemma Math_round_shift x (k : Z) :
  Math_round (x + inject_Z k) = Math_round x + k.
Proof.
  unfold Math_round.
  pose proof (Qfloor_le (x + (1 # 2))) as H1.
  pose proof (Qlt_floor (x + (1 # 2))) as H2.
  pose proof (Qfloor_le (x + inject_Z k + (1 # 2))) as H3.
  pose proof (Qlt_floor (x + inject_Z k + (1 # 2))) as H4.
  rewrite inject_Z_plus in H2, H4. change (inject_Z 1) with 1%Q in H2, H4.
  set (a := Qfloor (x + (1 # 2))) in *.
  set (b := Qfloor (x + inject_Z k + (1 # 2))) in *.
  assert (A : (inject_Z b < inject_Z (a + k + 1))%Q).
  { rewrite !inject_Z_plus. change (inject_Z 1) with 1%Q. lra. }
  assert (B : (inject_Z (a + k) < inject_Z (b + 1))%Q).
  { rewrite !inject_Z_plus. change (inject_Z 1) with 1%Q. lra. }
  rewrite <- Zlt_Qlt in A, B. lia.
Qed.

(** A capped ratio of two integers, [Math.min(a / b, 1)]: it is between 0
    and 1, and within half a unit in the last place of the exact capped
    ratio when both integers are doubles. *)
Lemma capped_ratio a b :
  0 <= a -> 0 < b ->
  exists q,
    JS.min (JS.div (JS.of_Z a) (JS.of_Z b)) (JS.Num 1) = JS.Num q
    /\ (0 <= q)%Q /\ (q <= 1)%Q
    /\ (a <= 2 ^ 53 -> b <= 2 ^ 53 ->
        (Qmin (inject_Z a / inject_Z b) 1 - JS.half_ulp <= q)%Q
        /\ (q <= Qmin (inject_Z a / inject_Z b) 1 + JS.half_ulp)%Q).
Proof.
  intros Ha Hb. unfold JS.of_Z, JS.of_Q.
  pose proof (of_Z_nonneg a Ha) as Hfa. pose proof (of_Z_pos b Hb) as Hfb.
  set (fa := JS.fl (inject_Z a)) in *. set (fb := JS.fl (inject_Z b)) in *.
  destruct (div_mono fa fa fb Hfa ltac:(lra) Hfb) as [Hd0 Hd].
  destruct (min_cap _ _ 1 Hd0 Hd ltac:(discriminate))
    as (q & q' & E & _ & H0 & _ & _ & Hlow).
  assert (Hq1 : (q <= 1)%Q).
  { destruct (min_cap _ _ 1 Hd0 Hd ltac:(discriminate))
      as (q1 & q2 & E1 & E2 & _ & Hqq & H1 & _).
    rewrite E in E1. inversion E1; subst q1. lra. }
  exists q. split; [exact E |]. split; [exact H0 |]. split; [exact Hq1 |].
  intros Ha53 Hb53.
  assert (Ea : (fa == inject_Z a)%Q) by (apply fl_int; lia).
  assert (Eb : (fb == inject_Z b)%Q) by (apply fl_int; lia).
  assert (Ex : (fa / fb == inject_Z a / inject_Z b)%Q)
    by (rewrite Ea, Eb; reflexivity).
  assert (Hx0 : (0 <= fa / fb)%Q)
    by (apply Qle_shift_div_l; [exact Hfb | lra]).
  assert (Ediv : JS.div (JS.Num fa) (JS.Num fb) = JS.round (fa / fb)).
  { unfold JS.div. destruct (Qeq_bool fb 0) eqn:E0; [| reflexivity].
    apply Qeq_bool_iff in E0. exfalso. lra. }
  rewrite Ediv in E, Hlow.
  destruct (Qlt_le_dec (fa / fb) 1) as [Hlt | Hge].
  - (* below the cap: the rounded quotient *)
    destruct (round_bounded (fa / fb) 1 Hx0 ltac:(change (inject_Z 1) with 1%Q; lra)
                ltac:(vm_compute; discriminate) ltac:(vm_compute; reflexivity))
      as (Er & _ & Hr1).
    change (inject_Z 1) with 1%Q in Hr1.
    rewrite Er in E. cbn [JS.min] in E.
    assert (Eb1 : Qle_bool (JS.fl (fa / fb)) 1 = true) by (apply Qle_bool_iff; exact Hr1).
    rewrite Eb1 in E. inversion E; subst q.
    destruct (fl_close (fa / fb) Hx0 ltac:(lra)) as [Hc1 Hc2].
    rewrite (Q.min_l (inject_Z a / inject_Z b) 1) by (rewrite <- Ex; lra).
    rewrite <- Ex. split; lra.
  - (* at the cap *)
    assert (H1 : (1 <= q)%Q).
    { apply Hlow. rewrite <- round_1. apply round_mono; [lra | exact Hge]. }
    rewrite (Q.min_r (inject_Z a / inject_Z b) 1) by (rewrite <- Ex; exact Hge).
    unfold JS.half_ulp. split; lra.
Qed.

(** The blend of [selectHealthScore] as the code computes it: a double [c]
    between 0 and 100, rounded; and [c] is within [2 ^ -40] of the exact
    blend when the integer fields are doubles. *)
Lemma healthScore_blend s :
  0 < walkGoal s -> 0 <= steps s ->
  (0 <= dietScore s)%Q -> (dietScore s <= 10)%Q -> 0 <= cafeScore s ->
  exists c : Q,
    selectHealthScore s = Some (Math_round c)
    /\ (0 <= c)%Q /\ (c <= 100)%Q
    /\ (steps s <= 2 ^ 53 -> walkGoal s <= 2 ^ 53 -> cafeScore s <= 2 ^ 53 ->
        (compositeFormula (steps s) (walkGoal s) (dietScore s) (cafeScore s)
         - (1 # 1099511627776) <= c)%Q
        /\ (c <= compositeFormula (steps s) (walkGoal s) (dietScore s)
                   (cafeScore s) + (1 # 1099511627776))%Q).
Proof.
  intros Hg Hs Hd0 Hd10 Hc. unfold selectHealthScore.
  rewrite of_Z_1, of_Z_10, of_Z_20, of_Z_40.
  destruct (capped_ratio (steps s) (walkGoal s) Hs Hg)
    as (w & -> & Hw0 & Hw1 & Hwn).
  destruct (capped_ratio (cafeScore s) 30 Hc ltac:(lia))
    as (cr & -> & Hc0 & Hc1 & Hcn).
  unfold JS.of_Q.
  (* the diet ratio *)
  assert (Hfd0 : (0 <= JS.fl (dietScore s))%Q) by (apply fl_nonneg; exact Hd0).
  assert (Hfd10 : (JS.fl (dietScore s) <= 10)%Q).
  { apply Qle_trans with (JS.fl (inject_Z 10)).
    - apply fl_mono; assumption.
    - vm_compute. discriminate. }
  destruct (fl_close (dietScore s) Hd0 ltac:(lra)) as [Hfd1 Hfd2].
  set (fd := JS.fl (dietScore s)) in *.
  assert (Ediv : JS.div (JS.Num fd) (JS.Num 10) = JS.round (fd / 10))
    by reflexivity.
  rewrite Ediv. clear Ediv.
  assert (Hq0 : (0 <= fd / 10)%Q)
    by (apply Qle_shift_div_l; [reflexivity | lra]).
  assert (Hq1 : (fd / 10 <= 1)%Q)
    by (apply Qle_shift_div_r; [reflexivity | lra]).
  destruct (round_bounded (fd / 10) 1 Hq0 Hq1
              ltac:(vm_compute; discriminate) ltac:(vm_compute; reflexivity))
    as (-> & Hr0 & Hr1).
  change (inject_Z 1) with 1%Q in Hr1.
  destruct (fl_close (fd / 10) Hq0 ltac:(lra)) as [Hdr1 Hdr2].
  set (dr := JS.fl (fd / 10)) in *.
  (* the three products *)
  change (JS.Num 40) with (JS.Num (inject_Z 40)).
  change (JS.Num 20) with (JS.Num (inject_Z 20)).
  destruct (mul_unit w 40 Hw0 Hw1 ltac:(lia)
              ltac:(vm_compute; reflexivity) ltac:(vm_compute; reflexivity))
    as (-> & A0 & A1).
  destruct (mul_unit dr 40 Hr0 Hr1 ltac:(lia)
              ltac:(vm_compute; reflexivity) ltac:(vm_compute; reflexivity))
    as (-> & B0 & B1).
  destruct (mul_unit cr 20 Hc0 Hc1 ltac:(lia)
              ltac:(vm_compute; reflexivity) ltac:(vm_compute; reflexivity))
    as (-> & C0 & C1).
  change (inject_Z 40) with 40%Q in *. change (inject_Z 20) with 20%Q in *.
  assert (Hw40 : (0 <= w * 40)%Q /\ (w * 40 <= 40)%Q) by (split; lra).
  assert (Hd40 : (0 <= dr * 40)%Q /\ (dr * 40 <= 40)%Q) by (split; lra).
  assert (Hc20 : (0 <= cr * 20)%Q /\ (cr * 20 <= 20)%Q) by (split; lra).
  destruct (fl_close (w * 40) ltac:(lra) ltac:(lra)) as [A2 A3].
  destruct (fl_close (dr * 40) ltac:(lra) ltac:(lra)) as [B2 B3].
  destruct (fl_close (cr * 20) ltac:(lra) ltac:(lra)) as [C2 C3].
  set (t1 := JS.fl (w * 40)) in *. set (t2 := JS.fl (dr * 40)) in *.
  set (t3 := JS.fl (cr * 20)) in *.
  (* the two sums *)
  cbn [JS.add].
  destruct (round_bounded (t1 + t2) 80 ltac:(lra)
              ltac:(change (inject_Z 80) with 80%Q; lra)
              ltac:(vm_compute; discriminate) ltac:(vm_compute; reflexivity))
    as (-> & S0 & S1).
  change (inject_Z 80) with 80%Q in S1.
  destruct (fl_close (t1 + t2) ltac:(lra) ltac:(lra)) as [S2 S3].
  set (s1 := JS.fl (t1 + t2)) in *.
  cbn [JS.add].
  destruct (round_bounded (s1 + t3) 100 ltac:(lra)
              ltac:(change (inject_Z 100) with 100%Q; lra)
              ltac:(vm_compute; discriminate) ltac:(vm_compute; reflexivity))
    as (-> & T0 & T1).
  change (inject_Z 100) with 100%Q in T1.
  destruct (fl_close (s1 + t3) ltac:(lra) ltac:(lra)) as [T2 T3].
  set (s2 := JS.fl (s1 + t3)) in *.
  exists s2. cbn [JS.Math_round JS.to_Z]. rewrite Qfloor_Z.
  split; [reflexivity |]. split; [exact T0 |]. split; [exact T1 |].
  intros Hs53 Hg53 Hc53.
  destruct (Hwn Hs53 Hg53) as [W1 W2].
  destruct (Hcn Hc53 ltac:(lia)) as [K1 K2].
  unfold compositeFormula. change (inject_Z 30) with 30%Q in K1, K2.
  set (W := Qmin (inject_Z (steps s) / inject_Z (walkGoal s)) 1) in *.
  set (K := Qmin (inject_Z (cafeScore s) / 30) 1) in *.
  unfold JS.half_ulp in *.
  assert (D1 : (fd / 10 == fd * (1 # 10))%Q) by (unfold Qdiv; reflexivity).
  assert (D2 : (dietScore s / 10 == dietScore s * (1 # 10))%Q)
    by (unfold Qdiv; reflexivity).
  split; lra.
Qed.

End Health.

(** C7 (counterexample).  The selector applies no clamp: with 5000 steps and
    a diet score of 20 written through the ledger, the score is 120, where
    the clamped score of the specification is 100.  Nor is it the rounding
    of the exact blend: with 5 steps and a diet score of 0.115 the exact
    blend is 0.5, which rounds to 1, while the doubles of the code add up to
    just below 0.5 and the score is 0. *)
Lemma healthScore_not_clamped :
  GameStore.selectHealthScore
    (GameStore.run GameStore.initialState
       [GameStore.SetSteps 5000; GameStore.SetDietScore 20 []]) = Some 120
  /\ GameStore.compositeScore_spec 5000 5000 20 0 = 100
  /\ ~ (0 <= 120 <= 100)
  /\ GameStore.selectHealthScore
       (GameStore.run GameStore.initialState
          [GameStore.SetSteps 5; GameStore.SetDietScore (115 # 1000) []])
     = Some 0
  /\ GameStore.compositeScore_spec 5 5000 (115 # 1000) 0 = 1.
Proof.
  split; [vm_compute; reflexivity |].
  split; [vm_compute; reflexivity |].
  split; [lia |].
  split; vm_compute; reflexivity.
Qed.

(** C7 (amended).  For a state with a positive walk goal, non-negative steps
    and cafe score, and a diet score between 0 and 10, the composite score
    is a number between 0 and 100, without a clamp of its own.  It is the
    rounding of the blend min(steps/goal,1)*40 + (diet/10)*40 +
    min(cafe/30,1)*20 computed in doubles: when the integer fields are
    doubles (at most 2^53) it lies between the roundings of the exact blend
    less and plus 2^-40, so it differs from the score of the specification
    by at most 1, and only where the exact blend is within 2^-40 of a half.
    5000 steps of a 5000 goal, diet score 8 and cafe score 15 give 82. *)
Theorem healthScore_in_range :
  (forall s : GameStore.GameState,
     0 < GameStore.walkGoal s -> 0 <= GameStore.steps s ->
     (0 <= GameStore.dietScore s)%Q -> (GameStore.dietScore s <= 10)%Q ->
     0 <= GameStore.cafeScore s ->
     exists v,
       GameStore.selectHealthScore s = Some v
       /\ 0 <= v <= 100
       /\ (GameStore.steps s <= 2 ^ 53 -> GameStore.walkGoal s <= 2 ^ 53 ->
           GameStore.cafeScore s <= 2 ^ 53 ->
           let exact :=
             GameStore.compositeFormula
               (GameStore.steps s) (GameStore.walkGoal s)
               (GameStore.dietScore s) (GameStore.cafeScore s) in
           let spec :=
             GameStore.compositeScore_spec
               (GameStore.steps s) (GameStore.walkGoal s)
               (GameStore.dietScore s) (GameStore.cafeScore s) in
           Math_round (exact - (1 # 1099511627776)) <= v
           /\ v <= Math_round (exact + (1 # 1099511627776))
           /\ spec - 1 <= v <= spec + 1))
  /\ GameStore.selectHealthScore
       (GameStore.run GameStore.initialState
          [GameStore.SetSteps 5000; GameStore.SetDietScore 8 [];
           GameStore.AddCafeScore 15]) = Some 82.
Proof.
  split; [| vm_compute; reflexivity].
  intros s Hg Hs Hd0 Hd10 Hc.
  destruct (healthScore_blend s Hg Hs Hd0 Hd10 Hc)
    as (c & E & Hc0 & Hc100 & Hnear).
  exists (Math_round c). split; [exact E |].
  split; [apply (Math_round_bounds c 0 100); assumption |].
  intros Hs53 Hg53 Hc53 exact spec.
  destruct (Hnear Hs53 Hg53 Hc53) as [Hlo Hhi]. fold exact in Hlo, Hhi.
  assert (H1 : Math_round (exact - (1 # 1099511627776)) <= Math_round c)
    by (apply Math_round_mono; exact Hlo).
  assert (H2 : Math_round c <= Math_round (exact + (1 # 1099511627776)))
    by (apply Math_round_mono; exact Hhi).
  split; [exact H1 |]. split; [exact H2 |].
  destruct (compositeFormula_bounds _ _ _ _ Hg Hs Hd0 Hd10 Hc) as [Hf0 Hf100].
  fold exact in Hf0, Hf100.
  pose proof (Math_round_bounds exact 0 100 Hf0 Hf100) as Hr.
  assert (Espec : spec = Math_round exact).
  { subst spec. unfold GameStore.compositeScore_spec. fold exact. lia. }
  rewrite Espec.
  pose proof (Math_round_shift exact (-1)) as Hdown.
  pose proof (Math_round_shift exact 1) as Hup.
  assert (H3 : Math_round (exact + inject_Z (-1))
               <= Math_round (exact - (1 # 1099511627776))).
  { apply Math_round_mono. change (inject_Z (-1)) with (-1)%Q. lra. }
  assert (H4 : Math_round (exact + (1 # 1099511627776))
               <= Math_round (exact + inject_Z 1)).
  { apply Math_round_mono. change (inject_Z 1) with 1%Q. lra. }
  lia.
Qed.

Lemma healthScore_in_range_witness :
  exists v,
    GameStore.selectHealthScore
      (GameStore.run GameStore.initialState
         [GameStore.SetSteps 2500; GameStore.SetDietScore (75 # 10) [];
          GameStore.AddCafeScore 10]) = Some v
    /\ 0 <= v <= 100.
Proof.
  destruct (proj1 healthScore_in_range
              (GameStore.run GameStore.initialState
                 [GameStore.SetSteps 2500; GameStore.SetDietScore (75 # 10) [];
                  GameStore.AddCafeScore 10]))
    as (v & Hv & Hr & _).
  - simpl. lia.
  - simpl. lia.
  - simpl. discriminate.
  - simpl. discriminate.
  - simpl. lia.
  - exists v. split; [exact Hv | exact Hr].
Defined.

(* ===================================================================== *)
(** * The milestone scheduler                                             *)
(* ===================================================================== *)

Section Milestones.
Import PedometerService.

(** [observe] in closed form: the candidate is the highest multiple of the
    interval at or below the reading. *)
Lemma observe_unfold steps lastFired :
  observe steps lastFired =
    if (lastFired <? steps / 1000 * 1000) && (0 <? steps / 1000 * 1000)
    then (steps / 1000 * 1000, Some (steps / 1000 * 1000))
    else (lastFired, None).
Proof.
  unfold observe, _handleStepUpdate, QUIZ_INTERVAL. simpl.
  destruct ((lastFired <? steps / 1000 * 1000) && (0 <? steps / 1000 * 1000));
    reflexivity.
Qed.

(** [_handleStepUpdate] touches the scheduler state as [observe] does,
    calls the quiz callback exactly when it reports [quizTrigger], and
    leaves the rest of the service alone. *)
Lemma handleStepUpdate_observe steps sv :
  let '(sv', callback, payload) := _handleStepUpdate steps sv in
  (lastQuizMilestone sv', callback) = observe steps (lastQuizMilestone sv)
  /\ quizTrigger payload = bool_decide (is_Some callback)
  /\ currentSteps sv' = currentSteps sv
  /\ usedQuizIds sv' = usedQuizIds sv.
Proof.
  rewrite observe_unfold.
  unfold _handleStepUpdate, QUIZ_INTERVAL. simpl.
  destruct ((lastQuizMilestone sv <? steps / 1000 * 1000)
            && (0 <? steps / 1000 * 1000)); simpl; repeat split.
Qed.

Lemma observe_fires steps lastFired :
  lastFired < steps / 1000 * 1000 -> 0 < steps / 1000 * 1000 ->
  observe steps lastFired = (steps / 1000 * 1000, Some (steps / 1000 * 1000)).
Proof.
  intros H1 H2. rewrite observe_unfold.
  destruct (Z.ltb_spec lastFired (steps / 1000 * 1000)); [| lia].
  destruct (Z.ltb_spec 0 (steps / 1000 * 1000)); [| lia].
  reflexivity.
Qed.

Lemma observe_silent steps lastFired :
  ~ (lastFired < steps / 1000 * 1000 /\ 0 < steps / 1000 * 1000) ->
  observe steps lastFired = (lastFired, None).
Proof.
  intros H. rewrite observe_unfold.
  destruct (Z.ltb_spec lastFired (steps / 1000 * 1000));
    destruct (Z.ltb_spec 0 (steps / 1000 * 1000)); simpl;
    try reflexivity.
  exfalso. apply H. split; assumption.
Qed.

(** What a fired milestone is. *)
Lemma observe_Some steps lastFired last' m :
  observe steps lastFired = (last', Some m) ->
  last' = m /\ lastFired < m /\ 0 < m
  /\ m mod 1000 = 0 /\ m <= steps < m + 1000.
Proof.
  rewrite observe_unfold.
  destruct (Z.ltb_spec lastFired (steps / 1000 * 1000));
    destruct (Z.ltb_spec 0 (steps / 1000 * 1000)); simpl;
    intros E; inversion E; subst.
  repeat split; try assumption.
  - apply Z.mod_mul. lia.
  - pose proof (Z.mul_div_le steps 1000). lia.
  - pose proof (Z.mod_pos_bound steps 1000).
    pose proof (Z.div_mod steps 1000). lia.
Qed.

Lemma observe_None steps lastFired last' :
  observe steps lastFired = (last', None) -> last' = lastFired.
Proof.
  rewrite observe_unfold.
  destruct ((lastFired <? steps / 1000 * 1000) && (0 <? steps / 1000 * 1000));
    intros E; inversion E; reflexivity.
Qed.

(** A second observation of the same reading is silent. *)
Lemma observe_twice steps lastFired :
  snd (observe steps (fst (observe steps lastFired))) = None.
Proof.
  rewrite (observe_unfold steps lastFired).
  destruct (Z.ltb_spec lastFired (steps / 1000 * 1000));
    destruct (Z.ltb_spec 0 (steps / 1000 * 1000)); cbn [andb fst snd];
    rewrite observe_unfold;
    repeat match goal with
           | |- context [?a <? ?b] => destruct (Z.ltb_spec a b)
           end; cbn [andb fst snd]; try reflexivity; lia.
Qed.

(** Along any sequence of observations the fired milestones are positive
    multiples of the interval above the last one fired before, in strictly
    increasing order. *)
Lemma observeAll_increasing obs :
  forall lastFired,
    Forall (fun m => lastFired < m /\ 0 < m /\ m mod 1000 = 0)
           (fst (observeAll obs lastFired))
    /\ StronglySorted Z.lt (fst (observeAll obs lastFired)).
Proof.
  induction obs as [| s rest IH]; intros lastFired; cbn [observeAll].
  - split; constructor.
  - destruct (observe s lastFired) as [last' fired] eqn:E.
    specialize (IH last').
    destruct (observeAll rest last') as [ms final] eqn:E'.
    cbn [fst] in IH. destruct IH as [IHall IHsorted].
    destruct fired as [m |]; cbn [fst].
    + apply observe_Some in E. destruct E as (-> & Hlt & Hpos & Hmod & _).
      split.
      * constructor; [repeat split; assumption |].
        eapply Forall_impl; [exact IHall |]. cbv beta. intros x (? & ? & ?).
        repeat split; try assumption; lia.
      * constructor; [exact IHsorted |].
        eapply Forall_impl; [exact IHall |]. cbv beta. intros x (? & _).
        assumption.
    + apply observe_None in E. subst last'. split; assumption.
Qed.

Lemma observeAll_999 n lastFired :
  fst (observeAll (repeat 999 n) lastFired) = [].
Proof.
  induction n as [| n IH]; cbn [repeat observeAll]; [reflexivity |].
  rewrite observe_silent by (change (999 / 1000 * 1000) with 0; lia).
  destruct (observeAll (repeat 999 n) lastFired) as [ms final].
  exact IH.
Qed.

End Milestones.

(** C1.  The milestone scheduler fires on an observation exactly when the
    candidate floor(steps / 1000) * 1000 is above the last fired milestone
    and above 0, and then records the candidate as last fired.  Hence a
    repeated observation of the same reading is silent, readings of 999
    never fire, 1000 observed twice fires once, and 2600 after 1000 fires
    once, at 2000: a fired milestone is the highest boundary at or below the
    reading, and along any sequence the fired milestones strictly increase. *)
Theorem milestone_fires_once_per_boundary :
  (forall steps sv,
     let '(sv', callback, payload) :=
       PedometerService._handleStepUpdate steps sv in
     (PedometerService.lastQuizMilestone sv', callback)
     = PedometerService.observe steps (PedometerService.lastQuizMilestone sv)
     /\ PedometerService.quizTrigger payload
        = bool_decide (is_Some callback))
  /\ (forall steps lastFired,
        let candidate := steps / 1000 * 1000 in
        (lastFired < candidate /\ 0 < candidate ->
         PedometerService.observe steps lastFired
         = (candidate, Some candidate))
        /\ (~ (lastFired < candidate /\ 0 < candidate) ->
            PedometerService.observe steps lastFired = (lastFired, None)))
  /\ (forall steps lastFired,
        snd (PedometerService.observe steps
               (fst (PedometerService.observe steps lastFired))) = None)
  /\ (forall n lastFired,
        fst (PedometerService.observeAll (repeat 999 n) lastFired) = [])
  /\ PedometerService.observeAll [1000; 1000] 0 = ([1000], 1000)
  /\ PedometerService.observeAll [2600] 1000 = ([2000], 2000)
  /\ (forall steps lastFired last' m,
        PedometerService.observe steps lastFired = (last', Some m) ->
        m mod 1000 = 0 /\ m <= steps < m + 1000)
  /\ (forall obs lastFired,
        StronglySorted Z.lt
          (fst (PedometerService.observeAll obs lastFired))).
Proof.
  split.
  { intros steps sv.
    pose proof (handleStepUpdate_observe steps sv) as H.
    destruct (PedometerService._handleStepUpdate steps sv) as [[sv' cb] p].
    destruct H as (H1 & H2 & _). split; assumption. }
  split.
  { intros steps lastFired candidate. split.
    - intros [H1 H2]. apply observe_fires; assumption.
    - apply observe_silent. }
  split; [exact observe_twice |].
  split; [exact observeAll_999 |].
  split; [vm_compute; reflexivity |].
  split; [vm_compute; reflexivity |].
  split.
  { intros steps lastFired last' m E.
    apply observe_Some in E. destruct E as (_ & _ & _ & ? & ?).
    split; assumption. }
  intros obs lastFired. apply observeAll_increasing.
Qed.

Lemma milestone_fires_once_per_boundary_witness :
  PedometerService.observe 2600 1000 = (2000, Some 2000)
  /\ PedometerService.observe 999 0 = (0, None).
Proof.
  split.
  - apply (proj1 (proj1 (proj2 milestone_fires_once_per_boundary) 2600 1000)).
    vm_compute. split; reflexivity.
  - apply (proj2 (proj1 (proj2 milestone_fires_once_per_boundary) 999 0)).
    vm_compute. intros [H _]. discriminate H.
Defined.

(* ===================================================================== *)
(** * The quiz bank                                                       *)
(* ===================================================================== *)

Section QuizBank.
Import PedometerService.

(** A draw of [Math.random()] indexes a non-empty array in range. *)
Lemma random_index_lt rnd n :
  unit_draw rnd -> (0 < n)%nat -> (random_index rnd n < n)%nat.
Proof.
  intros [H0 H1] Hn. unfold random_index.
  set (q := inject_Z (Z.of_nat n)).
  assert (Hq : (0 < q)%Q).
  { unfold q. change 0%Q with (inject_Z 0). rewrite <- Zlt_Qlt. lia. }
  assert (Hlo : 0 <= Qfloor (rnd * q)).
  { change 0 with (Qfloor (inject_Z 0)). apply Qfloor_resp_le.
    change (inject_Z 0) with 0%Q. apply Qmult_le_0_compat; [exact H0 |].
    apply Qlt_le_weak, Hq. }
  assert (Hhi : Qfloor (rnd * q) < Z.of_nat n).
  { rewrite Zlt_Qlt. fold q.
    apply Qle_lt_trans with (rnd * q)%Q; [apply Qfloor_le |].
    rewrite <- (Qmult_1_l q) at 2. apply Qmult_lt_compat_r; assumption. }
  lia.
Qed.

(** A draw below [1 / n] indexes the first element. *)
Lemma random_index_first (rnd : Q) (n : positive) :
  (rnd < 1 # n)%Q -> random_index rnd (Pos.to_nat n) = 0%nat.
Proof.
  intros H. unfold random_index. rewrite positive_nat_Z.
  assert (Hlt : Qfloor (rnd * inject_Z (Z.pos n)) < 1).
  { rewrite Zlt_Qlt.
    apply Qle_lt_trans with (rnd * inject_Z (Z.pos n))%Q;
      [apply Qfloor_le |].
    unfold Qlt, Qmult, inject_Z in *. cbn in *. nia. }
  lia.
Qed.

Variable catalog : list WalkQuiz.

(** While fewer ids are used than the catalog has distinct ids, some quiz
    is available. *)
Lemma available_nonempty (used : gset string) :
  NoDup (PedometerService.id <$> catalog) ->
  (size used < length catalog)%nat ->
  (0 < length (unusedQuizzes catalog used))%nat.
Proof.
  intros Hnd Hsize.
  destruct (unusedQuizzes catalog used) as [| q l] eqn:E; [| simpl; lia].
  exfalso.
  assert (Hsub : (list_to_set (PedometerService.id <$> catalog) : gset string) ⊆ used).
  { intros i Hi. apply elem_of_list_to_set in Hi.
    apply list_elem_of_fmap in Hi. destruct Hi as (q & -> & Hq).
    destruct (decide (PedometerService.id q ∈ used)) as [Hin | Hnin];
      [exact Hin |].
    exfalso. unfold unusedQuizzes in E.
    eapply (filter_nil_not_elem_of _ _ q E); [exact Hnin | exact Hq]. }
  apply subseteq_size in Hsub.
  rewrite size_list_to_set in Hsub by exact Hnd.
  rewrite length_fmap in Hsub. lia.
Qed.

(** One draw while quizzes are available: an unused quiz of the catalog
    comes back and its id joins the used ids. *)
Lemma getRandomQuiz_fresh rnd (used : gset string) :
  unit_draw rnd -> (0 < length (unusedQuizzes catalog used))%nat ->
  exists quiz,
    getRandomQuiz_from catalog rnd used
    = Some (quiz, used ∪ {[ PedometerService.id quiz ]})
    /\ quiz ∈ catalog /\ PedometerService.id quiz ∉ used.
Proof.
  intros Hrnd Hlen. unfold getRandomQuiz_from. cbv zeta.
  destruct (Nat.eqb_spec (length (unusedQuizzes catalog used)) 0) as [E | _]; [lia |].
  destruct (lookup_lt_is_Some_2 (unusedQuizzes catalog used)
              (random_index rnd (length (unusedQuizzes catalog used)))) as [quiz Hq].
  { apply random_index_lt; assumption. }
  exists quiz. rewrite Hq. simpl. split; [reflexivity |].
  apply list_elem_of_lookup_2 in Hq. unfold unusedQuizzes in Hq.
  apply list_elem_of_filter in Hq. destruct Hq as [Hnin Hin].
  split; assumption.
Qed.

(** The draw on an exhausted cycle: whatever the random number, the used
    ids are cleared and the first quiz of the catalog comes back, without
    being marked used. *)
Lemma getRandomQuiz_wrap rnd (used : gset string) first rest :
  catalog = first :: rest ->
  (forall q, q ∈ catalog -> PedometerService.id q ∈ used) ->
  getRandomQuiz_from catalog rnd used = Some (first, ∅).
Proof.
  intros Hcat Hall. unfold getRandomQuiz_from, unusedQuizzes.
  assert (E : filter (fun q => PedometerService.id q ∉ used) catalog = []).
  { destruct (filter _ catalog) as [| q l] eqn:E; [reflexivity |].
    exfalso.
    assert (Hq : q ∈ filter (fun q => PedometerService.id q ∉ used) catalog)
      by (rewrite E; left).
    apply list_elem_of_filter in Hq. destruct Hq as [Hnin Hin].
    apply Hnin, Hall, Hin. }
  rewrite E, Hcat. reflexivity.
Qed.

(** No draw throws on a non-empty catalog. *)
Lemma getRandomQuiz_total rnd (used : gset string) :
  unit_draw rnd -> catalog <> [] ->
  is_Some (getRandomQuiz_from catalog rnd used).
Proof.
  intros Hrnd Hne. unfold getRandomQuiz_from. cbv zeta.
  destruct (Nat.eqb_spec (length (unusedQuizzes catalog used)) 0) as [E | Hn].
  - destruct catalog as [| q l]; [congruence |]. simpl. eauto.
  - destruct (lookup_lt_is_Some_2 (unusedQuizzes catalog used)
                (random_index rnd (length (unusedQuizzes catalog used)))) as [quiz Hq].
    { apply random_index_lt; [assumption | lia]. }
    rewrite Hq. simpl. eauto.
Qed.

(** Draws within one cycle: as long as the catalog has ids left for every
    draw, each draw succeeds and hands out a quiz not handed out before. *)
Lemma draws_distinct rnds :
  NoDup (PedometerService.id <$> catalog) ->
  forall used : gset string,
    Forall unit_draw rnds ->
    (size used + length rnds <= length catalog)%nat ->
    exists qs final,
      draws catalog rnds used = Some (qs, final)
      /\ length qs = length rnds
      /\ NoDup (PedometerService.id <$> qs)
      /\ Forall (fun q => q ∈ catalog /\ PedometerService.id q ∉ used) qs.
Proof.
  intros Hnd. induction rnds as [| r rest IH]; intros used Hall Hsize.
  - exists [], used. simpl. repeat split; constructor.
  - inversion Hall as [| ? ? Hr Hrest]; subst. simpl in Hsize.
    destruct (getRandomQuiz_fresh r used Hr) as (quiz & Hq & Hin & Hnin).
    { apply available_nonempty; [exact Hnd | lia]. }
    destruct (IH (used ∪ {[ PedometerService.id quiz ]}) Hrest)
      as (qs & final & Hd & Hlen & Hnodup & Hqs).
    { rewrite size_union by set_solver. rewrite size_singleton. lia. }
    exists (quiz :: qs), final. cbn [draws]. rewrite Hq. simpl. rewrite Hd. simpl.
    split; [reflexivity |]. split; [lia |]. split.
    + apply NoDup_cons. split; [| exact Hnodup].
      intros Hmem. apply list_elem_of_fmap in Hmem.
      destruct Hmem as (q' & Heq & Hq').
      pose proof (proj1 (Forall_forall _ _) Hqs q' Hq') as [_ Hfresh].
      apply Hfresh. rewrite <- Heq. set_solver.
    + constructor; [split; assumption |].
      eapply Forall_impl; [exact Hqs |]. cbv beta. intros q' [? Hn'].
      split; [assumption | set_solver].
Qed.

End QuizBank.

Lemma FALLBACK_QUIZZES_ids_distinct :
  NoDup (PedometerService.id <$> PedometerService.FALLBACK_QUIZZES).
Proof. refine (bool_decide_unpack _ _). vm_compute. exact I. Qed.

(** [getRandomQuiz] of the service never throws. *)
Lemma getRandomQuiz_never_throws rnd sv :
  unit_draw rnd -> is_Some (PedometerService.getRandomQuiz rnd sv).
Proof.
  intros Hrnd. unfold PedometerService.getRandomQuiz.
  destruct (getRandomQuiz_total PedometerService.FALLBACK_QUIZZES rnd
              (PedometerService.usedQuizIds sv) Hrnd) as [[q used] Hq];
    [discriminate |].
  rewrite Hq. simpl. eauto.
Qed.

Section QuizCycles.
Import PedometerService.

Lemma unused_none catalog (used : gset string) :
  (forall q, q ∈ catalog -> PedometerService.id q ∈ used) ->
  unusedQuizzes catalog used = [].
Proof.
  intros Hall. unfold unusedQuizzes.
  destruct (filter _ catalog) as [| q l] eqn:E; [reflexivity |].
  assert (Hq : q ∈ filter (fun q => PedometerService.id q ∉ used) catalog)
    by (rewrite E; left).
  apply list_elem_of_filter in Hq as [Hn Hin].
  exfalso. apply Hn, Hall, Hin.
Qed.

Lemma draws_app catalog l1 l2 (used : gset string) :
  draws catalog (l1 ++ l2) used
  = '(qs1, used1) ← draws catalog l1 used;
    '(qs2, used2) ← draws catalog l2 used1;
    Some (qs1 ++ qs2, used2).
Proof.
  revert used. induction l1 as [| r rest IH]; intros used.
  - cbn [app draws mbind option_bind].
    destruct (draws catalog l2 used) as [[qs2 used2] |]; reflexivity.
  - cbn [app draws].
    destruct (getRandomQuiz_from catalog r used) as [[q used'] |];
      cbn [mbind option_bind]; [| reflexivity].
    rewrite IH.
    destruct (draws catalog rest used') as [[qs1 used1] |];
      cbn [mbind option_bind]; [| reflexivity].
    destruct (draws catalog l2 used1) as [[qs2 used2] |]; reflexivity.
Qed.

(** Draws that do not exhaust the catalog add the ids of their quizzes to
    the used ids. *)
Lemma draws_used catalog rnds :
  NoDup (PedometerService.id <$> catalog) ->
  forall (used : gset string) qs final,
    Forall unit_draw rnds ->
    (size used + length rnds <= length catalog)%nat ->
    draws catalog rnds used = Some (qs, final) ->
    final = used ∪ list_to_set (PedometerService.id <$> qs).
Proof.
  intros Hnd. induction rnds as [| r rest IH]; intros used qs final Hall Hsize.
  - cbn [draws]. intros E. injection E as <- <-. set_solver.
  - inversion Hall as [| ? ? Hr Hrest]; subst. simpl in Hsize.
    destruct (getRandomQuiz_fresh catalog r used Hr) as (quiz & Hq & Hin & Hnin).
    { apply available_nonempty; [exact Hnd | lia]. }
    cbn [draws]. rewrite Hq. cbn [mbind option_bind].
    destruct (draws catalog rest (used ∪ {[ PedometerService.id quiz ]}))
      as [[qs' final'] |] eqn:Ed; cbn [mbind option_bind]; [| discriminate].
    intros E. injection E as <- <-.
    assert (Hsize' : (size (used ∪ {[ PedometerService.id quiz ]})
                      + length rest <= length catalog)%nat).
    { rewrite size_union by set_solver. rewrite size_singleton. lia. }
    rewrite (IH _ qs' final' Hrest Hsize' Ed).
    rewrite fmap_cons, list_to_set_cons. set_solver.
Qed.

(** The draw on an exhausted bank and the one after it. *)
Lemma draws_across_wrap (used : gset string) (rnd1 rnd2 : Q) :
  (forall q, q ∈ FALLBACK_QUIZZES -> PedometerService.id q ∈ used) ->
  unit_draw rnd2 ->
  exists first next,
    FALLBACK_QUIZZES !! 0%nat = Some first
    /\ FALLBACK_QUIZZES !! random_index rnd2 8 = Some next
    /\ draws FALLBACK_QUIZZES [rnd1; rnd2] used
       = Some ([first; next], {[ PedometerService.id next ]})
    /\ ((rnd2 < 1 # 8)%Q -> next = first).
Proof.
  intros Hall Hrnd.
  destruct (lookup_lt_is_Some_2 FALLBACK_QUIZZES (random_index rnd2 8))
    as [next Enext].
  { apply (random_index_lt rnd2 8 Hrnd). lia. }
  eexists. exists next. split; [reflexivity |]. split; [exact Enext |].
  split.
  - cbn [draws].
    rewrite (getRandomQuiz_wrap FALLBACK_QUIZZES rnd1 used _ _ eq_refl Hall).
    cbn [mbind option_bind].
    assert (E : getRandomQuiz_from FALLBACK_QUIZZES rnd2 ∅
                = Some (next, {[ PedometerService.id next ]})).
    { unfold getRandomQuiz_from.
      assert (Eall : unusedQuizzes FALLBACK_QUIZZES ∅ = FALLBACK_QUIZZES)
        by (vm_compute; reflexivity).
      rewrite Eall. change (length FALLBACK_QUIZZES) with 8%nat.
      cbn [Nat.eqb]. rewrite Enext. cbn [mbind option_bind].
      rewrite (left_id_L ∅ (∪)). reflexivity. }
    rewrite E. reflexivity.
  - intros Hlow. change 8%nat with (Pos.to_nat 8) in Enext.
    rewrite (random_index_first rnd2 8 Hlow) in Enext.
    cbn in Enext. congruence.
Qed.

(** Eight draws from a fresh bank use every id of the catalog. *)
Lemma full_cycle (rnds : list Q) :
  length rnds = 8%nat -> Forall unit_draw rnds ->
  exists qs final,
    draws FALLBACK_QUIZZES rnds ∅ = Some (qs, final)
    /\ length qs = 8%nat
    /\ NoDup (PedometerService.id <$> qs)
    /\ (forall q, q ∈ FALLBACK_QUIZZES -> PedometerService.id q ∈ final).
Proof.
  intros Hlen Hall.
  destruct (draws_distinct FALLBACK_QUIZZES rnds
              FALLBACK_QUIZZES_ids_distinct ∅ Hall)
    as (qs & final & Hd & Hl & Hn & Hqs).
  { rewrite size_empty, Hlen. reflexivity. }
  exists qs, final. split; [exact Hd |]. split; [lia |]. split; [exact Hn |].
  rewrite (draws_used FALLBACK_QUIZZES rnds FALLBACK_QUIZZES_ids_distinct
             ∅ qs final Hall) by (rewrite ?size_empty, ?Hlen; done).
  assert (Hperm : PedometerService.id <$> qs
                  ≡ₚ PedometerService.id <$> FALLBACK_QUIZZES).
  { apply submseteq_length_Permutation.
    - apply NoDup_submseteq; [exact Hn |].
      intros i Hi. apply list_elem_of_fmap in Hi as (q & -> & Hq).
      apply list_elem_of_fmap. exists q. split; [reflexivity |].
      exact (proj1 (proj1 (Forall_forall _ _) Hqs q Hq)).
    - rewrite !length_fmap, Hl, Hlen. reflexivity. }
  intros q Hq. apply elem_of_union_r, elem_of_list_to_set.
  rewrite Hperm. apply list_elem_of_fmap. exists q. split; [reflexivity | exact Hq].
Qed.

End QuizCycles.

(** C5.  The quiz bank departs from its specification on the wrap.  On the draw
    where every id is used, [getRandomQuiz] clears the used ids and returns
    the first quiz of the catalog whatever the random number, and does not
    record it as used, where a pick from the full catalog by the same
    random number returns the quiz at its random index.  So after eight
    distinct draws from a fresh bank the ninth draw is the first quiz and,
    with a random number below 1/8, the tenth draw is the first quiz again:
    the cycle that starts at the wrap hands out a duplicate.  What does
    hold: up to N draws (N the catalog size) from a fresh bank have
    pairwise distinct ids, and no draw throws. *)
Theorem quiz_wrap_leaves_first_unmarked :
  (forall (rnd : Q) (used : gset string),
     (forall q, q ∈ PedometerService.FALLBACK_QUIZZES ->
                PedometerService.id q ∈ used) ->
     exists first,
       PedometerService.FALLBACK_QUIZZES !! 0%nat = Some first
       /\ PedometerService.getRandomQuiz_from
            PedometerService.FALLBACK_QUIZZES rnd used = Some (first, ∅)
       /\ (unit_draw rnd ->
           exists pick,
             PedometerService.FALLBACK_QUIZZES !! random_index rnd 8
             = Some pick
             /\ fst <$> PedometerService.QuizBank_next_spec
                          PedometerService.FALLBACK_QUIZZES rnd used
                = Some pick))
  /\ (forall (rnds : list Q) (rnd9 rnd10 : Q),
        length rnds = 8%nat -> Forall unit_draw rnds ->
        unit_draw rnd10 -> (rnd10 < 1 # 8)%Q ->
        exists qs first,
          PedometerService.FALLBACK_QUIZZES !! 0%nat = Some first
          /\ PedometerService.draws PedometerService.FALLBACK_QUIZZES
               (rnds ++ [rnd9; rnd10]) ∅
             = Some (qs ++ [first; first], {[ PedometerService.id first ]})
          /\ length qs = 8%nat
          /\ NoDup (PedometerService.id <$> qs))
  /\ (fun r : list PedometerService.WalkQuiz * gset string =>
        (PedometerService.id <$> r.1, r.2))
       <$> PedometerService.draws PedometerService.FALLBACK_QUIZZES
             [0; 1 # 2; 1 # 3; 9 # 10; 0; 0; 1 # 2; 0; 1 # 2; 0]%Q ∅
     = Some (["q1"; "q5"; "q4"; "q8"; "q2"; "q3"; "q7"; "q6"; "q1"; "q1"],
             {[ "q1" ]})
  /\ (forall rnds : list Q,
        (length rnds <= length PedometerService.FALLBACK_QUIZZES)%nat ->
        Forall unit_draw rnds ->
        exists qs final,
          PedometerService.draws PedometerService.FALLBACK_QUIZZES rnds ∅
          = Some (qs, final)
          /\ length qs = length rnds
          /\ NoDup (PedometerService.id <$> qs))
  /\ (forall (rnd : Q) (sv : PedometerService.Service),
        unit_draw rnd -> is_Some (PedometerService.getRandomQuiz rnd sv)).
Proof.
  split; [| split; [| split; [| split]]].
  - intros rnd used Hall. eexists. split; [reflexivity |]. split.
    + erewrite getRandomQuiz_wrap; [| reflexivity | exact Hall]. reflexivity.
    + intros Hrnd.
      destruct (lookup_lt_is_Some_2 PedometerService.FALLBACK_QUIZZES
                  (random_index rnd 8)) as [pick Epick].
      { apply (random_index_lt rnd 8 Hrnd). lia. }
      exists pick. split; [exact Epick |].
      unfold PedometerService.QuizBank_next_spec.
      rewrite (unused_none _ _ Hall). cbn [length Nat.eqb].
      change (length PedometerService.FALLBACK_QUIZZES) with 8%nat.
      rewrite Epick. reflexivity.
  - intros rnds rnd9 rnd10 Hlen Hall H10 Hlow.
    destruct (full_cycle rnds Hlen Hall) as (qs & final & Hd & Hl & Hn & Hfull).
    destruct (draws_across_wrap final rnd9 rnd10 Hfull H10)
      as (first & next & E0 & _ & Ew & Hsame).
    rewrite (Hsame Hlow) in Ew.
    exists qs, first. split; [exact E0 |]. split; [| split; assumption].
    rewrite draws_app, Hd. cbn [mbind option_bind]. rewrite Ew. reflexivity.
  - vm_compute. reflexivity.
  - intros rnds Hlen Hall.
    destruct (draws_distinct PedometerService.FALLBACK_QUIZZES rnds
                FALLBACK_QUIZZES_ids_distinct ∅ Hall)
      as (qs & final & Hd & Hl & Hn & _).
    { rewrite size_empty. simpl. exact Hlen. }
    exists qs, final. repeat split; assumption.
  - exact getRandomQuiz_never_throws.
Qed.

Lemma quiz_wrap_leaves_first_unmarked_witness :
  exists qs first,
    PedometerService.FALLBACK_QUIZZES !! 0%nat = Some first
    /\ fst <$> PedometerService.draws PedometerService.FALLBACK_QUIZZES
                 ([0; 1 # 2; 1 # 3; 9 # 10; 0; 0; 1 # 2; 0] ++ [1 # 2; 0])%Q ∅
       = Some (qs ++ [first; first])
    /\ NoDup (PedometerService.id <$> qs).
Proof.
  destruct (proj1 (proj2 quiz_wrap_leaves_first_unmarked)
              [0; 1 # 2; 1 # 3; 9 # 10; 0; 0; 1 # 2; 0]%Q (1 # 2)%Q 0%Q)
    as (qs & first & E0 & Ed & _ & Hn).
  - reflexivity.
  - repeat constructor; discriminate.
  - split; [discriminate | reflexivity].
  - reflexivity.
  - exists qs, first. split; [exact E0 |]. split; [| exact Hn].
    rewrite Ed. reflexivity.
Defined.

(* ===================================================================== *)
(** * The terminal goal reward                                            *)
(* ===================================================================== *)

Section WalkTabReward.
Import WalkTab.

(** One delivered reading in the walk tab: the reward branch runs exactly
    when the reading reaches the goal and the guard is still down. *)
Lemma sensorTick_reward tick w :
  subscribed w = true -> unit_draw (snd tick) ->
  exists w',
    sensorTick tick w = Some w'
    /\ subscribed w' = true
    /\ rewardGivenRef w' = rewardGivenRef w || reachesGoal tick
    /\ goalAlerts w' =
         (goalAlerts w
          + (if reachesGoal tick && negb (rewardGivenRef w) then 1 else 0))%nat
    /\ GameStore.landscapeItems (store w') =
         GameStore.landscapeItems (store w)
         + (if reachesGoal tick && negb (rewardGivenRef w) then 1 else 0).
Proof.
  intros Hsub Hrnd. unfold sensorTick. rewrite Hsub. cbn [negb].
  destruct tick as [steps rnd]. cbn [fst snd] in *.
  destruct (PedometerService.onSensor steps (service w))
    as [[sv fired] payload] eqn:E.
  assert (Hgoal : PedometerService.goalReached payload
                  = reachesGoal (steps, rnd)).
  { unfold PedometerService.onSensor, PedometerService._handleStepUpdate in E.
    inversion E. reflexivity. }
  clear E.
  assert (Hquiz : exists w2,
             match fired with
             | Some m =>
                 triggerQuiz m rnd
                   (mkScreen (store w) sv (pedometerAvailable w) true
                      (isTracking w) (quizState w) (rewardGivenRef w)
                      (goalAlerts w))
             | None =>
                 Some (mkScreen (store w) sv (pedometerAvailable w) true
                         (isTracking w) (quizState w) (rewardGivenRef w)
                         (goalAlerts w))
             end = Some w2
             /\ store w2 = store w /\ subscribed w2 = true
             /\ rewardGivenRef w2 = rewardGivenRef w
             /\ goalAlerts w2 = goalAlerts w).
  { destruct fired as [m |].
    - unfold triggerQuiz. cbn [service].
      destruct (getRandomQuiz_never_throws rnd sv Hrnd) as [[q sv'] Hq].
      rewrite Hq. cbn. eexists. repeat split.
    - eexists. repeat split. }
  destruct Hquiz as (w2 & E2 & Hst & Hsub2 & Hgiven & Halerts).
  rewrite E2. cbn [mbind option_bind].
  exists (onStep payload w2). split; [reflexivity |].
  unfold onStep. rewrite Hgoal, Hgiven, Halerts, Hst, Hsub2.
  destruct (reachesGoal (steps, rnd)), (rewardGivenRef w); cbn;
    repeat split; lia.
Qed.

(** Any run of readings: the goal dialog and the landscape item come once,
    when a reading reaches the goal while the guard is down, and never
    while it is up. *)
Lemma sensorTicks_reward ticks :
  forall w,
    subscribed w = true -> Forall (fun t => unit_draw (snd t)) ticks ->
    exists w',
      sensorTicks ticks w = Some w'
      /\ goalAlerts w' =
           (goalAlerts w
            + (if negb (rewardGivenRef w) && existsb reachesGoal ticks
               then 1 else 0))%nat
      /\ GameStore.landscapeItems (store w') =
           GameStore.landscapeItems (store w)
           + (if negb (rewardGivenRef w) && existsb reachesGoal ticks
              then 1 else 0).
Proof.
  induction ticks as [| t rest IH]; intros w Hsub Hall.
  - exists w. cbn. rewrite andb_false_r. repeat split; lia.
  - inversion Hall as [| ? ? Ht Hrest]; subst.
    destruct (sensorTick_reward t w Hsub Ht)
      as (w1 & E1 & Hsub1 & Hg1 & Ha1 & Hl1).
    destruct (IH w1 Hsub1 Hrest) as (w' & E' & Ha' & Hl').
    exists w'. cbn [sensorTicks existsb]. rewrite E1. cbn.
    split; [exact E' |].
    rewrite Ha', Hl', Ha1, Hl1, Hg1.
    destruct (rewardGivenRef w), (reachesGoal t), (existsb reachesGoal rest);
      cbn; split; lia.
Qed.

(** The walk tab (walk.tsx) grants the goal reward once per session: after
    [startTracking], any readings give one goal dialog and one landscape
    item if some reading reaches 5000, and none otherwise. *)
Lemma walkTab_reward_once w ticks :
  pedometerAvailable w = true ->
  Forall (fun t => unit_draw (snd t)) ticks ->
  exists w',
    sensorTicks ticks (startTracking w) = Some w'
    /\ goalAlerts w' =
         (goalAlerts w + (if existsb reachesGoal ticks then 1 else 0))%nat
    /\ GameStore.landscapeItems (store w') =
         GameStore.landscapeItems (store w)
         + (if existsb reachesGoal ticks then 1 else 0).
Proof.
  intros Hav Hall.
  destruct (sensorTicks_reward ticks (startTracking w)) as (w' & E & Ha & Hl).
  - unfold startTracking. rewrite Hav. reflexivity.
  - exact Hall.
  - exists w'. split; [exact E |].
    unfold startTracking in Ha, Hl. rewrite Hav in Ha, Hl. cbn in Ha, Hl.
    split; assumption.
Qed.

End WalkTabReward.

Section WalkScreenCommits.
Import WalkScreen.

(** A commit whose render equals the previous one runs no effect. *)
Lemma commit_same rm s : commit rm s s = s.
Proof.
  unfold commit, runEffects. rewrite !Z.eqb_refl.
  destruct (phase s); reflexivity.
Qed.

Ltac unfold_effects_in H :=
  unfold commit, runEffects, stepsEffect, quizEffect, handleWalkComplete in H;
  cbn [phase_eqb phase steps sessionSteps startSteps quizList currentQuizIdx
       selectedChoice lastQuizCorrect correctCount walkGoal walkSteps
       landscapeItems resultTimers completions negb orb andb] in H.

Ltac split_tests_in H :=
  repeat (match type of H with
          | context [?a =? ?b] => destruct (Z.eqb_spec a b)
          | context [?a <=? ?b] => destruct (Z.leb_spec a b)
          | context [?a <? ?b] => destruct (Z.ltb_spec a b)
          end; unfold_effects_in H).

(** The screen [x] of the equation [E : x = ...] evaluated, by cases on the
    tests of the effects. *)
Ltac eval_screen E x Hcur Hi1 Hi2 :=
  unfold_effects_in E; rewrite <- ?Hcur, <- ?Hi1, <- ?Hi2 in E;
  split_tests_in E; try lia; subst x.

(** After the effects of a render and the commit they cause, a further
    commit changes nothing. *)
Lemma runEffects_settles rm b1 b2 cur :
  commit rm (runEffects rm b1 b2 cur) (commit rm cur (runEffects rm b1 b2 cur))
  = commit rm cur (runEffects rm b1 b2 cur).
Proof.
  destruct cur as [cp cs css cst cq ci csel cl cc cg cw cli crt cco].
  remember (Z.max 0 (cs - cst)) as current eqn:Hcur.
  remember (Z.to_nat ((css / 500 - 1) mod Z.of_nat (length cq))) as i1 eqn:Hi1.
  remember (Z.to_nat ((current / 500 - 1) mod Z.of_nat (length cq)))
    as i2 eqn:Hi2.
  match goal with
  | |- commit _ ?c1 _ = _ =>
      let E := fresh "E" in
      remember c1 as x eqn:E; unfold_effects_in E;
      destruct b1, b2, cp; eval_screen E x Hcur Hi1 Hi2
  end.
  all: match goal with
       | |- commit _ _ ?c2 = _ =>
           let E := fresh "E" in
           remember c2 as x eqn:E; eval_screen E x Hcur Hi1 Hi2
       end.
  all: match goal with
       | |- ?c3 = _ =>
           let E := fresh "E" in
           remember c3 as x eqn:E; eval_screen E x Hcur Hi1 Hi2
       end.
  all: reflexivity.
Qed.

Lemma settle_same n rm s : settle n rm s s = s.
Proof.
  induction n as [| n IH]; cbn [settle]; [reflexivity |].
  rewrite commit_same. exact IH.
Qed.

(** Two commits settle every render: more commits change nothing. *)
Lemma settle_two n rm prev cur :
  settle (S (S n)) rm prev cur = settle 2 rm prev cur.
Proof.
  cbn [settle].
  assert (H : commit rm (commit rm prev cur) (commit rm cur (commit rm prev cur))
              = commit rm cur (commit rm prev cur)).
  { unfold commit at 1 3 4 6. cbv zeta. apply runEffects_settles. }
  destruct n as [| n]; [reflexivity |].
  cbn [settle]. rewrite H. apply settle_same.
Qed.

(** Once the screen is complete, a sensor reading grants nothing. *)
Lemma complete_ignores_readings rm s reading :
  phase s = complete ->
  completions (step rm s (SensorReading reading)) = completions s
  /\ landscapeItems (step rm s (SensorReading reading)) = landscapeItems s
  /\ phase (step rm s (SensorReading reading)) = complete.
Proof.
  intros Hph. unfold step. rewrite (settle_two 4).
  destruct s as [cp cs css cst cq ci csel cl cc cg cw cli crt cco].
  cbn [phase] in Hph. subst cp. cbn [handler settle].
  cbn [phase steps sessionSteps startSteps quizList currentQuizIdx
       selectedChoice lastQuizCorrect correctCount walkGoal walkSteps
       landscapeItems resultTimers completions].
  match goal with
  | |- context [commit rm ?c (commit rm ?p ?c)] =>
      let E := fresh "E" in
      remember (commit rm p c) as x eqn:E; unfold_effects_in E;
      split_tests_in E; subst x
  end.
  all: match goal with
       | |- context [commit ?r ?p ?c] =>
           let E := fresh "E" in
           remember (commit r p c) as x eqn:E; unfold_effects_in E;
           split_tests_in E; try lia; subst x
       end.
  all: repeat split.
Qed.

(** The timer of an answered quiz that fires after the goal was reached
    re-opens the session: the step effect completes the walk once more. *)
Lemma stale_timer_regrants rm s :
  phase s = complete -> (0 < resultTimers s)%nat ->
  walkGoal s <= Z.max 0 (steps s - startSteps s) ->
  (completions s < completions (step rm s ResultTimeout))%nat
  /\ phase (step rm s ResultTimeout) = complete.
Proof.
  intros Hph Ht Hgoal. unfold step. rewrite (settle_two 4).
  destruct s as [cp cs css cst cq ci csel cl cc cg cw cli crt cco].
  cbn [phase resultTimers walkGoal steps startSteps] in Hph, Ht, Hgoal.
  subst cp. destruct crt as [| k]; [lia |]. cbn [handler resultTimers].
  cbn [phase steps sessionSteps startSteps quizList currentQuizIdx
       selectedChoice lastQuizCorrect correctCount walkGoal walkSteps
       landscapeItems resultTimers completions].
  remember (Z.max 0 (cs - cst)) as current eqn:Hcur.
  cbn [settle].
  match goal with
  | |- context [commit rm ?c (commit rm ?p ?c)] =>
      let E := fresh "E" in
      remember (commit rm p c) as x eqn:E; unfold_effects_in E;
      rewrite <- ?Hcur in E; split_tests_in E; try lia; subst x
  end.
  all: match goal with
       | |- context [commit ?r ?p ?c] =>
           let E := fresh "E" in
           remember (commit r p c) as x eqn:E; unfold_effects_in E;
           rewrite <- ?Hcur in E; split_tests_in E; try lia; subst x
       end.
  all: cbn [completions phase]; split; [lia | reflexivity].
Qed.

End WalkScreenCommits.

(** C2.  The walk screen (WalkScreen.tsx) grants the terminal reward twice
    in one session.  The session starts at sensor reading 12000; the quiz of
    the first 500 steps is answered at 4998 session steps, which starts the
    2.5 s result timer; the reading 17003 reaches the goal of 5000 and the
    reward is granted (first line); then the timer fires, puts the phase
    back to walking, the step effect runs again and the reward is granted a
    second time (second line).  Without the pending timer the same readings
    grant once (third line). *)
Theorem walkScreen_reward_granted_twice :
  (let s := WalkScreen.run (WalkScreen.mkRemote true None)
              WalkScreen.initialScreen
              [WalkScreen.SensorReading 12000; WalkScreen.StartWalk;
               WalkScreen.SensorReading 12500; WalkScreen.SensorReading 16998;
               WalkScreen.SelectChoice "서울";
               WalkScreen.SensorReading 17003] in
   (WalkScreen.phase s, WalkScreen.sessionSteps s, WalkScreen.resultTimers s,
    WalkScreen.completions s, WalkScreen.landscapeItems s)
   = (WalkScreen.complete, 5003, 1%nat, 1%nat, 1))
  /\ (let s := WalkScreen.run (WalkScreen.mkRemote true None)
                 WalkScreen.initialScreen
                 [WalkScreen.SensorReading 12000; WalkScreen.StartWalk;
                  WalkScreen.SensorReading 12500; WalkScreen.SensorReading 16998;
                  WalkScreen.SelectChoice "서울";
                  WalkScreen.SensorReading 17003; WalkScreen.ResultTimeout] in
      (WalkScreen.phase s, WalkScreen.sessionSteps s, WalkScreen.resultTimers s,
       WalkScreen.completions s, WalkScreen.landscapeItems s)
      = (WalkScreen.complete, 5003, 0%nat, 2%nat, 2))
  /\ (let s := WalkScreen.run (WalkScreen.mkRemote true None)
                 WalkScreen.initialScreen
                 [WalkScreen.SensorReading 12000; WalkScreen.StartWalk;
                  WalkScreen.SensorReading 12500; WalkScreen.SensorReading 16998;
                  WalkScreen.SensorReading 17003;
                  WalkScreen.SensorReading 17500] in
      (WalkScreen.phase s, WalkScreen.sessionSteps s, WalkScreen.resultTimers s,
       WalkScreen.completions s, WalkScreen.landscapeItems s)
      = (WalkScreen.complete, 5003, 0%nat, 1%nat, 1)).
Proof. vm_compute. repeat split. Qed.

(* ===================================================================== *)
(** * Speech failures in the barista game                                 *)
(* ===================================================================== *)

Section Playback.

(** In the cafe tab a phase that waits for speech is left only by the
    [onDone] of the utterance: once the utterance is gone and no feedback
    timer is pending, no event changes the state. *)
Lemma cafeTab_waiting_stuck (s : CafeTab.Screen) ev :
  (CafeTab.phase s = CafeTab.ordering \/ CafeTab.phase s = CafeTab.distracted) ->
  CafeTab.utterance s = None -> CafeTab.feedbackTimer s = None ->
  CafeTab.step s ev = s.
Proof.
  intros Hph Hu Ht. destruct s as [ph cr rs sel sc sd sp u ft st].
  cbn in Hph, Hu, Ht. subst u ft.
  destruct ev; cbn; destruct Hph; subst ph; reflexivity.
Qed.

Lemma cafeTab_waiting_stuck_run evs :
  forall s : CafeTab.Screen,
    (CafeTab.phase s = CafeTab.ordering \/ CafeTab.phase s = CafeTab.distracted) ->
    CafeTab.utterance s = None -> CafeTab.feedbackTimer s = None ->
    CafeTab.run s evs = s.
Proof.
  unfold CafeTab.run.
  induction evs as [| ev evs IH]; intros s Hph Hu Ht; cbn [fold_left].
  - reflexivity.
  - rewrite cafeTab_waiting_stuck by assumption. apply IH; assumption.
Qed.

(** In the barista screen (CafeScreen.tsx) both playbacks register
    [onError] next to [onDone]: a failure leads to the state that the
    completion reaches once its delay timer has fired. *)
Lemma cafeScreen_error_as_done (s : CafeScreen.Screen) :
  CafeScreen.timers s = [] ->
  CafeScreen.timerFired (CafeScreen.onDone s) = CafeScreen.onError s
  \/ (CafeScreen.utterance s = None
      /\ CafeScreen.onDone s = s /\ CafeScreen.onError s = s).
Proof.
  intros Ht. destruct s as [ph cs sd sp u ts]. cbn in Ht. subst ts.
  destruct u as [[|] |]; [left | left | right]; cbn.
  - reflexivity.
  - reflexivity.
  - repeat split.
Qed.

End Playback.

(** C9.  In the cafe tab (cafe.tsx) a speech error does not act as a
    completion.  After [startGame] the screen waits in phase ordering for the
    order utterance: its completion moves on to phase distracted, its
    failure leaves the phase at ordering, and from there no sequence of
    events changes the state.  The same holds for the distractor utterance
    in phase distracted, whose completion moves on to choosing. *)
Theorem cafeTab_speech_error_stalls :
  forall r0 r1 r2 : CafeTab.Round,
    let waiting := CafeTab.step CafeTab.initialScreen
                     (CafeTab.StartGame r0 r1 r2) in
    let waiting2 := CafeTab.step waiting CafeTab.TtsDone in
    CafeTab.phase waiting = CafeTab.ordering
    /\ CafeTab.phase waiting2 = CafeTab.distracted
    /\ CafeTab.phase (CafeTab.step waiting2 CafeTab.TtsDone) = CafeTab.choosing
    /\ CafeTab.phase (CafeTab.step waiting CafeTab.TtsError) = CafeTab.ordering
    /\ CafeTab.phase (CafeTab.step waiting2 CafeTab.TtsError)
       = CafeTab.distracted
    /\ (forall evs,
          CafeTab.run (CafeTab.step waiting CafeTab.TtsError) evs
          = CafeTab.step waiting CafeTab.TtsError)
    /\ (forall evs,
          CafeTab.run (CafeTab.step waiting2 CafeTab.TtsError) evs
          = CafeTab.step waiting2 CafeTab.TtsError).
Proof.
  intros r0 r1 r2 waiting waiting2.
  repeat split; try reflexivity;
    intros evs; apply cafeTab_waiting_stuck_run;
    solve [reflexivity | left; reflexivity | right; reflexivity].
Qed.

(* ===================================================================== *)
(** * More on the game store                                              *)
(* ===================================================================== *)

Section Ledger.
Import GameStore.

Lemma run_app s acts1 acts2 : run s (acts1 ++ acts2) = run (run s acts1) acts2.
Proof. unfold run. apply fold_left_app. Qed.

Lemma hasBuilding_false b s :
  hasBuilding b s = false -> building_id b ∉ building_id <$> buildings s.
Proof.
  unfold hasBuilding. intros H Hin.
  apply list_elem_of_fmap in Hin. destruct Hin as (b' & Heq & Hb').
  assert (Hex : existsb (fun b' => String.eqb (building_id b') (building_id b))
                        (buildings s) = true).
  { apply existsb_exists. exists b'. split.
    - apply list_elem_of_In, Hb'.
    - apply String.eqb_eq. congruence. }
  congruence.
Qed.

Lemma hasBuilding_true b s :
  building_id b ∈ building_id <$> buildings s -> hasBuilding b s = true.
Proof.
  intros Hin. destruct (hasBuilding b s) eqn:E; [reflexivity |].
  exfalso. exact (hasBuilding_false b s E Hin).
Qed.

Lemma unlockBuilding_present b s :
  building_id b ∈ building_id <$> buildings s -> unlockBuilding b s = s.
Proof.
  intros Hin. unfold unlockBuilding.
  rewrite hasBuilding_true by exact Hin. reflexivity.
Qed.

Lemma unlockBuilding_has b s :
  building_id b ∈ building_id <$> buildings (unlockBuilding b s).
Proof.
  unfold unlockBuilding. destruct (hasBuilding b s) eqn:E.
  - unfold hasBuilding in E. apply existsb_exists in E.
    destruct E as (b' & Hin & Heq). apply String.eqb_eq in Heq.
    rewrite <- Heq. apply list_elem_of_fmap_2, list_elem_of_In, Hin.
  - simpl. rewrite fmap_app. apply elem_of_app. right.
    apply list_elem_of_singleton. reflexivity.
Qed.

Lemma dispatch_buildings_distinct s a :
  buildings_distinct s -> buildings_distinct (dispatch s a).
Proof.
  unfold buildings_distinct. intros H.
  destruct a; simpl; try exact H.
  unfold unlockBuilding. destruct (hasBuilding b s) eqn:E; simpl; [exact H |].
  rewrite fmap_app. apply NoDup_app. split; [exact H |]. split.
  - intros x Hx Hx'. apply list_elem_of_singleton in Hx'. subst x.
    exact (hasBuilding_false b s E Hx).
  - apply NoDup_singleton.
Qed.

Lemma run_buildings_distinct acts :
  forall s, buildings_distinct s -> buildings_distinct (run s acts).
Proof.
  unfold run. induction acts as [| a acts IH]; intros s H; simpl.
  - exact H.
  - apply IH, dispatch_buildings_distinct, H.
Qed.

(** What one action keeps of the lists of the store. *)
Lemma dispatch_lists_grow s a :
  residents s `prefix_of` residents (dispatch s a)
  /\ buildings s `prefix_of` buildings (dispatch s a)
  /\ (keeps_day a -> quizHistory s `prefix_of` quizHistory (dispatch s a)).
Proof.
  destruct a; simpl; repeat split; intros;
    try reflexivity; try (apply prefix_app_r; reflexivity);
    try contradiction;
    unfold unlockBuilding; destruct (hasBuilding b s); simpl;
    try reflexivity; apply prefix_app_r; reflexivity.
Qed.

Lemma run_lists_grow acts :
  forall s,
    residents s `prefix_of` residents (run s acts)
    /\ buildings s `prefix_of` buildings (run s acts)
    /\ (Forall keeps_day acts ->
        quizHistory s `prefix_of` quizHistory (run s acts)).
Proof.
  unfold run. induction acts as [| a acts IH]; intros s; simpl.
  - repeat split; reflexivity.
  - destruct (dispatch_lists_grow s a) as (Hr & Hb & Hq).
    destruct (IH (dispatch s a)) as (Hr' & Hb' & Hq').
    split; [etransitivity; eassumption |].
    split; [etransitivity; eassumption |].
    intros Hall. inversion Hall; subst.
    etransitivity; [apply Hq | apply Hq']; assumption.
Qed.

Lemma dispatch_exp_grows s a :
  exp_ok a -> villageExp s <= villageExp (dispatch s a).
Proof.
  destruct a; simpl; intros H; try lia.
  unfold unlockBuilding. destruct (hasBuilding b s); simpl; lia.
Qed.

Lemma run_exp_grows acts :
  forall s, Forall exp_ok acts -> villageExp s <= villageExp (run s acts).
Proof.
  unfold run. induction acts as [| a acts IH]; intros s Hall; simpl.
  - lia.
  - inversion Hall; subst.
    etransitivity; [apply dispatch_exp_grows | apply IH]; assumption.
Qed.

End Ledger.

(** X1.  Unlocked buildings are unique by id: after any sequence of store
    actions from the initial state no two buildings share an id, and
    unlocking a building whose id is already there leaves the store as it
    is. *)
Theorem buildings_unique_by_id :
  (forall acts : list GameStore.Action,
     NoDup (GameStore.building_id
              <$> GameStore.buildings
                    (GameStore.run GameStore.initialState acts)))
  /\ (forall (s : GameStore.GameState) (b : GameStore.Building),
        GameStore.building_id b
          ∈ GameStore.building_id <$> GameStore.buildings s ->
        GameStore.unlockBuilding b s = s)
  /\ (forall (s : GameStore.GameState) (b : GameStore.Building),
        GameStore.unlockBuilding b (GameStore.unlockBuilding b s)
        = GameStore.unlockBuilding b s).
Proof.
  split; [| split].
  - intros acts. apply run_buildings_distinct. constructor.
  - exact (fun s b => unlockBuilding_present b s).
  - intros s b. apply unlockBuilding_present, unlockBuilding_has.
Qed.

Lemma buildings_unique_by_id_witness :
  GameStore.unlockBuilding
    (GameStore.mkBuilding "cafe" GameStore.cafe "Cafe 2" "c" 2)
    (GameStore.unlockBuilding
       (GameStore.mkBuilding "cafe" GameStore.cafe "Cafe" "c" 2)
       GameStore.initialState)
  = GameStore.unlockBuilding
      (GameStore.mkBuilding "cafe" GameStore.cafe "Cafe" "c" 2)
      GameStore.initialState.
Proof.
  apply (proj1 (proj2 buildings_unique_by_id)).
  vm_compute. left.
Defined.

(** X2.  With non-negative experience grants the village never loses
    progress: along any continuation of any action sequence from the initial
    state, experience and level do not decrease, daily resets included. *)
Theorem level_never_drops :
  forall acts more : list GameStore.Action,
    Forall GameStore.exp_ok more ->
    GameStore.villageExp (GameStore.run GameStore.initialState acts)
    <= GameStore.villageExp
         (GameStore.run GameStore.initialState (acts ++ more))
    /\ GameStore.villageLevel (GameStore.run GameStore.initialState acts)
       <= GameStore.villageLevel
            (GameStore.run GameStore.initialState (acts ++ more)).
Proof.
  intros acts more Hall. rewrite run_app.
  pose proof (run_exp_grows more
                (GameStore.run GameStore.initialState acts) Hall) as Hexp.
  split; [exact Hexp |].
  rewrite (run_level_fresh more (GameStore.run GameStore.initialState acts)).
  - rewrite (run_level_fresh acts GameStore.initialState) by reflexivity.
    apply calcVillageLevel_mono, Hexp.
  - apply run_level_fresh. reflexivity.
Qed.

Lemma level_never_drops_witness :
  GameStore.villageExp
    (GameStore.run GameStore.initialState [GameStore.AddVillageExp 90])
  <= GameStore.villageExp
       (GameStore.run GameStore.initialState
          ([GameStore.AddVillageExp 90]
           ++ [GameStore.ResetDailyStats; GameStore.AddVillageExp 30]))
  /\ GameStore.villageLevel
       (GameStore.run GameStore.initialState [GameStore.AddVillageExp 90])
     <= GameStore.villageLevel
          (GameStore.run GameStore.initialState
             ([GameStore.AddVillageExp 90]
              ++ [GameStore.ResetDailyStats; GameStore.AddVillageExp 30])).
Proof.
  apply (level_never_drops [GameStore.AddVillageExp 90]
           [GameStore.ResetDailyStats; GameStore.AddVillageExp 30]).
  repeat constructor; simpl; lia.
Defined.

(** X3.  The level table reads as "experience needed to leave level k": for
    every finite entry [k -> t] of [LEVEL_EXP_THRESHOLDS], the level is above
    [k] exactly when the experience is at least [t]; the entry of level 10 is
    [Infinity], and level 10 is never left. *)
Theorem level_table_meaning :
  (forall k t exp,
     GameStore.LEVEL_EXP_THRESHOLDS !! k = Some (GameStore.Fin t) ->
     (k < GameStore.calcVillageLevel exp <-> t <= exp))
  /\ GameStore.LEVEL_EXP_THRESHOLDS !! 10 = Some GameStore.Infinity.
Proof.
  split; [| vm_compute; reflexivity].
  intros k t exp Hk.
  unfold GameStore.LEVEL_EXP_THRESHOLDS in Hk.
  apply elem_of_list_to_map in Hk;
    [| refine (bool_decide_unpack _ _); vm_compute; exact I].
  rewrite calcVillageLevel_unfold.
  repeat (apply elem_of_cons in Hk; destruct Hk as [Hk | Hk];
          [inversion Hk; subst; split_ltb exp |]).
  apply elem_of_nil in Hk. contradiction.
Qed.

Lemma level_table_meaning_witness :
  3 < GameStore.calcVillageLevel 500 <-> 500 <= 500.
Proof.
  apply (proj1 level_table_meaning 3 500 500). vm_compute. reflexivity.
Defined.

(** X4.  No store action removes what the village has gained: residents and
    unlocked buildings only grow at the end of their lists, whatever the
    actions (a daily reset included), and the quiz history only grows as
    long as no daily reset is among them. *)
Theorem store_lists_append_only :
  forall (s : GameStore.GameState) (acts : list GameStore.Action),
    GameStore.residents s `prefix_of` GameStore.residents (GameStore.run s acts)
    /\ GameStore.buildings s
         `prefix_of` GameStore.buildings (GameStore.run s acts)
    /\ (Forall GameStore.keeps_day acts ->
        GameStore.quizHistory s
          `prefix_of` GameStore.quizHistory (GameStore.run s acts)).
Proof.
  intros s acts. apply run_lists_grow.
Qed.

Lemma store_lists_append_only_witness :
  GameStore.quizHistory GameStore.initialState
    `prefix_of`
    GameStore.quizHistory
      (GameStore.run GameStore.initialState
         [GameStore.AddQuizRecord (GameStore.mkQuizRecord "q" "a" true 1);
          GameStore.SetSteps 10]).
Proof.
  apply (proj2 (proj2 (store_lists_append_only GameStore.initialState
           [GameStore.AddQuizRecord (GameStore.mkQuizRecord "q" "a" true 1);
            GameStore.SetSteps 10]))).
  repeat constructor.
Defined.

Section WalkProgress.
Import GameStore.

Lemma Math_round_Z z : Math_round (inject_Z z) = z.
Proof.
  pose proof (Math_round_bounds (inject_Z z) z z) as H.
  assert (z <= Math_round (inject_Z z) <= z) by (apply H; apply Qle_refl).
  lia.
Qed.

End WalkProgress.

(** X5.  For a positive walk goal and non-negative steps the walk progress
    is a percentage between 0 and 100, it does not decrease when the steps
    grow, and it is 100 whenever the goal is reached.  The converse fails:
    4990 of 5000 steps already show 100.  The percentage is rounded from
    doubles: 725 of 5000 steps, 14.5 percent, show 14, because the double
    quotient times 100 is just below 14.5. *)
Theorem walkProgress_percentage :
  (forall s : GameStore.GameState,
     0 < GameStore.walkGoal s -> 0 <= GameStore.steps s ->
     exists p,
       GameStore.selectWalkProgress s = Some p
       /\ 0 <= p <= 100
       /\ (GameStore.selectWalkGoalReached s = true -> p = 100))
  /\ (forall (s : GameStore.GameState) (n m : Z),
        0 < GameStore.walkGoal s -> 0 <= n -> n <= m ->
        exists p q,
          GameStore.selectWalkProgress (GameStore.setSteps n s) = Some p
          /\ GameStore.selectWalkProgress (GameStore.setSteps m s) = Some q
          /\ p <= q)
  /\ GameStore.selectWalkProgress
       (GameStore.setSteps 4990 GameStore.initialState) = Some 100
  /\ GameStore.selectWalkGoalReached
       (GameStore.setSteps 4990 GameStore.initialState) = false
  /\ GameStore.selectWalkProgress
       (GameStore.setSteps 725 GameStore.initialState) = Some 14
  /\ Math_round (inject_Z 725 / inject_Z 5000 * 100) = 15.
Proof.
  split; [| split; [| repeat split; vm_compute; reflexivity]].
  - intros s Hg Hs.
    destruct (percent_chain (GameStore.steps s) (GameStore.steps s)
                (GameStore.walkGoal s) Hs ltac:(lia) Hg)
      as (p & q & Ep & _ & H0 & Hpq & H100 & Hgoal).
    exists p. split; [exact Ep |]. split; [lia |].
    unfold GameStore.selectWalkGoalReached. intros Hr.
    apply Hgoal. apply Z.leb_le. exact Hr.
  - intros s n m Hg Hn Hnm.
    destruct (percent_chain n m (GameStore.walkGoal s) Hn Hnm Hg)
      as (p & q & Ep & Eq & _ & Hpq & _).
    exists p, q. split; [exact Ep |]. split; [exact Eq | exact Hpq].
Qed.

Lemma walkProgress_percentage_witness :
  exists p,
    GameStore.selectWalkProgress
      (GameStore.setSteps 2500 GameStore.initialState) = Some p
    /\ 0 <= p <= 100.
Proof.
  destruct (proj1 walkProgress_percentage
              (GameStore.setSteps 2500 GameStore.initialState))
    as (p & Ep & Hp & _).
  - simpl. lia.
  - simpl. lia.
  - exists p. split; [exact Ep | exact Hp].
Defined.

Section VillageDerived.
Import GameStore.

Lemma levelExpMax_above exp :
  calcVillageLevel exp < 10 ->
  exp < VillageTab.levelExpMax (calcVillageLevel exp).
Proof.
  rewrite calcVillageLevel_unfold.
  repeat match goal with
         | |- context [exp <? ?a] =>
             destruct (Z.ltb_spec exp a); cbv iota;
             [intros _; vm_compute VillageTab.levelExpMax; lia |]
         end.
  lia.
Qed.

Lemma unlockedBuildings_mono l1 l2 :
  l1 <= l2 ->
  VillageTab.unlockedBuildings l1 ⊆ VillageTab.unlockedBuildings l2.
Proof.
  intros Hle b Hb. unfold VillageTab.unlockedBuildings in *.
  apply list_elem_of_filter in Hb. destruct Hb as [Hb Hin].
  apply list_elem_of_filter. split; [lia | exact Hin].
Qed.

End VillageDerived.

(** X6.  The village tab never shows a full experience bar below level 10:
    for every store reached from the initial state whose level is below 10,
    the experience is below the maximum the tab shows for that level, so the
    fill ratio of the bar is below 1 (the tab's own table agrees with the
    level table of the store on levels 1 to 9). *)
Theorem expBar_below_full :
  forall acts : list GameStore.Action,
    GameStore.villageLevel (GameStore.run GameStore.initialState acts) < 10 ->
    GameStore.villageExp (GameStore.run GameStore.initialState acts)
    < VillageTab.levelExpMax
        (GameStore.villageLevel (GameStore.run GameStore.initialState acts))
    /\ (VillageTab.expBarRatio
          (GameStore.villageExp (GameStore.run GameStore.initialState acts))
          (VillageTab.levelExpMax
             (GameStore.villageLevel
                (GameStore.run GameStore.initialState acts))) < 1)%Q.
Proof.
  intros acts.
  rewrite (run_level_fresh acts GameStore.initialState) by reflexivity.
  set (exp := GameStore.villageExp _). intros Hlv.
  pose proof (levelExpMax_above exp Hlv) as Hlt.
  split; [exact Hlt |].
  set (mx := VillageTab.levelExpMax _) in *.
  assert (Hmx : 0 < mx).
  { unfold mx. rewrite calcVillageLevel_unfold.
    split_ltb exp; vm_compute; reflexivity. }
  unfold VillageTab.expBarRatio.
  apply Q.min_lt_iff. left.
  apply Qlt_shift_div_r.
  - change 0%Q with (inject_Z 0). rewrite <- Zlt_Qlt. exact Hmx.
  - rewrite Qmult_1_l. rewrite <- Zlt_Qlt. exact Hlt.
Qed.

Lemma expBar_below_full_witness :
  GameStore.villageExp
    (GameStore.run GameStore.initialState [GameStore.AddVillageExp 300])
  < VillageTab.levelExpMax
      (GameStore.villageLevel
         (GameStore.run GameStore.initialState [GameStore.AddVillageExp 300])).
Proof.
  apply (expBar_below_full [GameStore.AddVillageExp 300]).
  vm_compute. reflexivity.
Defined.

(** X7.  Buildings shown as unlocked only accumulate: the town hall is shown
    at every level the store can hold, a higher experience shows at least
    the buildings of a lower one, and from 1500 experience (level 5) all
    five default buildings are shown. *)
Theorem unlockedBuildings_grow :
  (forall exp,
     exists b, VillageTab.DEFAULT_BUILDINGS !! 0%nat = Some b
               /\ b ∈ VillageTab.unlockedBuildings
                        (GameStore.calcVillageLevel exp))
  /\ (forall e1 e2, e1 <= e2 ->
        VillageTab.unlockedBuildings (GameStore.calcVillageLevel e1)
        ⊆ VillageTab.unlockedBuildings (GameStore.calcVillageLevel e2))
  /\ (forall exp, 1500 <= exp ->
        VillageTab.unlockedBuildings (GameStore.calcVillageLevel exp)
        = VillageTab.DEFAULT_BUILDINGS).
Proof.
  split; [| split].
  - intros exp. eexists. split; [reflexivity |].
    apply (unlockedBuildings_mono 1); [apply calcVillageLevel_range |].
    vm_compute. left.
  - intros e1 e2 Hle. apply unlockedBuildings_mono, calcVillageLevel_mono, Hle.
  - intros exp Hexp. rewrite calcVillageLevel_unfold.
    split_ltb exp; vm_compute; reflexivity.
Qed.

Lemma unlockedBuildings_grow_witness :
  VillageTab.unlockedBuildings (GameStore.calcVillageLevel 120)
  ⊆ VillageTab.unlockedBuildings (GameStore.calcVillageLevel 600).
Proof.
  apply (proj1 (proj2 unlockedBuildings_grow) 120 600). lia.
Defined.

(* ===================================================================== *)
(** * The MIND diet score                                                 *)
(* ===================================================================== *)

Section MindScore.
Import HealthService.

Lemma Math_round_comp x y : (x == y)%Q -> Math_round x = Math_round y.
Proof. intros H. unfold Math_round. rewrite H. reflexivity. Qed.

(** A food that is not a [NaN] food adds its table points. *)
Lemma foodPoints_weight inherited food :
  nanFood inherited food = false ->
  foodPoints inherited MIND_FOOD_SCORES food
  = Some (default 0%Q (MIND_FOOD_SCORES !! food))
  /\ foodPoints inherited MIND_PENALTY_FOODS food
     = Some (default 0%Q (MIND_PENALTY_FOODS !! food)).
Proof.
  unfold nanFood, foodPoints. intros H.
  destruct (MIND_FOOD_SCORES !! food) as [p |] eqn:E1;
    destruct (MIND_PENALTY_FOODS !! food) as [q |] eqn:E2;
    destruct (inherited food); simpl in *;
    try discriminate; split; reflexivity.
Qed.

Lemma foodPoints_nan inherited food :
  nanFood inherited food = true ->
  foodPoints inherited MIND_FOOD_SCORES food = None
  \/ foodPoints inherited MIND_PENALTY_FOODS food = None.
Proof.
  unfold nanFood, foodPoints. intros H.
  destruct (MIND_FOOD_SCORES !! food) as [p |] eqn:E1;
    destruct (MIND_PENALTY_FOODS !! food) as [q |] eqn:E2;
    destruct (inherited food); simpl in *;
    try discriminate; auto.
Qed.

Lemma addFoods_total inherited foods :
  forall score,
    existsb (nanFood inherited) foods = false ->
    exists s, addFoods inherited foods score = Some s
              /\ (s == score + mealTotal foods)%Q.
Proof.
  induction foods as [| f rest IH]; intros score H; cbn [addFoods mealTotal].
  - exists score. split; [reflexivity |]. ring.
  - cbn [existsb] in H. apply orb_false_iff in H. destruct H as [Hf Hrest].
    destruct (foodPoints_weight inherited f Hf) as [-> ->].
    cbn [mbind option_bind].
    destruct (IH (score + default 0 (MIND_FOOD_SCORES !! f)
                  + default 0 (MIND_PENALTY_FOODS !! f))%Q Hrest)
      as (s & Es & Hs).
    exists s. split; [exact Es |]. rewrite Hs. unfold foodWeight. ring.
Qed.

Lemma addFoods_nan inherited foods :
  forall score,
    existsb (nanFood inherited) foods = true ->
    addFoods inherited foods score = None.
Proof.
  induction foods as [| f rest IH]; intros score H; cbn [addFoods existsb] in *.
  - discriminate.
  - destruct (nanFood inherited f) eqn:Hf.
    + destruct (foodPoints_nan inherited f Hf) as [-> | ->];
        cbn [mbind option_bind]; [reflexivity |].
      destruct (foodPoints inherited MIND_FOOD_SCORES f); reflexivity.
    + destruct (foodPoints_weight inherited f Hf) as [-> ->].
      cbn [mbind option_bind]. apply IH. exact H.
Qed.

(** [calcMindScore] in closed form. *)
Lemma calcMindScore_unfold inherited foods :
  calcMindScore inherited foods =
    if existsb (nanFood inherited) foods then None
    else Some (clampTenths (Math_round (mealTotal foods * 10))).
Proof.
  unfold calcMindScore.
  destruct (existsb (nanFood inherited) foods) eqn:E.
  - rewrite addFoods_nan by exact E. reflexivity.
  - destruct (addFoods_total inherited foods 0%Q E) as (s & -> & Hs).
    cbn [mbind option_bind].
    f_equal. f_equal. apply Math_round_comp. rewrite Hs. ring.
Qed.

Lemma clampTenths_range z : (0 <= clampTenths z)%Q /\ (clampTenths z <= 10)%Q.
Proof.
  unfold clampTenths. split.
  - apply Q.le_max_l.
  - apply Q.max_lub; [discriminate | apply Q.le_min_l].
Qed.

Lemma clampTenths_mono z1 z2 :
  z1 <= z2 -> (clampTenths z1 <= clampTenths z2)%Q.
Proof.
  intros H. unfold clampTenths.
  apply Q.max_le_compat_l, Q.min_le_compat_l.
  apply Qmult_le_compat_r; [| discriminate].
  rewrite <- Zle_Qle. exact H.
Qed.

(** The clamped score is a whole number of tenths. *)
Lemma clampTenths_tenths z :
  (clampTenths z == inject_Z (Z.max 0 (Z.min 100 z)) / 10)%Q.
Proof.
  unfold clampTenths.
  destruct (Q.min_spec 10 (inject_Z z / 10)) as [[H1 E1] | [H1 E1]];
    destruct (Q.max_spec 0 (Qmin 10 (inject_Z z / 10))) as [[H2 E2] | [H2 E2]];
    rewrite E2; rewrite E1 in H2; try rewrite E1;
    unfold Qlt, Qle in H1, H2; cbn in H1, H2; unfold Qeq; cbn; lia.
Qed.

Lemma mealTotal_app l1 l2 :
  (mealTotal (l1 ++ l2) == mealTotal l1 + mealTotal l2)%Q.
Proof.
  induction l1 as [| f l1 IH]; cbn [app mealTotal]; [ring |].
  rewrite IH. ring.
Qed.

Lemma mealTotal_perm l1 l2 : l1 ≡ₚ l2 -> (mealTotal l1 == mealTotal l2)%Q.
Proof.
  induction 1 as [| x l l' _ IH | x y l | l l' l'' _ IH1 _ IH2];
    cbn [mealTotal].
  - reflexivity.
  - rewrite IH. reflexivity.
  - ring.
  - rewrite IH1. exact IH2.
Qed.

Lemma existsb_perm {A} (f : A -> bool) l1 l2 :
  l1 ≡ₚ l2 -> existsb f l1 = existsb f l2.
Proof.
  induction 1 as [| x l l' _ IH | x y l | l l' l'' _ IH1 _ IH2]; cbn [existsb].
  - reflexivity.
  - rewrite IH. reflexivity.
  - destruct (f x), (f y); reflexivity.
  - congruence.
Qed.

(** Table facts, by evaluation of the two tables: the points of the MIND
    foods lie in (0, 1], the deductions in [-1, 0), and no food is in both
    tables. *)
Lemma MIND_FOOD_SCORES_entries :
  map_Forall (fun food p =>
                Qle_bool p 1 = true /\ Qle_bool p 0 = false
                /\ food ∉ dom MIND_PENALTY_FOODS) MIND_FOOD_SCORES.
Proof. refine (bool_decide_unpack _ _). vm_compute. exact I. Qed.

Lemma MIND_PENALTY_FOODS_entries :
  map_Forall (fun food p =>
                Qle_bool (-1) p = true /\ Qle_bool 0 p = false
                /\ food ∉ dom MIND_FOOD_SCORES) MIND_PENALTY_FOODS.
Proof. refine (bool_decide_unpack _ _). vm_compute. exact I. Qed.

Lemma foodWeight_cases food :
  (exists p, MIND_FOOD_SCORES !! food = Some p
             /\ (foodWeight food == p)%Q /\ (0 < p)%Q /\ (p <= 1)%Q)
  \/ (exists p, MIND_PENALTY_FOODS !! food = Some p
                /\ (foodWeight food == p)%Q /\ (p < 0)%Q /\ (-1 <= p)%Q)
  \/ (unknownFood food /\ (foodWeight food == 0)%Q).
Proof.
  unfold foodWeight, unknownFood.
  destruct (MIND_FOOD_SCORES !! food) as [p |] eqn:E1.
  - left. exists p.
    destruct (MIND_FOOD_SCORES_entries food p E1) as (H1 & H0 & Hd).
    apply not_elem_of_dom in Hd. rewrite Hd. cbn.
    split; [reflexivity |]. split; [ring |]. split.
    + apply Qle_bool_false. exact H0.
    + apply Qle_bool_iff. exact H1.
  - destruct (MIND_PENALTY_FOODS !! food) as [p |] eqn:E2.
    + right. left. exists p.
      destruct (MIND_PENALTY_FOODS_entries food p E2) as (H1 & H0 & _).
      cbn. split; [reflexivity |]. split; [ring |]. split.
      * apply Qle_bool_false. exact H0.
      * apply Qle_bool_iff. exact H1.
    + right. right. cbn. repeat split.
Qed.

Lemma foodWeight_le_1 food : (foodWeight food <= 1)%Q.
Proof.
  destruct (foodWeight_cases food)
    as [(p & _ & -> & _ & H) | [(p & _ & -> & H & _) | (_ & ->)]];
    [exact H | | discriminate].
  apply Qlt_le_weak. apply Qlt_trans with 0%Q; [exact H | reflexivity].
Qed.

Lemma mealTotal_le_length foods :
  (mealTotal foods <= inject_Z (Z.of_nat (length foods)))%Q.
Proof.
  induction foods as [| f rest IH]; cbn [mealTotal length]; [discriminate |].
  rewrite Nat2Z.inj_succ. unfold Z.succ. rewrite inject_Z_plus.
  rewrite (Qplus_comm (inject_Z (Z.of_nat (length rest)))).
  apply Qplus_le_compat; [apply foodWeight_le_1 | exact IH].
Qed.

Lemma calcFertilizer_mono v1 v2 :
  (v1 <= v2)%Q -> calcFertilizer v1 <= calcFertilizer v2.
Proof.
  intros H. unfold calcFertilizer.
  repeat match goal with
         | |- context [Qle_bool ?a v1] =>
             let E := fresh "E" in
             destruct (Qle_bool a v1) eqn:E;
             [apply Qle_bool_iff in E;
              assert (Qle_bool a v2 = true) as ->
                by (apply Qle_bool_iff; eapply Qle_trans; eassumption);
              try lia |]
         end;
    repeat match goal with
           | |- context [Qle_bool ?a v2] => destruct (Qle_bool a v2)
           end; lia.
Qed.

End MindScore.

(** X8.  A MIND score that is a number lies between 0 and 10, is a whole
    number of tenths, and is at most the number of foods listed (no food is
    worth more than one point). *)
Theorem mindScore_range :
  forall (inherited : string -> bool) (foods : list string) (v : Q),
    HealthService.calcMindScore inherited foods = Some v ->
    (0 <= v)%Q /\ (v <= 10)%Q
    /\ (exists tenths : Z, 0 <= tenths <= 100 /\ (v == inject_Z tenths / 10)%Q)
    /\ (v <= inject_Z (Z.of_nat (length foods)))%Q.
Proof.
  intros inherited foods v Hv.
  rewrite calcMindScore_unfold in Hv.
  destruct (existsb _ foods); [discriminate |]. inversion Hv; subst v; clear Hv.
  split; [apply clampTenths_range |]. split; [apply clampTenths_range |].
  split.
  - eexists. split; [| apply clampTenths_tenths]. lia.
  - rewrite clampTenths_tenths.
    set (n := Z.of_nat (length foods)).
    assert (Hr : Math_round (HealthService.mealTotal foods * 10) <= 10 * n).
    { rewrite <- (Math_round_Z (10 * n)). apply Math_round_mono.
      rewrite inject_Z_mult, (Qmult_comm (inject_Z 10)).
      apply Qmult_le_compat_r; [apply mealTotal_le_length | discriminate]. }
    assert (Hn : 0 <= n) by (unfold n; lia).
    set (r := Math_round _) in *.
    apply Qle_shift_div_r; [reflexivity |].
    change 10%Q with (inject_Z 10). rewrite <- inject_Z_mult, <- Zle_Qle. lia.
Qed.

Lemma mindScore_range_witness :
  exists v,
    HealthService.calcMindScore HealthService.inheritedName
      ["시금치"; "연어"; "라면"] = Some v
    /\ (0 <= v)%Q /\ (v <= 10)%Q.
Proof.
  eexists. split; [vm_compute; reflexivity |].
  match goal with
  | |- (0 <= ?v)%Q /\ _ =>
      destruct (mindScore_range HealthService.inheritedName
                  ["시금치"; "연어"; "라면"] v) as (H0 & H10 & _)
  end.
  - vm_compute. reflexivity.
  - split; assumption.
Defined.

(** X9.  The MIND score does not depend on the order in which the foods
    are listed. *)
Theorem mindScore_order_independent :
  forall (inherited : string -> bool) (foods foods' : list string),
    foods ≡ₚ foods' ->
    HealthService.calcMindScore inherited foods
    = HealthService.calcMindScore inherited foods'.
Proof.
  intros inherited foods foods' Hperm.
  rewrite !calcMindScore_unfold.
  rewrite (existsb_perm _ _ _ Hperm).
  destruct (existsb _ foods'); [reflexivity |].
  f_equal. f_equal. apply Math_round_comp.
  rewrite (mealTotal_perm _ _ Hperm). reflexivity.
Qed.

Lemma mindScore_order_independent_witness :
  HealthService.calcMindScore HealthService.inheritedName
    ["시금치"; "라면"; "호두"]
  = HealthService.calcMindScore HealthService.inheritedName
      ["호두"; "시금치"; "라면"].
Proof.
  apply mindScore_order_independent.
  change ["시금치"; "라면"; "호두"] with (["시금치"; "라면"] ++ ["호두"]).
  change ["호두"; "시금치"; "라면"] with (["호두"] ++ ["시금치"; "라면"]).
  apply Permutation_app_comm.
Defined.

(** X10.  A food that is in neither table and is no property name inherited
    from [Object.prototype] contributes nothing, wherever it stands in the
    list; a food whose name is inherited and missing from a table turns the
    whole score into [NaN], for which the fertilizer reward is 0. *)
Theorem mindScore_unknown_foods :
  (forall (inherited : string -> bool) (before after : list string)
          (food : string),
     HealthService.unknownFood food -> inherited food = false ->
     HealthService.calcMindScore inherited (before ++ food :: after)
     = HealthService.calcMindScore inherited (before ++ after))
  /\ (forall (inherited : string -> bool) (foods : list string)
             (food : string),
        HealthService.unknownFood food -> inherited food = true ->
        food ∈ foods ->
        HealthService.calcMindScore inherited foods = None
        /\ HealthService.calcFertilizer_of
             (HealthService.calcMindScore inherited foods) = 0).
Proof.
  split.
  - intros inherited before after food [Hs Hp] Hinh.
    rewrite !calcMindScore_unfold, !existsb_app. cbn [existsb].
    assert (Hnan : HealthService.nanFood inherited food = false)
      by (unfold HealthService.nanFood; rewrite Hinh; reflexivity).
    rewrite Hnan. cbn [orb].
    destruct (existsb _ before || existsb _ after); [reflexivity |].
    f_equal. f_equal. apply Math_round_comp.
    rewrite !mealTotal_app. cbn [HealthService.mealTotal].
    unfold HealthService.foodWeight. rewrite Hs, Hp. cbn. ring.
  - intros inherited foods food [Hs Hp] Hinh Hin.
    assert (Hnone : HealthService.calcMindScore inherited foods = None).
    { rewrite calcMindScore_unfold.
      assert (E : existsb (HealthService.nanFood inherited) foods = true).
      { apply existsb_exists. exists food. split.
        - apply list_elem_of_In, Hin.
        - unfold HealthService.nanFood. rewrite Hinh, Hs. reflexivity. }
      rewrite E. reflexivity. }
    rewrite Hnone. split; reflexivity.
Qed.

Lemma mindScore_unknown_foods_witness :
  HealthService.calcMindScore HealthService.inheritedName
    (["시금치"] ++ "pizza" :: ["연어"])
  = HealthService.calcMindScore HealthService.inheritedName
      (["시금치"] ++ ["연어"])
  /\ HealthService.calcMindScore HealthService.inheritedName
       ["시금치"; "constructor"] = None.
Proof.
  split.
  - apply (proj1 mindScore_unknown_foods); vm_compute; [split |]; reflexivity.
  - apply (proj2 mindScore_unknown_foods HealthService.inheritedName
             ["시금치"; "constructor"] "constructor").
    + vm_compute. split; reflexivity.
    + vm_compute. reflexivity.
    + right. left.
Defined.

Section MindScoreOrder.
Import HealthService.

(** Adding a food of non-negative weight does not lower the score, and one
    of non-positive weight does not raise it. *)
Lemma calcMindScore_add inherited foods food v :
  calcMindScore inherited foods = Some v ->
  nanFood inherited food = false ->
  exists v',
    calcMindScore inherited (food :: foods) = Some v'
    /\ ((0 <= foodWeight food)%Q -> (v <= v')%Q)
    /\ ((foodWeight food <= 0)%Q -> (v' <= v)%Q).
Proof.
  intros Hv Hnan. rewrite calcMindScore_unfold in Hv |- *.
  cbn [existsb]. rewrite Hnan. cbn [orb].
  destruct (existsb _ foods); [discriminate |].
  inversion Hv; subst v; clear Hv.
  eexists. split; [reflexivity |]. cbn [mealTotal].
  split; intros Hw; apply clampTenths_mono, Math_round_mono;
    (apply Qmult_le_compat_r; [| discriminate]).
  - rewrite <- (Qplus_0_l (mealTotal foods)) at 1.
    apply Qplus_le_l. exact Hw.
  - rewrite <- (Qplus_0_l (mealTotal foods)) at 2.
    apply Qplus_le_l. exact Hw.
Qed.

End MindScoreOrder.

(** X11.  Eating well never costs points: adding a food of the MIND table
    to a meal does not lower the MIND score or the fertilizer reward, and
    adding a food of the penalty table does not raise them. *)
Theorem mindScore_monotone :
  forall (inherited : string -> bool) (foods : list string) (food : string)
         (p v : Q),
    HealthService.calcMindScore inherited foods = Some v ->
    inherited food = false ->
    (HealthService.MIND_FOOD_SCORES !! food = Some p ->
     exists v',
       HealthService.calcMindScore inherited (food :: foods) = Some v'
       /\ (v <= v')%Q
       /\ HealthService.calcFertilizer v <= HealthService.calcFertilizer v')
    /\ (HealthService.MIND_PENALTY_FOODS !! food = Some p ->
        exists v',
          HealthService.calcMindScore inherited (food :: foods) = Some v'
          /\ (v' <= v)%Q
          /\ HealthService.calcFertilizer v' <= HealthService.calcFertilizer v).
Proof.
  intros inherited foods food p v Hv Hinh.
  assert (Hnan : HealthService.nanFood inherited food = false)
    by (unfold HealthService.nanFood; rewrite Hinh; reflexivity).
  destruct (calcMindScore_add inherited foods food v Hv Hnan)
    as (v' & Hv' & Hup & Hdown).
  split; intros Hp; exists v'; (split; [exact Hv' |]).
  - assert (Hle : (v <= v')%Q).
    { apply Hup.
      destruct (foodWeight_cases food)
        as [(q & _ & -> & Hq & _) | [(q & Hq & _) | ([Hq _] & _)]].
      - apply Qlt_le_weak, Hq.
      - destruct (MIND_PENALTY_FOODS_entries food q Hq) as (_ & _ & Hd).
        exfalso. apply Hd. apply elem_of_dom. eauto.
      - congruence. }
    split; [exact Hle | apply calcFertilizer_mono, Hle].
  - assert (Hle : (v' <= v)%Q).
    { apply Hdown.
      destruct (foodWeight_cases food)
        as [(q & Hq & _) | [(q & _ & -> & Hq & _) | ([_ Hq] & _)]].
      - destruct (MIND_FOOD_SCORES_entries food q Hq) as (_ & _ & Hd).
        exfalso. apply Hd. apply elem_of_dom. eauto.
      - apply Qlt_le_weak, Hq.
      - congruence. }
    split; [exact Hle | apply calcFertilizer_mono, Hle].
Qed.

Lemma mindScore_monotone_witness :
  exists v',
    HealthService.calcMindScore HealthService.inheritedName
      ["연어"; "시금치"; "라면"] = Some v'
    /\ (4 # 10 <= v')%Q.
Proof.
  destruct (proj1 (mindScore_monotone HealthService.inheritedName
                     ["시금치"; "라면"] "연어" 1 (4 # 10)
                     ltac:(vm_compute; reflexivity)
                     ltac:(vm_compute; reflexivity))
              ltac:(vm_compute; reflexivity))
    as (v' & Hv' & Hle & _).
  exists v'. split; [exact Hv' | exact Hle].
Defined.

(** X12.  A reward tier needs enough recognised foods: a MIND score reaching
    the whole number k takes at least k listed foods, so the top fertilizer
    reward of 5 takes at least 8 foods and any reward at all at least 2. *)
Theorem reward_needs_foods :
  forall (inherited : string -> bool) (foods : list string) (v : Q),
    HealthService.calcMindScore inherited foods = Some v ->
    (forall k : Z, (inject_Z k <= v)%Q -> k <= Z.of_nat (length foods))
    /\ (HealthService.calcFertilizer v = 5 -> (8 <= length foods)%nat)
    /\ (0 < HealthService.calcFertilizer v -> (2 <= length foods)%nat).
Proof.
  intros inherited foods v Hv.
  assert (Hlen : forall k : Z,
             (inject_Z k <= v)%Q -> k <= Z.of_nat (length foods)).
  { intros k Hk.
    rewrite calcMindScore_unfold in Hv.
    destruct (existsb _ foods); [discriminate |].
    inversion Hv; subst v; clear Hv.
    rewrite clampTenths_tenths in Hk.
    set (n := Z.of_nat (length foods)).
    assert (Hr : Math_round (HealthService.mealTotal foods * 10) <= 10 * n).
    { rewrite <- (Math_round_Z (10 * n)). apply Math_round_mono.
      rewrite inject_Z_mult, (Qmult_comm (inject_Z 10)).
      apply Qmult_le_compat_r; [apply mealTotal_le_length | discriminate]. }
    assert (Hn : 0 <= n) by (unfold n; lia).
    set (r := Math_round _) in *. clearbody r.
    unfold Qle, Qdiv, Qmult, Qinv, inject_Z in Hk. cbn in Hk. lia. }
  split; [exact Hlen |].
  unfold HealthService.calcFertilizer.
  split; intros H.
  - destruct (Qle_bool 8 v) eqn:E8.
    + apply Qle_bool_iff in E8. specialize (Hlen 8 E8). lia.
    + repeat match type of H with
             | context [Qle_bool ?a v] => destruct (Qle_bool a v)
             end; discriminate.
  - destruct (Qle_bool 2 v) eqn:E2.
    + apply Qle_bool_iff in E2. specialize (Hlen 2 E2). lia.
    + assert (Qle_bool 8 v = false /\ Qle_bool 6 v = false
              /\ Qle_bool 4 v = false) as (E8 & E6 & E4).
      { apply Qle_bool_false in E2.
        repeat split; apply Qle_bool_false;
          (eapply Qlt_trans; [exact E2 | reflexivity]). }
      rewrite E8, E6, E4 in H. lia.
Qed.

Lemma reward_needs_foods_witness :
  3 <= Z.of_nat (length ["시금치"; "연어"; "두부"; "현미"]).
Proof.
  apply (proj1 (reward_needs_foods HealthService.inheritedName
                  ["시금치"; "연어"; "두부"; "현미"] (37 # 10)
                  ltac:(vm_compute; reflexivity)) 3).
  unfold Qle. cbn. lia.
Defined.

(** X13.  The feedback line and the fertilizer reward move together: the
    praise for the best diet is shown exactly with the reward of 5, the
    second line exactly with the reward of 3, the third exactly with the
    reward of 2, and the last line with the rewards 1 and 0. *)
Theorem feedback_matches_reward :
  forall score : Q,
    (HealthService.getMindFeedback score = HealthService.getMindFeedback 8
     <-> HealthService.calcFertilizer score = 5)
    /\ (HealthService.getMindFeedback score = HealthService.getMindFeedback 6
        <-> HealthService.calcFertilizer score = 3)
    /\ (HealthService.getMindFeedback score = HealthService.getMindFeedback 4
        <-> HealthService.calcFertilizer score = 2)
    /\ (HealthService.getMindFeedback score = HealthService.getMindFeedback 0
        <-> HealthService.calcFertilizer score = 1
            \/ HealthService.calcFertilizer score = 0).
Proof.
  intros score.
  unfold HealthService.getMindFeedback at 1 3 5 7, HealthService.calcFertilizer.
  destruct (Qle_bool 8 score); [| destruct (Qle_bool 6 score);
    [| destruct (Qle_bool 4 score); [| destruct (Qle_bool 2 score)]]];
    vm_compute; repeat split; intros; auto;
    match goal with
    | H : _ |- _ => solve [inversion H]
    | H : _ \/ _ |- _ => destruct H as [H | H]; inversion H
    | _ => idtac
    end.
Qed.

Section DietCamera.
Import HealthService.

Lemma no_nanFood inherited foods :
  Forall (fun f => inherited f = false) foods ->
  existsb (nanFood inherited) foods = false.
Proof.
  induction 1 as [| f rest Hf _ IH]; cbn [existsb]; [reflexivity |].
  unfold nanFood at 1. rewrite Hf, IH. reflexivity.
Qed.

(** The score of a mock meal, whatever the engine inherits, as long as the
    meal names none of it. *)
Lemma mock_meal_score inherited foods :
  foods ∈ DietTab.allFoods ->
  (forall f, f ∈ foods -> inherited f = false) ->
  exists v,
    calcMindScore inherited foods = Some v
    /\ (0 <= v)%Q /\ (v < 4)%Q /\ 0 <= calcFertilizer v <= 1.
Proof.
  intros Hin Hinh.
  assert (E : calcMindScore inherited foods
              = Some (clampTenths (Math_round (mealTotal foods * 10)))).
  { rewrite calcMindScore_unfold, no_nanFood; [reflexivity |].
    apply Forall_forall. exact Hinh. }
  rewrite E. clear E Hinh. eexists. split; [reflexivity |].
  unfold DietTab.allFoods in Hin.
  repeat (apply elem_of_cons in Hin; destruct Hin as [-> | Hin];
          [vm_compute; repeat split; discriminate |]).
  apply elem_of_nil in Hin. contradiction.
Qed.

End DietCamera.

(** X14.  Whatever meal the demo analysis of the diet tab draws, a picture
    taken in the camera phase ends in the result phase, writes a diet score
    of at least 0 and below 4 with one of the seven mock meals, and adds at
    most one fertilizer: the reward tiers of 2 and more are out of reach on
    this path. *)
Theorem dietTab_picture_reward :
  forall (inherited : string -> bool) (rnd : Q) (uri : string)
         (s : DietTab.Screen),
    (forall foods f, foods ∈ DietTab.allFoods -> f ∈ foods ->
                     inherited f = false) ->
    unit_draw rnd ->
    DietTab.phase s = DietTab.camera ->
    exists s',
      DietTab.takePicture inherited true (Some uri) rnd s = Some s'
      /\ DietTab.phase s' = DietTab.result
      /\ (0 <= GameStore.dietScore (DietTab.store s'))%Q
      /\ (GameStore.dietScore (DietTab.store s') < 4)%Q
      /\ GameStore.lastAnalyzedFoods (DietTab.store s') ∈ DietTab.allFoods
      /\ GameStore.fertilizer (DietTab.store s)
         <= GameStore.fertilizer (DietTab.store s')
         <= GameStore.fertilizer (DietTab.store s) + 1.
Proof.
  intros inherited rnd uri s Hinh Hrnd Hph.
  unfold DietTab.takePicture. rewrite Hph. cbn [negb orb DietTab.phase_is_camera].
  destruct (lookup_lt_is_Some_2 DietTab.allFoods
              (random_index rnd (length DietTab.allFoods))) as [foods Hfoods].
  { apply random_index_lt; [exact Hrnd | simpl; lia]. }
  unfold DietTab.mockAnalyzeImage. rewrite Hfoods.
  apply list_elem_of_lookup_2 in Hfoods.
  destruct (mock_meal_score inherited foods Hfoods
              (fun f Hf => Hinh foods f Hfoods Hf))
    as (v & -> & H0 & H4 & Hfert).
  cbn [mbind option_bind]. eexists. split; [reflexivity |].
  cbn. repeat split; try assumption; lia.
Qed.

Lemma dietTab_picture_reward_witness :
  exists s',
    DietTab.takePicture HealthService.inheritedName true (Some "photo.jpg")
      (1 # 2)
      (DietTab.mkScreen DietTab.camera None None GameStore.initialState 0)
    = Some s'
    /\ DietTab.phase s' = DietTab.result
    /\ (GameStore.dietScore (DietTab.store s') < 4)%Q.
Proof.
  destruct (dietTab_picture_reward HealthService.inheritedName (1 # 2)
              "photo.jpg"
              (DietTab.mkScreen DietTab.camera None None
                 GameStore.initialState 0))
    as (s' & E & Hph & _ & H4 & _).
  - intros foods f Hfoods Hf. unfold DietTab.allFoods in Hfoods.
    repeat (apply elem_of_cons in Hfoods; destruct Hfoods as [-> | Hfoods];
            [repeat (apply elem_of_cons in Hf; destruct Hf as [-> | Hf];
                     [vm_compute; reflexivity |]);
             apply elem_of_nil in Hf; contradiction |]).
    apply elem_of_nil in Hfoods. contradiction.
  - split; [discriminate | reflexivity].
  - reflexivity.
  - exists s'. repeat split; assumption.
Defined.

(** X15.  A diet score computed by [calcMindScore] keeps the composite
    health score in range: written to a store with a positive walk goal and
    non-negative steps and cafe score, it gives a health score between 0
    and 100. *)
Theorem mindScore_keeps_healthScore_in_range :
  forall (inherited : string -> bool) (foods : list string) (v : Q)
         (s : GameStore.GameState),
    HealthService.calcMindScore inherited foods = Some v ->
    0 < GameStore.walkGoal s -> 0 <= GameStore.steps s ->
    0 <= GameStore.cafeScore s ->
    exists h,
      GameStore.selectHealthScore (GameStore.setDietScore v foods s) = Some h
      /\ 0 <= h <= 100.
Proof.
  intros inherited foods v s Hv Hg Hs Hc.
  rewrite calcMindScore_unfold in Hv.
  destruct (existsb _ foods); [discriminate |].
  inversion Hv; subst v; clear Hv.
  destruct (clampTenths_range
              (Math_round (HealthService.mealTotal foods * 10))) as [H0 H10].
  destruct (healthScore_blend
              (GameStore.setDietScore
                 (HealthService.clampTenths
                    (Math_round (HealthService.mealTotal foods * 10)))
                 foods s) Hg Hs H0 H10 Hc)
    as (c & E & Hc0 & Hc100 & _).
  exists (Math_round c). split; [exact E |].
  apply (Math_round_bounds c 0 100); assumption.
Qed.

Lemma mindScore_keeps_healthScore_in_range_witness :
  exists h,
    GameStore.selectHealthScore
      (GameStore.setDietScore (37 # 10) ["시금치"; "연어"; "두부"; "현미"]
         (GameStore.setSteps 3000 GameStore.initialState)) = Some h
    /\ 0 <= h <= 100.
Proof.
  apply (mindScore_keeps_healthScore_in_range HealthService.inheritedName
           ["시금치"; "연어"; "두부"; "현미"] (37 # 10)
           (GameStore.setSteps 3000 GameStore.initialState)).
  - vm_compute. reflexivity.
  - simpl. lia.
  - simpl. lia.
  - simpl. lia.
Defined.

(** * The barista game: rounds and scoring                                *)

Section Shuffle.
Import CafeTab.

Lemma shuffle_loop_perm {A : Type} (i : nat) :
  forall (a : list A) (rs : list Q),
    Forall unit_draw rs -> (i <= length rs)%nat ->
    (i = 0%nat \/ (i < length a)%nat) ->
    exists a',
      shuffle_loop i a rs = Some (a', drop i rs) /\ a' ≡ₚ a.
Proof.
  induction i as [| i IH]; intros a rs Hrs Hlen Hi.
  - exists a. split; [reflexivity | reflexivity].
  - destruct Hi as [Hi | Hi]; [discriminate |].
    destruct rs as [| r rest]; [simpl in Hlen; lia |].
    apply Forall_cons in Hrs as [Hr Hrest].
    assert (Hj : (random_index r (S (S i)) < S (S i))%nat)
      by (apply random_index_lt; [exact Hr | lia]).
    destruct (lookup_lt_is_Some_2 a (S i) Hi) as [ai Eai].
    destruct (lookup_lt_is_Some_2 a (random_index r (S (S i))))
      as [aj Eaj]; [lia |].
    destruct (IH (<[random_index r (S (S i)) := ai]> (<[S i := aj]> a)) rest)
      as (a' & E & Hperm).
    + exact Hrest.
    + simpl in Hlen. lia.
    + right. rewrite !length_insert. lia.
    + exists a'. split.
      * cbn [shuffle_loop]. unfold Rand_bind at 1. cbn [Math_random].
        unfold Rand_bind at 1. rewrite Eai. cbn [Rand_read].
        unfold Rand_bind at 1. rewrite Eaj. cbn [Rand_read].
        exact E.
      * rewrite Hperm. apply Permutation_insert_swap; assumption.
Qed.

Lemma shuffle_perm {A : Type} (arr : list A) (rs : list Q) :
  Forall unit_draw rs -> (length arr - 1 <= length rs)%nat ->
  exists a',
    shuffle arr rs = Some (a', drop (length arr - 1) rs) /\ a' ≡ₚ arr.
Proof.
  intros Hrs Hlen. apply shuffle_loop_perm; [assumption | assumption |].
  destruct arr; simpl; [left; reflexivity | right; lia].
Qed.

Lemma pick_in {A : Type} (arr : list A) (r : Q) (rest : list Q) :
  unit_draw r -> arr <> [] ->
  exists x, pick arr (r :: rest) = Some (x, rest) /\ x ∈ arr.
Proof.
  intros Hr Hne.
  destruct (lookup_lt_is_Some_2 arr (random_index r (length arr)))
    as [x Ex].
  { apply random_index_lt; [exact Hr |]. destruct arr; simpl; [done | lia]. }
  exists x. split.
  - unfold pick, Rand_bind. cbn [Math_random]. rewrite Ex. reflexivity.
  - eapply list_elem_of_lookup_2. exact Ex.
Qed.

Lemma MENU_ITEMS_ids_distinct : NoDup (id <$> MENU_ITEMS).
Proof. refine (bool_decide_unpack _ _). vm_compute. exact I. Qed.

Lemma others_length (m : MenuItem) :
  m ∈ MENU_ITEMS ->
  length (filter (fun x => id x <> id m) MENU_ITEMS) = 7%nat.
Proof.
  unfold MENU_ITEMS. intros Hm.
  repeat (apply elem_of_cons in Hm; destruct Hm as [-> | Hm];
          [vm_compute; reflexivity |]).
  apply elem_of_nil in Hm. contradiction.
Qed.

End Shuffle.

Section Rounds.
Import CafeTab.

Lemma others_facts (m : MenuItem) (sh : list MenuItem) :
  sh ≡ₚ filter (fun x => id x <> id m) MENU_ITEMS ->
  NoDup (id <$> (m :: take 3 sh))
  /\ (m ∈ MENU_ITEMS -> forall x, x ∈ m :: take 3 sh -> x ∈ MENU_ITEMS).
Proof.
  intros Hperm.
  assert (Hin : forall x, x ∈ take 3 sh -> id x <> id m /\ x ∈ MENU_ITEMS).
  { intros x Hx. apply (elem_of_sublist _ sh) in Hx; [| apply sublist_take].
    rewrite Hperm in Hx. apply list_elem_of_filter in Hx. exact Hx. }
  split.
  - rewrite fmap_cons. apply NoDup_cons. split.
    + intros Hm. apply list_elem_of_fmap in Hm as (x & Ex & Hx).
      destruct (Hin x Hx) as [Hne _]. congruence.
    + apply (sublist_NoDup _ (id <$> sh));
        [| apply fmap_sublist; apply sublist_take].
      rewrite Hperm.
      apply (sublist_NoDup _ (id <$> MENU_ITEMS));
        [| apply fmap_sublist; apply sublist_filter].
      exact MENU_ITEMS_ids_distinct.
  - intros Hm x Hx. apply elem_of_cons in Hx as [-> | Hx]; [exact Hm |].
    apply Hin. exact Hx.
Qed.

Lemma generateRound_runs (rs : list Q) :
  Forall unit_draw rs -> (12 <= length rs)%nat ->
  exists r,
    generateRound rs = Some (r, drop 12 rs)
    /\ customer r ∈ CUSTOMERS
    /\ correctItem r ∈ MENU_ITEMS
    /\ distractorText r ∈ DISTRACTOR_LINES
    /\ length (allChoices r) = 4%nat
    /\ NoDup (id <$> allChoices r)
    /\ correctItem r ∈ allChoices r
    /\ (forall x, x ∈ allChoices r -> x ∈ MENU_ITEMS).
Proof.
  intros Hrs Hlen.
  destruct rs as [| r1 [| r2 [| r3 rs3]]]; try (simpl in Hlen; lia).
  apply Forall_cons in Hrs as [H1 Hrs].
  apply Forall_cons in Hrs as [H2 Hrs].
  apply Forall_cons in Hrs as [H3 Hrs].
  destruct (pick_in CUSTOMERS r1 (r2 :: r3 :: rs3) H1) as (c & Ec & Hc);
    [discriminate |].
  destruct (pick_in MENU_ITEMS r2 (r3 :: rs3) H2) as (m & Em & Hm);
    [discriminate |].
  destruct (pick_in DISTRACTOR_LINES r3 rs3 H3) as (d & Ed & Hd);
    [discriminate |].
  pose proof (others_length m Hm) as Hlen7.
  destruct (shuffle_perm (filter (fun x => id x <> id m) MENU_ITEMS) rs3)
    as (sh & Esh & Hsh); [exact Hrs | simpl in Hlen; lia |].
  rewrite Hlen7 in Esh. change (7 - 1)%nat with 6%nat in Esh.
  assert (Hsh7 : length sh = 7%nat)
    by (rewrite (Permutation_length Hsh); exact Hlen7).
  assert (Hlen4 : length (m :: take 3 sh) = 4%nat)
    by (cbn [length]; rewrite length_take_le; lia).
  destruct (shuffle_perm (m :: take 3 sh) (drop 6 rs3))
    as (ch & Ech & Hch).
  { apply Forall_drop. exact Hrs. }
  { rewrite Hlen4, length_drop. simpl in Hlen. lia. }
  rewrite Hlen4 in Ech. change (4 - 1)%nat with 3%nat in Ech.
  rewrite drop_drop in Ech.
  destruct (others_facts m sh Hsh) as [Hnodup Hmenu].
  exists (mkRound c m d ch). split.
  - unfold generateRound.
    unfold Rand_bind at 1. rewrite Ec.
    unfold Rand_bind at 1. rewrite Em.
    unfold Rand_bind at 1. rewrite Ed.
    unfold Rand_bind at 1. rewrite Esh.
    unfold Rand_bind at 1. rewrite Ech.
    reflexivity.
  - cbn [customer correctItem distractorText allChoices].
    repeat split; try assumption.
    + rewrite (Permutation_length Hch). exact Hlen4.
    + rewrite Hch. exact Hnodup.
    + rewrite Hch. left.
    + intros x Hx. rewrite Hch in Hx. apply Hmenu; assumption.
Qed.

End Rounds.

(** X16.  [shuffle] of the barista game returns a permutation of its
    argument and uses one random draw for each position but the first;
    lists of length 0 and 1 come back unchanged without a draw. *)
Theorem shuffle_is_permutation :
  forall (A : Type) (arr : list A) (rs : list Q),
    Forall unit_draw rs -> (length arr - 1 <= length rs)%nat ->
    exists a',
      CafeTab.shuffle arr rs = Some (a', drop (length arr - 1) rs)
      /\ a' ≡ₚ arr
      /\ ((length arr <= 1)%nat -> a' = arr).
Proof.
  intros A arr rs Hrs Hlen.
  destruct (shuffle_perm arr rs Hrs Hlen) as (a' & E & Hperm).
  exists a'. repeat split; try assumption.
  intros Hshort. unfold CafeTab.shuffle in E.
  replace (length arr - 1)%nat with 0%nat in E by lia.
  cbn [CafeTab.shuffle_loop] in E. unfold CafeTab.Rand_ret in E.
  injection E as E1. symmetry. exact E1.
Qed.

Lemma shuffle_is_permutation_witness :
  exists a',
    CafeTab.shuffle [1; 2; 3; 4] [1 # 2; 0; 9 # 10; 1 # 3]%Q
    = Some (a', [1 # 3]%Q)
    /\ a' ≡ₚ [1; 2; 3; 4].
Proof.
  destruct (shuffle_is_permutation Z [1; 2; 3; 4]
              [1 # 2; 0; 9 # 10; 1 # 3]%Q) as (a' & E & Hperm & _).
  - repeat constructor; discriminate.
  - simpl. lia.
  - exists a'. split; [exact E | exact Hperm].
Defined.

(** X17.  [generateRound] of the barista game, on any twelve draws of
    [Math.random()]: it uses exactly the twelve, the customer, the ordered
    item and the distractor line come from their tables, and the choices
    offered are four menu items with distinct ids, one of which is the
    ordered item; so exactly one button of the round is right. *)
Theorem generateRound_choices :
  forall rs : list Q,
    Forall unit_draw rs -> (12 <= length rs)%nat ->
    exists r,
      CafeTab.generateRound rs = Some (r, drop 12 rs)
      /\ CafeTab.customer r ∈ CafeTab.CUSTOMERS
      /\ CafeTab.correctItem r ∈ CafeTab.MENU_ITEMS
      /\ CafeTab.distractorText r ∈ CafeTab.DISTRACTOR_LINES
      /\ length (CafeTab.allChoices r) = 4%nat
      /\ NoDup (CafeTab.id <$> CafeTab.allChoices r)
      /\ (forall x, x ∈ CafeTab.allChoices r -> x ∈ CafeTab.MENU_ITEMS)
      /\ length (filter (fun x => CafeTab.id x
                                  = CafeTab.id (CafeTab.correctItem r))
                        (CafeTab.allChoices r)) = 1%nat.
Proof.
  intros rs Hrs Hlen.
  destruct (generateRound_runs rs Hrs Hlen)
    as (r & E & Hc & Hm & Hd & H4 & Hnodup & Hin & Hmenu).
  exists r. repeat split; try assumption.
  clear E H4 Hmenu Hc Hm Hd. revert Hnodup Hin.
  generalize (CafeTab.allChoices r) as l.
  induction l as [| x l IH]; intros Hnodup Hin; [inversion Hin |].
  rewrite fmap_cons in Hnodup. apply NoDup_cons in Hnodup as [Hx Hl].
  rewrite filter_cons.
  destruct (decide (CafeTab.id x = CafeTab.id (CafeTab.correctItem r)))
    as [Eid | Nid].
  - cbn [length]. f_equal.
    destruct (filter _ l) as [| y l'] eqn:Ef; [reflexivity |].
    assert (Hy : y ∈ filter (fun x => CafeTab.id x
                                      = CafeTab.id (CafeTab.correctItem r)) l)
      by (rewrite Ef; left).
    apply list_elem_of_filter in Hy as [Ey Hy].
    exfalso. apply Hx. rewrite Eid, <- Ey.
    apply list_elem_of_fmap. exists y. split; [reflexivity | exact Hy].
  - apply IH; [exact Hl |].
    apply elem_of_cons in Hin as [E | Hin]; [| exact Hin].
    exfalso. apply Nid. rewrite E. reflexivity.
Qed.

Lemma generateRound_choices_witness :
  exists r,
    CafeTab.generateRound
      [0; 1 # 2; 1 # 3; 9 # 10; 0; 1 # 2; 1 # 4; 3 # 4; 0; 1 # 2; 0;
       2 # 3]%Q = Some (r, [])
    /\ length (CafeTab.allChoices r) = 4%nat
    /\ NoDup (CafeTab.id <$> CafeTab.allChoices r).
Proof.
  destruct (generateRound_choices
              [0; 1 # 2; 1 # 3; 9 # 10; 0; 1 # 2; 1 # 4; 3 # 4; 0; 1 # 2; 0;
               2 # 3]%Q) as (r & E & _ & _ & _ & H4 & Hnodup & _).
  - repeat constructor; discriminate.
  - simpl. lia.
  - exists r. repeat split; assumption.
Defined.

Section BaristaGame.
Import CafeTab.

(** [selectMenu] either returns at its guard or records the answer. *)
Lemma selectMenu_guard itemId s :
  selectMenu itemId s = s
  \/ (phase s = choosing /\ selectedId s = None
      /\ phase (selectMenu itemId s) = feedback
      /\ selectedId (selectMenu itemId s) = Some itemId).
Proof.
  unfold selectMenu.
  destruct (phase s); cbn [phase_is_choosing]; auto.
  destruct (selectedId s); auto.
  destruct (rounds s !! currentRound s); auto.
Qed.

End BaristaGame.

(** X18.  A round of the barista game takes one answer: once a menu button
    has been handled, a further tap changes nothing, whatever the item, and
    a tap outside the choosing phase changes nothing either.  A handled
    answer adds 10 to the cafe score when it names the ordered item and
    nothing otherwise. *)
Theorem cafeTab_one_answer_per_round :
  forall (s : CafeTab.Screen) (first second : string),
    CafeTab.selectMenu second (CafeTab.selectMenu first s)
    = CafeTab.selectMenu first s
    /\ (CafeTab.phase s <> CafeTab.choosing ->
        CafeTab.selectMenu first s = s)
    /\ (forall r,
          CafeTab.phase s = CafeTab.choosing ->
          CafeTab.selectedId s = None ->
          CafeTab.rounds s !! CafeTab.currentRound s = Some r ->
          GameStore.cafeScore (CafeTab.store (CafeTab.selectMenu first s))
          = GameStore.cafeScore (CafeTab.store s)
            + (if String.eqb first (CafeTab.id (CafeTab.correctItem r))
               then 10 else 0)).
Proof.
  intros s first second. repeat split.
  - destruct (selectMenu_guard first s) as [E | (Hp & Hs & Hp' & Hs')].
    + rewrite E. unfold CafeTab.selectMenu.
      unfold CafeTab.selectMenu in E.
      destruct (CafeTab.phase s) eqn:Ep; cbn [CafeTab.phase_is_choosing] in *;
        try reflexivity.
      destruct (CafeTab.selectedId s) eqn:Es; try reflexivity.
      destruct (CafeTab.rounds s !! CafeTab.currentRound s) eqn:Er;
        try reflexivity.
      apply (f_equal CafeTab.phase) in E. cbn in E. rewrite Ep in E.
      discriminate.
    + unfold CafeTab.selectMenu at 1. rewrite Hp'.
      reflexivity.
  - intros Hp. unfold CafeTab.selectMenu.
    destruct (CafeTab.phase s); cbn [CafeTab.phase_is_choosing];
      try reflexivity.
    contradiction.
  - intros r Hp Hs Hr. unfold CafeTab.selectMenu. rewrite Hp, Hs, Hr.
    cbn [CafeTab.phase_is_choosing].
    destruct (String.eqb first _); cbn; lia.
Qed.

Lemma cafeTab_one_answer_per_round_witness :
  GameStore.cafeScore
    (CafeTab.store
       (CafeTab.selectMenu "cafe_latte"
          (CafeTab.mkScreen CafeTab.choosing 0
             [CafeTab.mkRound (CafeTab.mkCustomer "솜이" "🐰" "수다스러운")
                (CafeTab.mkMenuItem "cafe_latte" "카페라떼" "🥛☕")
                "이 카페 음악이 참 좋네요!" []]
             None 0 false false None None GameStore.initialState))) = 10.
Proof.
  apply (proj2 (proj2 (cafeTab_one_answer_per_round
                         (CafeTab.mkScreen CafeTab.choosing 0
                            [CafeTab.mkRound
                               (CafeTab.mkCustomer "솜이" "🐰" "수다스러운")
                               (CafeTab.mkMenuItem "cafe_latte" "카페라떼"
                                                   "🥛☕")
                               "이 카페 음악이 참 좋네요!" []]
                            None 0 false false None None
                            GameStore.initialState)
                         "cafe_latte" "cappuccino"))
           (CafeTab.mkRound (CafeTab.mkCustomer "솜이" "🐰" "수다스러운")
              (CafeTab.mkMenuItem "cafe_latte" "카페라떼" "🥛☕")
              "이 카페 음악이 참 좋네요!" [])).
  - reflexivity.
  - reflexivity.
  - reflexivity.
Defined.

(** X19.  A whole game of the barista tab: started from the ready or the
    result screen with three rounds, and played with one answer per round,
    it ends on the result screen with [sessionCorrect] the number of right
    answers [n]; the store has gained [10 * n] cafe score and [10 * n]
    village experience, the streak counts the right answers of this game,
    and the village level is the one of the new experience. *)
Theorem cafeTab_game_accounting :
  forall (s : CafeTab.Screen) (r0 r1 r2 : CafeTab.Round)
         (c0 c1 c2 : string),
    CafeTab.phase s = CafeTab.ready \/ CafeTab.phase s = CafeTab.result ->
    let playRound c :=
      [CafeTab.TtsDone; CafeTab.TtsDone; CafeTab.SelectMenu c;
       CafeTab.FeedbackTimeout] in
    let final :=
      CafeTab.run s (CafeTab.StartGame r0 r1 r2
                     :: playRound c0 ++ playRound c1 ++ playRound c2) in
    let right (c : string) (r : CafeTab.Round) : Z :=
      if String.eqb c (CafeTab.id (CafeTab.correctItem r)) then 1 else 0 in
    let n := right c0 r0 + right c1 r1 + right c2 r2 in
    CafeTab.phase final = CafeTab.result
    /\ CafeTab.sessionCorrect final = n
    /\ CafeTab.feedbackTimer final = None
    /\ GameStore.cafeScore (CafeTab.store final)
       = GameStore.cafeScore (CafeTab.store s) + 10 * n
    /\ GameStore.cafeStreak (CafeTab.store final) = n
    /\ GameStore.villageExp (CafeTab.store final)
       = GameStore.villageExp (CafeTab.store s) + 10 * n
    /\ GameStore.villageLevel (CafeTab.store final)
       = GameStore.calcVillageLevel
           (GameStore.villageExp (CafeTab.store s) + 10 * n).
Proof.
  intros s r0 r1 r2 c0 c1 c2 Hp playRound final right n.
  subst final n right playRound. unfold CafeTab.run.
  cbn [app fold_left CafeTab.step].
  assert (E : match CafeTab.phase s with
              | CafeTab.ready | CafeTab.result => CafeTab.startGame r0 r1 r2 s
              | _ => s
              end = CafeTab.startGame r0 r1 r2 s)
    by (destruct Hp as [-> | ->]; reflexivity).
  rewrite E. clear E Hp.
  destruct (String.eqb c0 (CafeTab.id (CafeTab.correctItem r0))) eqn:E0;
    destruct (String.eqb c1 (CafeTab.id (CafeTab.correctItem r1))) eqn:E1;
    destruct (String.eqb c2 (CafeTab.id (CafeTab.correctItem r2))) eqn:E2;
    cbn -[GameStore.calcVillageLevel Z.add Z.mul String.eqb];
    rewrite ?E0; cbn -[GameStore.calcVillageLevel Z.add Z.mul String.eqb];
    rewrite ?E1; cbn -[GameStore.calcVillageLevel Z.add Z.mul String.eqb];
    rewrite ?E2; cbn -[GameStore.calcVillageLevel Z.add Z.mul String.eqb];
    repeat split; try lia; f_equal; lia.
Qed.

Lemma cafeTab_game_accounting_witness :
  CafeTab.sessionCorrect
    (CafeTab.run CafeTab.initialScreen
       [CafeTab.StartGame
          (CafeTab.mkRound (CafeTab.mkCustomer "솜이" "🐰" "수다스러운")
             (CafeTab.mkMenuItem "cafe_latte" "카페라떼" "🥛☕")
             "이 카페 음악이 참 좋네요!" [])
          (CafeTab.mkRound (CafeTab.mkCustomer "솜이" "🐰" "수다스러운")
             (CafeTab.mkMenuItem "cafe_latte" "카페라떼" "🥛☕")
             "이 카페 음악이 참 좋네요!" [])
          (CafeTab.mkRound (CafeTab.mkCustomer "솜이" "🐰" "수다스러운")
             (CafeTab.mkMenuItem "cafe_latte" "카페라떼" "🥛☕")
             "이 카페 음악이 참 좋네요!" []);
        CafeTab.TtsDone; CafeTab.TtsDone; CafeTab.SelectMenu "cafe_latte";
        CafeTab.FeedbackTimeout;
        CafeTab.TtsDone; CafeTab.TtsDone; CafeTab.SelectMenu "cappuccino";
        CafeTab.FeedbackTimeout;
        CafeTab.TtsDone; CafeTab.TtsDone; CafeTab.SelectMenu "cafe_latte";
        CafeTab.FeedbackTimeout]) = 2.
Proof.
  apply (cafeTab_game_accounting CafeTab.initialScreen
           (CafeTab.mkRound (CafeTab.mkCustomer "솜이" "🐰" "수다스러운")
             (CafeTab.mkMenuItem "cafe_latte" "카페라떼" "🥛☕")
             "이 카페 음악이 참 좋네요!" [])
           (CafeTab.mkRound (CafeTab.mkCustomer "솜이" "🐰" "수다스러운")
             (CafeTab.mkMenuItem "cafe_latte" "카페라떼" "🥛☕")
             "이 카페 음악이 참 좋네요!" [])
           (CafeTab.mkRound (CafeTab.mkCustomer "솜이" "🐰" "수다스러운")
             (CafeTab.mkMenuItem "cafe_latte" "카페라떼" "🥛☕")
             "이 카페 음악이 참 좋네요!" [])
           "cafe_latte" "cappuccino" "cafe_latte").
  left. reflexivity.
Defined.

(** * The walk tab: sessions and quiz answers                             *)

Section WalkTabSessions.
Import WalkTab.

Lemma getRandomQuiz_from_catalog catalog rnd (used : gset string) q used' :
  PedometerService.getRandomQuiz_from catalog rnd used = Some (q, used') ->
  q ∈ catalog
  /\ (used' = ∅ \/ used' = used ∪ {[ PedometerService.id q ]}).
Proof.
  unfold PedometerService.getRandomQuiz_from.
  destruct (Nat.eqb _ 0).
  - destruct (catalog !! 0%nat) as [q0 |] eqn:E0; cbn; intros H; inversion H.
    subst. split; [| left; reflexivity].
    eapply list_elem_of_lookup_2. exact E0.
  - destruct (PedometerService.unusedQuizzes catalog used !! _)
      as [q0 |] eqn:E0; cbn; intros H; inversion H.
    subst. split; [| right; reflexivity].
    apply list_elem_of_lookup_2 in E0.
    unfold PedometerService.unusedQuizzes in E0.
    apply list_elem_of_filter in E0. tauto.
Qed.

(** What one delivered reading leaves alone, and what it does to the quiz
    card. *)
Lemma sensorTick_frame tick w :
  subscribed w = true -> unit_draw (snd tick) ->
  exists w',
    sensorTick tick w = Some w'
    /\ pedometerAvailable w' = pedometerAvailable w
    /\ subscribed w' = true
    /\ isTracking w' = isTracking w
    /\ GameStore.steps (store w') = fst tick
    /\ GameStore.quizHistory (store w')
       = GameStore.quizHistory (store w)
    /\ (let c := fst tick / 1000 * 1000 in
        if (PedometerService.lastQuizMilestone (service w) <? c) && (0 <? c)
        then exists quiz,
               quiz ∈ PedometerService.FALLBACK_QUIZZES
               /\ quizState w' = Playing quiz
               /\ PedometerService.lastQuizMilestone (service w') = c
        else quizState w' = quizState w
             /\ PedometerService.lastQuizMilestone (service w')
                = PedometerService.lastQuizMilestone (service w)
             /\ PedometerService.usedQuizIds (service w')
                = PedometerService.usedQuizIds (service w)).
Proof.
  intros Hsub Hrnd. unfold sensorTick. rewrite Hsub. cbn [negb].
  destruct tick as [steps rnd]. cbn [fst snd] in *.
  unfold PedometerService.onSensor, PedometerService._handleStepUpdate.
  cbn [PedometerService.lastQuizMilestone PedometerService.usedQuizIds
       PedometerService.currentSteps].
  change PedometerService.QUIZ_INTERVAL with 1000.
  destruct ((PedometerService.lastQuizMilestone (service w)
             <? steps / 1000 * 1000) && (0 <? steps / 1000 * 1000)) eqn:Efire.
  - unfold triggerQuiz. cbn [service].
    match goal with
    | |- context [PedometerService.getRandomQuiz rnd ?sv] =>
        destruct (getRandomQuiz_never_throws rnd sv Hrnd) as [[q sv'] Hq];
        rewrite Hq
    end.
    cbn [mbind option_bind]. eexists. split; [reflexivity |].
    unfold PedometerService.getRandomQuiz in Hq.
    cbn [PedometerService.usedQuizIds PedometerService.currentSteps
         PedometerService.lastQuizMilestone] in Hq.
    destruct (PedometerService.getRandomQuiz_from _ rnd _)
      as [[q0 used'] |] eqn:Eq; [| discriminate].
    cbn in Hq. inversion Hq; subst q0 sv'; clear Hq.
    apply getRandomQuiz_from_catalog in Eq as [Hin _].
    unfold onStep. cbn [PedometerService.goalReached
                        PedometerService.payload_steps rewardGivenRef
                        store service pedometerAvailable subscribed
                        isTracking quizState goalAlerts].
    destruct (_ && negb (rewardGivenRef w)); cbn;
      (repeat split; try reflexivity; exists q; repeat split; assumption).
  - cbn [mbind option_bind]. eexists. split; [reflexivity |].
    unfold onStep. cbn [PedometerService.goalReached
                        PedometerService.payload_steps rewardGivenRef
                        store service pedometerAvailable subscribed
                        isTracking quizState goalAlerts].
    destruct (_ && negb (rewardGivenRef w)); cbn; repeat split; reflexivity.
Qed.

Lemma sensorTicks_frame ticks :
  forall w,
    subscribed w = true -> Forall (fun t => unit_draw (snd t)) ticks ->
    exists w',
      sensorTicks ticks w = Some w'
      /\ pedometerAvailable w' = pedometerAvailable w
      /\ subscribed w' = true
      /\ GameStore.quizHistory (store w')
         = GameStore.quizHistory (store w).
Proof.
  induction ticks as [| t rest IH]; intros w Hsub Hall.
  - exists w. repeat split. exact Hsub.
  - inversion Hall as [| ? ? Ht Hrest]; subst.
    destruct (sensorTick_frame t w Hsub Ht)
      as (w1 & E1 & Hav1 & Hsub1 & _ & _ & Hq1 & _).
    destruct (IH w1 Hsub1 Hrest) as (w' & E' & Hav' & Hsub' & Hq').
    exists w'. cbn [sensorTicks]. rewrite E1. cbn [mbind option_bind].
    repeat split; try assumption; congruence.
Qed.

Lemma sensorTicks_unsubscribed ticks w :
  subscribed w = false -> sensorTicks ticks w = Some w.
Proof.
  intros Hsub. induction ticks as [| t rest IH]; [reflexivity |].
  cbn [sensorTicks]. unfold sensorTick. rewrite Hsub. cbn. exact IH.
Qed.

End WalkTabSessions.

(** X20.  The walk tab grants the goal reward once for each tracking
    session in which a reading reaches 5000: over any number of sessions
    (start, readings, stop) the landscape items and the goal dialogs grow
    by the number of sessions that saw the goal, because [startTracking]
    lowers the guard again.  Readings that arrive with no subscription
    change nothing. *)
Theorem walkTab_reward_per_tracking :
  forall (sessions : list (list (Z * Q))) (w : WalkTab.Screen),
    WalkTab.pedometerAvailable w = true ->
    Forall (Forall (fun t => unit_draw (snd t))) sessions ->
    exists w',
      WalkTab.trackingSessions sessions w = Some w'
      /\ GameStore.landscapeItems (WalkTab.store w')
         = GameStore.landscapeItems (WalkTab.store w)
           + Z.of_nat (length (List.filter (existsb WalkTab.reachesGoal)
                                           sessions))
      /\ WalkTab.goalAlerts w'
         = (WalkTab.goalAlerts w
            + length (List.filter (existsb WalkTab.reachesGoal) sessions))%nat
      /\ (forall ticks,
            WalkTab.sensorTicks ticks (WalkTab.stopTracking w')
            = Some (WalkTab.stopTracking w')).
Proof.
  induction sessions as [| ticks rest IH]; intros w Hav Hall.
  - exists w. cbn. repeat split; try lia.
    intros ticks. apply sensorTicks_unsubscribed. reflexivity.
  - inversion Hall as [| ? ? Hticks Hrest]; subst.
    destruct (walkTab_reward_once w ticks Hav Hticks) as (w1 & E1 & Ha1 & Hl1).
    destruct (sensorTicks_frame ticks (WalkTab.startTracking w))
      as (w1' & E1' & Hav1 & _).
    { unfold WalkTab.startTracking. rewrite Hav. reflexivity. }
    { exact Hticks. }
    rewrite E1 in E1'. inversion E1'; subst w1'; clear E1'.
    assert (Hav1' : WalkTab.pedometerAvailable (WalkTab.stopTracking w1)
                    = true).
    { cbn. rewrite Hav1. unfold WalkTab.startTracking. rewrite Hav.
      reflexivity. }
    destruct (IH (WalkTab.stopTracking w1) Hav1' Hrest)
      as (w' & E' & Hl' & Ha' & Hstop).
    exists w'. cbn [WalkTab.trackingSessions List.filter].
    rewrite E1. cbn [mbind option_bind].
    split; [exact E' |].
    cbn [WalkTab.stopTracking WalkTab.store WalkTab.goalAlerts] in Hl', Ha'.
    rewrite Hl', Ha', Hl1, Ha1.
    destruct (existsb WalkTab.reachesGoal ticks); cbn [length];
      repeat split; try lia; exact Hstop.
Qed.

Lemma walkTab_reward_per_tracking_witness :
  exists w',
    WalkTab.trackingSessions
      [[(4000, (1 # 2)%Q); (5200, 0%Q)]; [(300, 0%Q)]; [(5000, (1 # 3)%Q)]]
      (WalkTab.initialScreen true) = Some w'
    /\ GameStore.landscapeItems (WalkTab.store w') = 2.
Proof.
  destruct (walkTab_reward_per_tracking
              [[(4000, (1 # 2)%Q); (5200, 0%Q)]; [(300, 0%Q)]; [(5000, (1 # 3)%Q)]]
              (WalkTab.initialScreen true)) as (w' & E & Hl & _).
  - reflexivity.
  - repeat constructor; discriminate.
  - exists w'. split; [exact E | exact Hl].
Defined.

Section WalkTabAnswers.
Import WalkTab.

Lemma selectAnswer_playing choice now w quiz :
  quizState w = Playing quiz ->
  selectAnswer choice now w
  = mkScreen
      (GameStore.addQuizRecord
         (GameStore.mkQuizRecord (PedometerService.question quiz) choice
            (String.eqb choice (PedometerService.answer quiz)) now)
         (store w))
      (service w) (pedometerAvailable w) (subscribed w) (isTracking w)
      (Answered quiz choice
         (String.eqb choice (PedometerService.answer quiz)))
      (rewardGivenRef w) (goalAlerts w).
Proof. intros E. unfold selectAnswer. rewrite E. reflexivity. Qed.

Lemma selectAnswer_not_playing choice now w :
  (forall quiz, quizState w <> Playing quiz) ->
  selectAnswer choice now w = w.
Proof.
  intros H. unfold selectAnswer.
  destruct (quizState w) as [| quiz | ? ? ?] eqn:E; try reflexivity.
  exfalso. exact (H quiz eq_refl).
Qed.

Lemma FALLBACK_QUIZZES_choices quiz :
  quiz ∈ PedometerService.FALLBACK_QUIZZES ->
  length (PedometerService.choices quiz) = 4%nat
  /\ NoDup (PedometerService.choices quiz)
  /\ PedometerService.answer quiz ∈ PedometerService.choices quiz.
Proof.
  unfold PedometerService.FALLBACK_QUIZZES. intros Hq.
  repeat (apply elem_of_cons in Hq; destruct Hq as [-> | Hq];
          [cbn [PedometerService.choices PedometerService.answer];
           split; [reflexivity |];
           split; [refine (bool_decide_unpack _ _); vm_compute; exact I |];
           refine (bool_decide_unpack _ _); vm_compute; exact I |]).
  apply elem_of_nil in Hq. contradiction.
Qed.

End WalkTabAnswers.

(** X21.  The walk tab records one answer per quiz: [selectAnswer] on a
    playing quiz appends one record with the chosen text, marked correct
    exactly when the text is the quiz's answer, and shows the answered
    card; a second tap, or a tap with no quiz playing, changes nothing.
    Every built-in quiz offers four different choices with its answer
    among them, so one button of the card records a correct answer. *)
Theorem walkTab_answer_recorded_once :
  forall (w : WalkTab.Screen) (first second : string) (t1 t2 : Z),
    WalkTab.selectAnswer second t2 (WalkTab.selectAnswer first t1 w)
    = WalkTab.selectAnswer first t1 w
    /\ (forall quiz,
          WalkTab.quizState w = WalkTab.Playing quiz ->
          GameStore.quizHistory
            (WalkTab.store (WalkTab.selectAnswer first t1 w))
          = GameStore.quizHistory (WalkTab.store w)
            ++ [GameStore.mkQuizRecord (PedometerService.question quiz) first
                  (String.eqb first (PedometerService.answer quiz)) t1]
          /\ WalkTab.quizState (WalkTab.selectAnswer first t1 w)
             = WalkTab.Answered quiz first
                 (String.eqb first (PedometerService.answer quiz)))
    /\ ((forall quiz, WalkTab.quizState w <> WalkTab.Playing quiz) ->
        WalkTab.selectAnswer first t1 w = w)
    /\ (forall quiz,
          quiz ∈ PedometerService.FALLBACK_QUIZZES ->
          length (PedometerService.choices quiz) = 4%nat
          /\ NoDup (PedometerService.choices quiz)
          /\ PedometerService.answer quiz ∈ PedometerService.choices quiz).
Proof.
  intros w first second t1 t2. split; [| split; [| split]].
  - destruct (WalkTab.quizState w) as [| quiz | q sel c] eqn:E.
    + rewrite (selectAnswer_not_playing first t1 w) by (rewrite E; discriminate).
      apply selectAnswer_not_playing. rewrite E. discriminate.
    + rewrite (selectAnswer_playing first t1 w quiz E).
      apply selectAnswer_not_playing. cbn. discriminate.
    + rewrite (selectAnswer_not_playing first t1 w) by (rewrite E; discriminate).
      apply selectAnswer_not_playing. rewrite E. discriminate.
  - intros quiz E. rewrite (selectAnswer_playing first t1 w quiz E).
    split; reflexivity.
  - apply selectAnswer_not_playing.
  - apply FALLBACK_QUIZZES_choices.
Qed.

Lemma walkTab_answer_recorded_once_witness :
  WalkTab.quizState
    (WalkTab.selectAnswer "40" 1700000000000
       (WalkTab.mkScreen GameStore.initialState
              PedometerService.initialService true true true
              (WalkTab.Playing
                 (PedometerService.mkWalkQuiz "q4" "5 곱하기 7은 얼마인가요?"
              ["30"; "35"; "40"; "45"] "35" None))
              false 0))
  = WalkTab.Answered
      (PedometerService.mkWalkQuiz "q4" "5 곱하기 7은 얼마인가요?"
              ["30"; "35"; "40"; "45"] "35" None)
      "40" false.
Proof.
  apply (proj1 (proj2 (walkTab_answer_recorded_once
                         (WalkTab.mkScreen GameStore.initialState
              PedometerService.initialService true true true
              (WalkTab.Playing
                 (PedometerService.mkWalkQuiz "q4" "5 곱하기 7은 얼마인가요?"
              ["30"; "35"; "40"; "45"] "35" None))
              false 0)
                         "40" "35" 1700000000000 1700000001000))
           (PedometerService.mkWalkQuiz "q4" "5 곱하기 7은 얼마인가요?"
              ["30"; "35"; "40"; "45"] "35" None)).
  reflexivity.
Defined.

(** X22.  The timer of an answered quiz closes whatever card is showing
    when it fires.  If a reading crosses the next milestone after the
    answer and before the timer, the quiz triggered by it is playing when
    the timer fires and is closed unanswered: the card is idle, the history
    holds the first answer only, and a tap records nothing. *)
Theorem walkTab_answer_timer_closes_next_quiz :
  forall (w : WalkTab.Screen) (quiz : PedometerService.WalkQuiz)
         (choice later : string) (now now' : Z) (tick : Z * Q),
    WalkTab.subscribed w = true ->
    WalkTab.quizState w = WalkTab.Playing quiz ->
    unit_draw (snd tick) ->
    PedometerService.lastQuizMilestone (WalkTab.service w)
    < fst tick / 1000 * 1000 ->
    0 < fst tick / 1000 * 1000 ->
    exists w' next,
      WalkTab.sensorTick tick (WalkTab.selectAnswer choice now w) = Some w'
      /\ next ∈ PedometerService.FALLBACK_QUIZZES
      /\ WalkTab.quizState w' = WalkTab.Playing next
      /\ WalkTab.quizState (WalkTab.answerTimeout w') = WalkTab.QuizIdle
      /\ GameStore.quizHistory (WalkTab.store (WalkTab.answerTimeout w'))
         = GameStore.quizHistory (WalkTab.store w)
           ++ [GameStore.mkQuizRecord (PedometerService.question quiz) choice
                 (String.eqb choice (PedometerService.answer quiz)) now]
      /\ WalkTab.selectAnswer later now' (WalkTab.answerTimeout w')
         = WalkTab.answerTimeout w'.
Proof.
  intros w quiz choice later now now' tick Hsub Hplay Hrnd Hlast Hpos.
  rewrite (selectAnswer_playing choice now w quiz Hplay).
  match goal with
  | |- context [WalkTab.sensorTick tick ?w1] =>
      destruct (sensorTick_frame tick w1) as
        (w' & E & _ & _ & _ & _ & Hhist & Hquiz); [exact Hsub | exact Hrnd |]
  end.
  cbn [WalkTab.service WalkTab.store WalkTab.quizState] in Hquiz, Hhist.
  cbv zeta in Hquiz.
  apply Z.ltb_lt in Hlast, Hpos. rewrite Hlast, Hpos in Hquiz.
  cbn [andb] in Hquiz. destruct Hquiz as (next & Hin & Hnext & _).
  exists w', next. repeat split; assumption.
Qed.

Lemma walkTab_answer_timer_closes_next_quiz_witness :
  exists w' next,
    WalkTab.sensorTick (2003, (1 # 2)%Q)
      (WalkTab.selectAnswer "서울" 1700000000000
         (WalkTab.mkScreen GameStore.initialState
            (PedometerService.mkService 1995 1000 {[ "q1" ]})
            true true true
            (WalkTab.Playing
               (PedometerService.mkWalkQuiz "q1"
                  "대한민국의 수도는 어디일까요?"
                  ["부산"; "서울"; "대구"; "인천"] "서울" None))
            false 0)) = Some w'
    /\ WalkTab.quizState w' = WalkTab.Playing next
    /\ WalkTab.quizState (WalkTab.answerTimeout w') = WalkTab.QuizIdle
    /\ length (GameStore.quizHistory
                 (WalkTab.store (WalkTab.answerTimeout w'))) = 1%nat.
Proof.
  destruct (walkTab_answer_timer_closes_next_quiz
              (WalkTab.mkScreen GameStore.initialState
                 (PedometerService.mkService 1995 1000 {[ "q1" ]})
                 true true true
                 (WalkTab.Playing
                    (PedometerService.mkWalkQuiz "q1"
                       "대한민국의 수도는 어디일까요?"
                       ["부산"; "서울"; "대구"; "인천"] "서울" None))
                 false 0)
              (PedometerService.mkWalkQuiz "q1"
                 "대한민국의 수도는 어디일까요?"
                 ["부산"; "서울"; "대구"; "인천"] "서울" None)
              "서울" "겨울" 1700000000000 1700000004000
              (2003, (1 # 2)%Q))
    as (w' & next & E & _ & Hnext & Hidle & Hhist & _).
  - reflexivity.
  - reflexivity.
  - split; [discriminate | reflexivity].
  - reflexivity.
  - reflexivity.
  - exists w', next. repeat split; try assumption.
    rewrite Hhist. reflexivity.
Defined.

(** * The pedometer service: the step payload and the quiz bank           *)

(** X23.  The payload [_handleStepUpdate] hands to the step callback:
    it carries the reading, the goal flag is up exactly from 5000 steps,
    and the progress is the number the walk tab computes itself,
    [selectWalkProgress] of the store after [setSteps].  For a non-negative
    reading the progress is between 0 and 100 and shows 100 exactly from
    4975 steps on, before the goal flag is up.  The percentage is rounded
    from doubles: 2875 steps, 57.5 percent, show 57. *)
Theorem stepPayload_progress :
  (forall (steps : Z) (sv : PedometerService.Service),
     let p := snd (PedometerService._handleStepUpdate steps sv) in
     PedometerService.payload_steps p = steps
     /\ (PedometerService.goalReached p = true <-> 5000 <= steps)
     /\ PedometerService.progress p
        = GameStore.selectWalkProgress
            (GameStore.setSteps steps GameStore.initialState)
     /\ (0 <= steps ->
         exists v,
           PedometerService.progress p = Some v
           /\ 0 <= v <= 100
           /\ (v = 100 <-> 4975 <= steps)))
  /\ (forall sv : PedometerService.Service,
        PedometerService.progress
          (snd (PedometerService._handleStepUpdate 2875 sv)) = Some 57)
  /\ Math_round (inject_Z 2875 / inject_Z 5000 * 100) = 58.
Proof.
  split; [| split; [intros sv; vm_compute; reflexivity
                   | vm_compute; reflexivity]].
  intros steps sv p. subst p.
  unfold PedometerService._handleStepUpdate.
  cbn [snd PedometerService.payload_steps PedometerService.progress
       PedometerService.goalReached].
  change PedometerService.WALK_GOAL with 5000.
  change PedometerService.REWARD_MILESTONE with 5000.
  split; [reflexivity |]. split; [apply Z.leb_le |].
  split; [reflexivity |].
  intros Hsteps.
  destruct (percent_chain steps steps 5000 Hsteps ltac:(lia) ltac:(lia))
    as (v & v' & Ev & _ & H0 & Hvv & H100 & _).
  exists v. split; [exact Ev |]. split; [lia |].
  split.
  - intros E100. destruct (Z.le_gt_cases 4975 steps) as [H | H]; [exact H |].
    exfalso.
    destruct (percent_chain steps 4974 5000 Hsteps ltac:(lia) ltac:(lia))
      as (a & b & Ea & Eb & _ & Hab & _).
    rewrite Ev in Ea. inversion Ea; subst a.
    assert (E99 : b = 99) by (vm_compute in Eb; congruence).
    lia.
  - intros H.
    destruct (percent_chain 4975 steps 5000 ltac:(lia) H ltac:(lia))
      as (a & b & Ea & Eb & _ & Hab & Hb100 & _).
    rewrite Ev in Eb. inversion Eb; subst b.
    assert (E100 : a = 100) by (vm_compute in Ea; congruence).
    lia.
Qed.

Lemma stepPayload_progress_witness :
  exists v,
    PedometerService.progress
      (snd (PedometerService._handleStepUpdate 4980
              PedometerService.initialService)) = Some v
    /\ v = 100
    /\ PedometerService.goalReached
         (snd (PedometerService._handleStepUpdate 4980
                 PedometerService.initialService)) <> true.
Proof.
  destruct (proj1 stepPayload_progress 4980 PedometerService.initialService)
    as (_ & Hgoal & _ & Hprog).
  destruct (Hprog ltac:(lia)) as (v & Ev & _ & Hfull).
  exists v. split; [exact Ev |]. split.
  - apply Hfull. lia.
  - intros H. apply Hgoal in H. lia.
Defined.

(** X24.  The draw that wraps the quiz bank around returns the first quiz
    and leaves [usedQuizIds] empty, so the first quiz is not marked used:
    the draw after it picks from the whole catalog and marks its pick, and
    when its random number is below 1/8 it returns the first quiz again,
    twice in a row. *)
Theorem quiz_repeats_across_wrap :
  forall (used : gset string) (rnd1 rnd2 : Q),
    (forall q, q ∈ PedometerService.FALLBACK_QUIZZES ->
               PedometerService.id q ∈ used) ->
    unit_draw rnd2 ->
    exists first next,
      PedometerService.FALLBACK_QUIZZES !! 0%nat = Some first
      /\ PedometerService.FALLBACK_QUIZZES !! random_index rnd2 8
         = Some next
      /\ PedometerService.draws PedometerService.FALLBACK_QUIZZES
           [rnd1; rnd2] used
         = Some ([first; next], {[ PedometerService.id next ]})
      /\ ((rnd2 < 1 # 8)%Q -> next = first).
Proof.
  intros used rnd1 rnd2 Hall Hrnd.
  destruct (lookup_lt_is_Some_2 PedometerService.FALLBACK_QUIZZES
              (random_index rnd2 8)) as [next Enext].
  { apply (random_index_lt rnd2 8 Hrnd). lia. }
  eexists. exists next. split; [reflexivity |]. split; [exact Enext |].
  split.
  - cbn [PedometerService.draws].
    rewrite (getRandomQuiz_wrap PedometerService.FALLBACK_QUIZZES rnd1 used
               _ _ eq_refl Hall).
    cbn [mbind option_bind].
    assert (E : PedometerService.getRandomQuiz_from
                  PedometerService.FALLBACK_QUIZZES rnd2 ∅
                = Some (next, {[ PedometerService.id next ]})).
    { unfold PedometerService.getRandomQuiz_from.
      assert (Eall : PedometerService.unusedQuizzes
                       PedometerService.FALLBACK_QUIZZES ∅
                     = PedometerService.FALLBACK_QUIZZES)
        by (vm_compute; reflexivity).
      rewrite Eall.
      change (length PedometerService.FALLBACK_QUIZZES) with 8%nat.
      cbn [Nat.eqb]. rewrite Enext. cbn [mbind option_bind].
      rewrite (left_id_L ∅ (∪)). reflexivity. }
    rewrite E. reflexivity.
  - intros Hlow.
    change 8%nat with (Pos.to_nat 8) in Enext.
    rewrite (random_index_first rnd2 8 Hlow) in Enext.
    cbn in Enext. congruence.
Qed.

Lemma quiz_repeats_across_wrap_witness :
  exists first,
    PedometerService.FALLBACK_QUIZZES !! 0%nat = Some first
    /\ fst <$> PedometerService.draws PedometerService.FALLBACK_QUIZZES
                 [(1 # 2)%Q; (1 # 10)%Q]
                 (list_to_set (PedometerService.id
                               <$> PedometerService.FALLBACK_QUIZZES))
       = Some [first; first].
Proof.
  destruct (quiz_repeats_across_wrap
              (list_to_set (PedometerService.id
                            <$> PedometerService.FALLBACK_QUIZZES))
              (1 # 2)%Q (1 # 10)%Q)
    as (first & next & E0 & _ & Edraws & Hsame).
  - intros q Hq. apply elem_of_list_to_set. apply list_elem_of_fmap.
    exists q. split; [reflexivity | exact Hq].
  - split; [discriminate | reflexivity].
  - exists first. split; [exact E0 |].
    rewrite Edraws. rewrite (Hsame eq_refl). reflexivity.
Defined.

(** * The walk screen: starting, ending and leaving a session             *)

Section WalkScreenSessions.
Import WalkScreen.

(** A render in the idle or the complete phase runs no effect body. *)
Lemma commit_resting rm prev cur :
  phase cur = idle \/ phase cur = complete -> commit rm prev cur = cur.
Proof.
  intros H. unfold commit, runEffects, stepsEffect, quizEffect.
  destruct H as [-> | ->]; cbn [phase_eqb andb];
    repeat match goal with |- context [if ?b then _ else _] => destruct b end;
    reflexivity.
Qed.

Lemma step_resting rm s ev :
  phase (handler rm ev s) = idle \/ phase (handler rm ev s) = complete ->
  step rm s ev = handler rm ev s.
Proof.
  intros H. unfold step. rewrite (settle_two 4). cbn [settle].
  rewrite (commit_resting rm s _ H). apply commit_same.
Qed.

Lemma step_EndWalk rm s :
  phase s = walking ->
  step rm s EndWalk = handleWalkComplete rm (sessionSteps s) s s.
Proof.
  intros Hph.
  assert (E : handler rm EndWalk s = handleWalkComplete rm (sessionSteps s) s s)
    by (cbn [handler]; rewrite Hph; reflexivity).
  rewrite step_resting; rewrite E; [reflexivity | right; reflexivity].
Qed.

Lemma step_BackToVillage rm s :
  phase s = complete ->
  step rm s BackToVillage
  = mkScreen idle (steps s) 0 (startSteps s) (quizList s) (currentQuizIdx s)
      (selectedChoice s) (lastQuizCorrect s) 0 (walkGoal s) (walkSteps s)
      (landscapeItems s) (resultTimers s) (completions s).
Proof.
  intros Hph.
  assert (E : handler rm BackToVillage s
              = mkScreen idle (steps s) 0 (startSteps s) (quizList s)
                  (currentQuizIdx s) (selectedChoice s) (lastQuizCorrect s) 0
                  (walkGoal s) (walkSteps s) (landscapeItems s)
                  (resultTimers s) (completions s))
    by (cbn [handler]; rewrite Hph; reflexivity).
  rewrite step_resting; rewrite E; [reflexivity | left; reflexivity].
Qed.

Lemma step_StartWalk rm s :
  phase s = idle -> 0 < walkGoal s ->
  step rm s StartWalk
  = mkScreen walking (steps s) 0 (steps s)
      (match remoteQuiz rm with
       | Some q => q :: MOCK_QUIZZES
       | None => MOCK_QUIZZES
       end)
      (currentQuizIdx s) (selectedChoice s) (lastQuizCorrect s)
      (correctCount s) (walkGoal s) 0 (landscapeItems s) (resultTimers s)
      (completions s).
Proof.
  intros Hph Hgoal. unfold step. rewrite (settle_two 4).
  destruct s as [cp cs css cst cq ci csel cl cc cg cw cli crt cco].
  cbn [phase walkGoal] in Hph, Hgoal. subst cp.
  cbn [handler phase_eqb settle phase steps sessionSteps startSteps quizList
       currentQuizIdx selectedChoice lastQuizCorrect correctCount walkGoal
       walkSteps landscapeItems resultTimers completions].
  assert (Hle : (cg <=? 0) = false) by (apply Z.leb_gt; exact Hgoal).
  assert (E1 : forall q,
             commit rm (mkScreen idle cs css cst cq ci csel cl cc cg cw cli
                                 crt cco)
                       (mkScreen walking cs 0 cs q ci csel cl cc cg cw cli
                                 crt cco)
             = mkScreen walking cs 0 cs q ci csel cl cc cg 0 cli crt cco).
  { intros q. unfold commit, runEffects, stepsEffect, quizEffect.
    cbn [phase_eqb phase steps sessionSteps startSteps quizList
         currentQuizIdx selectedChoice lastQuizCorrect correctCount walkGoal
         walkSteps landscapeItems resultTimers completions negb orb andb].
    rewrite !orb_true_r. rewrite Z.sub_diag. change (Z.max 0 0) with 0.
    rewrite Hle. change (0 <? 0) with false.
    rewrite andb_false_r. cbn [andb]. reflexivity. }
  rewrite E1.
  unfold commit, runEffects.
  cbn [phase_eqb phase steps sessionSteps negb orb].
  rewrite !Z.eqb_refl. reflexivity.
Qed.

(** One session started, ended at once and left, the server unreachable. *)
Lemma offline_round quiz s :
  phase s = idle -> 0 < walkGoal s ->
  run (mkRemote false quiz) s [StartWalk; EndWalk; BackToVillage]
  = mkScreen idle (steps s) 0 (steps s)
      (match quiz with
       | Some q => q :: MOCK_QUIZZES
       | None => MOCK_QUIZZES
       end)
      (currentQuizIdx s) (selectedChoice s) (lastQuizCorrect s) 0
      (walkGoal s) 0 (landscapeItems s + 1) (resultTimers s)
      (S (completions s)).
Proof.
  intros Hph Hgoal. unfold run. cbn [fold_left].
  rewrite (step_StartWalk (mkRemote false quiz) s Hph Hgoal).
  match goal with
  | |- context [step ?rm ?s1 EndWalk] =>
      rewrite (step_EndWalk rm s1 eq_refl)
  end.
  match goal with
  | |- context [step ?rm ?s2 BackToVillage] =>
      rewrite (step_BackToVillage rm s2 eq_refl)
  end.
  reflexivity.
Qed.

Lemma offline_rounds_succ (n : nat) rm s :
  run rm s (concat (repeat [StartWalk; EndWalk; BackToVillage] (S n)))
  = run rm (run rm s [StartWalk; EndWalk; BackToVillage])
      (concat (repeat [StartWalk; EndWalk; BackToVillage] n)).
Proof.
  cbn [repeat concat]. unfold run. rewrite fold_left_app. reflexivity.
Qed.

End WalkScreenSessions.

(** X25.  Ending a walk by the button, from the walking phase: the screen
    is complete, one completion is counted, the mission's [walkSteps] are
    the session steps, and the reward is [calcLandscapeItems] of the
    session steps when the server accepts the report but one item when it
    does not, whatever the steps; so a walk ended below 5000 steps earns
    nothing online and one item offline. *)
Theorem walkScreen_end_walk_reward :
  forall (rm : WalkScreen.Remote) (s : WalkScreen.Screen),
    WalkScreen.phase s = WalkScreen.walking ->
    let s' := WalkScreen.step rm s WalkScreen.EndWalk in
    WalkScreen.phase s' = WalkScreen.complete
    /\ WalkScreen.completions s' = S (WalkScreen.completions s)
    /\ WalkScreen.walkSteps s' = WalkScreen.sessionSteps s
    /\ WalkScreen.landscapeItems s'
       = WalkScreen.landscapeItems s
         + (if WalkScreen.completeWalkOk rm
            then HealthService.calcLandscapeItems (WalkScreen.sessionSteps s)
            else 1)
    /\ (WalkScreen.sessionSteps s < 5000 ->
        WalkScreen.landscapeItems s'
        = WalkScreen.landscapeItems s
          + (if WalkScreen.completeWalkOk rm then 0 else 1)).
Proof.
  intros rm s Hph s'. subst s'. rewrite (step_EndWalk rm s Hph).
  unfold WalkScreen.handleWalkComplete.
  cbn [WalkScreen.phase WalkScreen.completions WalkScreen.walkSteps
       WalkScreen.landscapeItems].
  repeat split.
  intros Hlow. destruct (WalkScreen.completeWalkOk rm); [| reflexivity].
  unfold HealthService.calcLandscapeItems.
  destruct (Z.leb_spec 10000 (WalkScreen.sessionSteps s)); [lia |].
  destruct (Z.leb_spec 7000 (WalkScreen.sessionSteps s)); [lia |].
  destruct (Z.leb_spec 5000 (WalkScreen.sessionSteps s)); [lia |].
  reflexivity.
Qed.

Lemma walkScreen_end_walk_reward_witness :
  WalkScreen.landscapeItems
    (WalkScreen.step (WalkScreen.mkRemote false None)
       (WalkScreen.step (WalkScreen.mkRemote false None)
          WalkScreen.initialScreen WalkScreen.StartWalk)
       WalkScreen.EndWalk) = 1.
Proof.
  destruct (walkScreen_end_walk_reward (WalkScreen.mkRemote false None)
              (WalkScreen.step (WalkScreen.mkRemote false None)
                 WalkScreen.initialScreen WalkScreen.StartWalk))
    as (_ & _ & _ & H & _).
  - vm_compute. reflexivity.
  - rewrite H. vm_compute. reflexivity.
Defined.

(** X26.  With the server unreachable, the walk screen grants one
    landscape item for every session that is started, ended at once and
    left, without a single sensor reading: [n] such rounds from the idle
    screen add [n] items and [n] completions and leave the screen idle. *)
Theorem walkScreen_offline_rounds :
  forall (n : nat) (quiz : option WalkScreen.WalkQuiz)
         (s : WalkScreen.Screen),
    WalkScreen.phase s = WalkScreen.idle ->
    0 < WalkScreen.walkGoal s ->
    let s' :=
      WalkScreen.run (WalkScreen.mkRemote false quiz) s
        (concat (repeat [WalkScreen.StartWalk; WalkScreen.EndWalk;
                         WalkScreen.BackToVillage] n)) in
    WalkScreen.phase s' = WalkScreen.idle
    /\ WalkScreen.steps s' = WalkScreen.steps s
    /\ WalkScreen.walkGoal s' = WalkScreen.walkGoal s
    /\ WalkScreen.landscapeItems s'
       = WalkScreen.landscapeItems s + Z.of_nat n
    /\ WalkScreen.completions s' = (WalkScreen.completions s + n)%nat.
Proof.
  induction n as [| n IH]; intros quiz s Hph Hgoal; cbv zeta.
  - cbn. repeat split; try lia. exact Hph.
  - rewrite offline_rounds_succ.
    rewrite (offline_round quiz s Hph Hgoal).
    match goal with
    | |- context [WalkScreen.run _ ?s1 _] =>
        destruct (IH quiz s1 eq_refl Hgoal) as (H1 & H2 & H3 & H4 & H5)
    end.
    rewrite H1, H2, H3, H4, H5.
    cbn [WalkScreen.steps WalkScreen.walkGoal WalkScreen.landscapeItems
         WalkScreen.completions].
    repeat split; lia.
Qed.

Lemma walkScreen_offline_rounds_witness :
  WalkScreen.landscapeItems
    (WalkScreen.run (WalkScreen.mkRemote false None) WalkScreen.initialScreen
       (concat (repeat [WalkScreen.StartWalk; WalkScreen.EndWalk;
                        WalkScreen.BackToVillage] 3))) = 3.
Proof.
  destruct (walkScreen_offline_rounds 3 None WalkScreen.initialScreen)
    as (_ & _ & _ & H & _).
  - reflexivity.
  - reflexivity.
  - exact H.
Defined.
